(** * Field extraction and record reconciliation: a shallow embedding

    The development follows the TypeScript sources:
    - [src/lib/patternDetection.ts]            (PATTERN_RULES and its validators,
                                                 detectPatterns, calculateConfidence,
                                                 removeDuplicates, generateRegexPattern)
    - [components/email/ZipUploadComponent.tsx] (parseFilename, cleanCustomerName)
    - [components/email/EmailSendingComponent.tsx] (performMatching, cleanCustomerName)
    - [components/email/CsvUploadComponent.tsx] (row validation of parseCSV,
                                                 generateSampleCSVFromPDFs)
    - [components/PatternDiscoveryTool.tsx]     (testSinglePattern, discoverPatterns,
                                                 generateSuggestions,
                                                 togglePatternSelection)

    JavaScript strings are modelled by [string]: a character is a code unit
    below 256.  JavaScript numbers are IEEE-754 binary64 values, modelled by
    [spec_float] with precision 53 and maximal exponent 1024. *)

From Stdlib Require Import ZArith Lia Bool Ascii String List Sorted.
From Stdlib Require Import Floats.SpecFloat.
From Stdlib Require Import Numbers.DecimalString.
From stdpp Require Import base option list gmap strings.

Local Open Scope nat_scope.


(* ===================================================================== *)
(** ** JavaScript strings *)
(* ===================================================================== *)

Module JsString.

Definition code (c : ascii) : nat := nat_of_ascii c.

Definition in_range (lo hi : nat) (c : ascii) : bool :=
  (lo <=? code c) && (code c <=? hi).

(** [A-Z], [a-z], [\d] *)
Definition is_upper (c : ascii) : bool := in_range 65 90 c.
Definition is_lower (c : ascii) : bool := in_range 97 122 c.
Definition is_digit (c : ascii) : bool := in_range 48 57 c.
Definition is_letter (c : ascii) : bool := is_upper c || is_lower c.

(** [\s], which is also the set that [trim] removes: TAB, LF, VT, FF, CR,
    SPACE and NO-BREAK SPACE are the white space code units below 256. *)
Definition is_space (c : ascii) : bool :=
  in_range 9 13 c || (code c =? 32) || (code c =? 160).

(** [toLowerCase] on one code unit: A-Z and the capital letters of the
    Latin-1 block (U+00C0..U+00DE without the multiplication sign). *)
Definition lower_char (c : ascii) : ascii :=
  if is_upper c then ascii_of_nat (code c + 32)
  else if in_range 192 222 c && negb (code c =? 215)
       then ascii_of_nat (code c + 32)
       else c.

Fixpoint toLowerCase (s : string) : string :=
  match s with
  | EmptyString => EmptyString
  | String c t => String (lower_char c) (toLowerCase t)
  end.

Fixpoint trimStart (s : string) : string :=
  match s with
  | EmptyString => EmptyString
  | String c t => if is_space c then trimStart t else s
  end.

(** [trimEnd] keeps a character when it is not white space or when
    something remains after trimming what follows it. *)
Fixpoint trimEnd (s : string) : string :=
  match s with
  | EmptyString => EmptyString
  | String c t =>
      match trimEnd t with
      | EmptyString => if is_space c then EmptyString else String c EmptyString
      | r => String c r
      end
  end.

Definition trim (s : string) : string := trimEnd (trimStart s).

Definition is_empty (s : string) : bool :=
  match s with EmptyString => true | _ => false end.

(** [a || b] on strings: the empty string is falsy. *)
Definition or_else (a b : string) : string := if is_empty a then b else a.

Fixpoint drop (n : nat) (s : string) : string :=
  match n, s with
  | O, _ => s
  | S _, EmptyString => EmptyString
  | S n', String _ t => drop n' t
  end.

Fixpoint take (n : nat) (s : string) : string :=
  match n, s with
  | O, _ => EmptyString
  | S _, EmptyString => EmptyString
  | S n', String c t => String c (take n' t)
  end.

(** [s.substring(a, b)]: both indices are clamped to the length and
    swapped when [a > b]. *)
Definition substring (a b : nat) (s : string) : string :=
  let a' := Nat.min a (String.length s) in
  let b' := Nat.min b (String.length s) in
  take (Nat.max a' b' - Nat.min a' b') (drop (Nat.min a' b') s).

Fixpoint starts_with (p s : string) : bool :=
  match p, s with
  | EmptyString, _ => true
  | String _ _, EmptyString => false
  | String a p', String b s' => Ascii.eqb a b && starts_with p' s'
  end.

(** [s.indexOf(p)] *)
Fixpoint indexOf (p s : string) : option nat :=
  if starts_with p s then Some 0
  else match s with
       | EmptyString => None
       | String _ t => option_map S (indexOf p t)
       end.

(** [s.includes(p)] *)
Definition includes (p s : string) : bool :=
  match indexOf p s with Some _ => true | None => false end.

(** [s.replace(p, r)] with a string pattern: the first occurrence only.
    The replacements used by the sources contain no [$]. *)
Definition replace_first (p r s : string) : string :=
  match indexOf p s with
  | None => s
  | Some i => take i s +:+ r +:+ drop (i + String.length p) s
  end.

(** [s.split(c)] for a separator of one character. *)
Fixpoint split (sep : ascii) (s : string) : list string :=
  match s with
  | EmptyString => [EmptyString]
  | String c t =>
      if Ascii.eqb c sep then EmptyString :: split sep t
      else match split sep t with
           | [] => [String c EmptyString]
           | h :: r => String c h :: r
           end
  end.

(** [parts.join(sep)] *)
Fixpoint join (sep : string) (l : list string) : string :=
  match l with
  | [] => EmptyString
  | [x] => x
  | x :: r => x +:+ sep +:+ join sep r
  end.

(** The first, respectively the last, character exists and is not white
    space. *)
Definition starts_solid (w : string) : bool :=
  match w with
  | EmptyString => false
  | String a _ => negb (is_space a)
  end.

Fixpoint ends_solid (w : string) : bool :=
  match w with
  | EmptyString => false
  | String a EmptyString => negb (is_space a)
  | String _ t => ends_solid t
  end.

(** Decimal rendering of a natural number, as in a template literal. *)
Definition of_nat (n : nat) : string := NilEmpty.string_of_uint (Nat.to_uint n).

End JsString.

(* ===================================================================== *)
(** ** The regular expressions of the sources

    Every pattern that the modelled functions build themselves is a sequence
    of greedily quantified character classes, optionally anchored.  The
    matcher below is the backtracking semantics of ECMAScript for that
    fragment: a quantifier first takes as many characters as it can, and
    gives them back one at a time while the rest of the pattern fails. *)
(* ===================================================================== *)

Module Re.
Import JsString.

Record atom := Atom {
  cls : ascii -> bool;       (* the character class *)
  rmin : nat;                (* {rmin, ...} *)
  rmax : option nat          (* None: unbounded *)
}.

Record regex := Regex {
  anchor_start : bool;       (* ^ *)
  atoms : list atom;
  anchor_end : bool          (* $ *)
}.

(** How many leading characters of [s] the class accepts, at most [lim]. *)
Fixpoint run_length (p : ascii -> bool) (lim : option nat) (s : string) : nat :=
  match s with
  | EmptyString => 0
  | String c t =>
      match lim with
      | Some O => 0
      | Some (S l) => if p c then S (run_length p (Some l) t) else 0
      | None => if p c then S (run_length p None t) else 0
      end
  end.

(** Try [k], [k-1], ..., [lo] repetitions; the first for which the
    continuation succeeds wins. *)
Fixpoint try_down (cont : nat -> option nat) (lo k : nat) : option nat :=
  if k <? lo then None
  else match cont k with
       | Some r => Some (k + r)
       | None => match k with
                 | O => None
                 | S k' => try_down cont lo k'
                 end
       end.

(** Length of the match of the atoms at the start of [s]. *)
Fixpoint match_here (l : list atom) (at_end : bool) (s : string) : option nat :=
  match l with
  | [] => if at_end then (if is_empty s then Some 0 else None) else Some 0
  | a :: rest =>
      try_down (fun k => match_here rest at_end (drop k s))
               (rmin a) (run_length (cls a) (rmax a) s)
  end.

(** Leftmost match in [s]: (offset, length). *)
Fixpoint search_from (l : list atom) (at_end : bool) (s : string) : option (nat * nat) :=
  match match_here l at_end s with
  | Some n => Some (0, n)
  | None =>
      match s with
      | EmptyString => None
      | String _ t =>
          match search_from l at_end t with
          | Some (i, n) => Some (S i, n)
          | None => None
          end
      end
  end.

Definition search (r : regex) (s : string) : option (nat * nat) :=
  if anchor_start r
  then match match_here (atoms r) (anchor_end r) s with
       | Some n => Some (0, n)
       | None => None
       end
  else search_from (atoms r) (anchor_end r) s.

(** [re.test(s)] for a pattern without the global flag. *)
Definition test (r : regex) (s : string) : bool :=
  match search r s with Some _ => true | None => false end.

(** [s.match(re)] for a pattern without the global flag: the matched text. *)
Definition match_text (r : regex) (s : string) : option string :=
  match search r s with
  | Some (i, n) => Some (take n (drop i s))
  | None => None
  end.

(** [s.replace(/atoms/g, r)]: every match, left to right; after an empty
    match the scan moves one character on. *)
Fixpoint replace_all_fuel (fuel : nat) (l : list atom) (r s : string) : string :=
  match fuel with
  | O => s
  | S f =>
      match search_from l false s with
      | None => s
      | Some (i, n) =>
          take i s +:+ r +:+
          (if n =? 0
           then match drop i s with
                | EmptyString => EmptyString
                | String c t => String c (replace_all_fuel f l r t)
                end
           else replace_all_fuel f l r (drop (i + n) s))
      end
  end.

Definition replace_all (l : list atom) (r s : string) : string :=
  replace_all_fuel (S (String.length s)) l r s.

(** Quantifier shorthands. *)
Definition rep (p : ascii -> bool) (lo hi : nat) : atom := Atom p lo (Some hi).
Definition plus (p : ascii -> bool) : atom := Atom p 1 None.
Definition one (p : ascii -> bool) : atom := Atom p 1 (Some 1).
Definition opt (p : ascii -> bool) : atom := Atom p 0 (Some 1).
Definition chr (c : ascii) : ascii -> bool := fun x => Ascii.eqb x c.

End Re.

(* ===================================================================== *)
(** ** ZipUploadComponent.tsx: parseFilename *)
(* ===================================================================== *)

Module Filename.
Import JsString Re.

Record ParseResult := {
  accountNumber : string;
  customerName : string
}.

Definition is_upper_or_digit (c : ascii) : bool := is_upper c || is_digit c.
Definition is_alnum (c : ascii) : bool := is_letter c || is_digit c.
(** [[_\-\s]] *)
Definition is_separator (c : ascii) : bool :=
  Ascii.eqb c "_" || Ascii.eqb c "-" || is_space c.
(** [[\/\-]] *)
Definition is_date_sep (c : ascii) : bool := Ascii.eqb c "/" || Ascii.eqb c "-".

(** [/([A-Z]{2,6}[A-Z0-9]{2,8})/] *)
Definition account_shape : list atom :=
  [rep is_upper 2 6; rep is_upper_or_digit 2 8].
Definition re_account_search : regex := Regex false account_shape false.
(** [/^[A-Z]{2,6}[A-Z0-9]{2,8}$/] *)
Definition re_account_strict : regex := Regex true account_shape true.
(** [/[_\-\s]+/g] *)
Definition re_separators : list atom := [plus is_separator].
(** [/\d{1,2}[\/\-]\d{1,2}[\/\-]\d{2,4}/g] *)
Definition re_date_mdy : list atom :=
  [rep is_digit 1 2; one is_date_sep; rep is_digit 1 2; one is_date_sep; rep is_digit 2 4].
(** [/\d{4}[\/\-]\d{1,2}[\/\-]\d{1,2}/g] *)
Definition re_date_ymd : list atom :=
  [rep is_digit 4 4; one is_date_sep; rep is_digit 1 2; one is_date_sep; rep is_digit 1 2].
(** [/\d{1,2}[\/\-]\d{1,2}/g] *)
Definition re_date_md : list atom :=
  [rep is_digit 1 2; one is_date_sep; rep is_digit 1 2].
(** [/^\d{1,2}[\/\-]\d{1,2}[\/\-]?\d{0,4}$/] *)
Definition re_date_part : regex :=
  Regex true
    [rep is_digit 1 2; one is_date_sep; rep is_digit 1 2; opt is_date_sep; rep is_digit 0 4]
    true.
(** [/^[A-Za-z0-9]+$/] *)
Definition re_alnum : regex := Regex true [plus is_alnum] true.

(** [parts[i]]; the callers below only index inside the array. *)
Definition part (parts : list string) (i : nat) : string := nth i parts EmptyString.

(** The [for] loop of strategies 3 and 4: the first index whose part has
    the strict account shape. *)
Fixpoint find_account_part (parts : list string) (i : nat) : option (nat * string) :=
  match parts with
  | [] => None
  | p :: r => if test re_account_strict p then Some (i, p)
              else find_account_part r (S i)
  end.

(** [parts.filter((part, index) => index !== i && !date.test(part))] *)
Fixpoint name_parts (parts : list string) (idx i : nat) : list string :=
  match parts with
  | [] => []
  | p :: r =>
      if negb (idx =? i) && negb (test re_date_part p)
      then p :: name_parts r (S idx) i
      else name_parts r (S idx) i
  end.

(** Strategies 3 and 4 share their body; only the separator differs. *)
Definition split_strategy (sep : ascii) (name : string) : string * string :=
  let parts := split sep name in
  let '(acc, cust) :=
    match find_account_part parts 0 with
    | Some (i, p) => (p, or_else (trim (join " " (name_parts parts 0 i))) "Unknown")
    | None => (EmptyString, EmptyString)
    end in
  if is_empty acc && (2 <=? List.length parts)
  then (part parts 0, part parts 1)
  else (acc, cust).

(** The fallback chain, before the final [|| 'Unknown']. *)
Definition strategies (nameWithoutExt : string) : string * string :=
  match match_text re_account_search nameWithoutExt with
  | Some acc =>
      (* Strategy 1 *)
      let remaining := trim (replace_first acc "" nameWithoutExt) in
      let cleaned :=
        trim (replace_all re_date_md ""
               (replace_all re_date_ymd ""
                 (replace_all re_date_mdy ""
                   (replace_all re_separators " " remaining)))) in
      (acc, or_else cleaned "Unknown")
  | None =>
      if includes "_" nameWithoutExt then
        (* Strategy 2 *)
        let parts := split "_" nameWithoutExt in
        if 2 <=? List.length parts then
          if test re_account_strict (part parts 0)
          then (part parts 0, part parts 1)
          else (part parts 1, part parts 0)
        else (EmptyString, EmptyString)
      else if includes " " nameWithoutExt then
        (* Strategy 3 *)
        split_strategy " " nameWithoutExt
      else if includes "-" nameWithoutExt then
        (* Strategy 4 *)
        split_strategy "-" nameWithoutExt
      else
        (* Strategy 5: both branches of the source assign the same values *)
        if (3 <=? String.length nameWithoutExt) && (String.length nameWithoutExt <=? 20)
           && test re_alnum nameWithoutExt
        then (nameWithoutExt, "Unknown")
        else (nameWithoutExt, "Unknown")
  end.

(** [filename.replace('.pdf', '').replace('.PDF', '')] *)
Definition nameWithoutExt (filename : string) : string :=
  replace_first ".PDF" "" (replace_first ".pdf" "" filename).

Definition parseFilename (filename : string) : ParseResult :=
  let '(acc, cust) := strategies (nameWithoutExt filename) in
  {| accountNumber := or_else acc "Unknown";
     customerName := or_else cust "Unknown" |}.

End Filename.

(* ===================================================================== *)
(** ** CsvUploadComponent.tsx: the row validation of parseCSV *)
(* ===================================================================== *)

Module PDFFile.
(** The payload of a [Blob] is opaque to the matching code. *)
Definition Blob : Type := list Byte.byte.

Record t := {
  name : string;
  accountNumber : string;
  customerName : string;
  blob : Blob
}.
End PDFFile.

Module CustomerData.
Record t := {
  accountNumber : string;
  email : string;
  customerName : string
}.
End CustomerData.

Module Csv.
Import JsString Re.

(** [[^\s@]] *)
Definition not_space_at (c : ascii) : bool := negb (is_space c || Ascii.eqb c "@").

(** [/^[^\s@]+@[^\s@]+\.[^\s@]+$/] *)
Definition emailRegex : regex :=
  Regex true
    [plus not_space_at; one (chr "@"); plus not_space_at; one (chr "."); plus not_space_at]
    true.

Definition validateEmail (email : string) : bool := test emailRegex email.

(** The three cells of a row, after the column-name variants have been
    tried in turn ([row.accountNumber || row.account_number || ... || '']). *)
Record Row := {
  row_accountNumber : string;
  row_email : string;
  row_customerName : string
}.

Definition row_label (index : nat) : string := "Row " +:+ of_nat (index + 2).

(** The body of [data.forEach((row, index) => ...)]: either a customer is
    pushed or one message is appended to the error list. *)
Definition parseRow (index : nat) (row : Row) : string + CustomerData.t :=
  if is_empty (trim (row_accountNumber row))
  then inl (row_label index +:+ ": Missing account number")
  else if is_empty (trim (row_email row))
  then inl (row_label index +:+ ": Missing email address")
  else if negb (validateEmail (trim (row_email row)))
  then inl (row_label index +:+ ": Invalid email format: " +:+ row_email row)
  else if is_empty (trim (row_customerName row))
  then inl (row_label index +:+ ": Missing customer name")
  else inr {| CustomerData.accountNumber := trim (row_accountNumber row);
              CustomerData.email := toLowerCase (trim (row_email row));
              CustomerData.customerName := trim (row_customerName row) |}.

(** [parsedCustomers] and [parseErrors] after the loop over the rows. *)
Fixpoint parseRows (index : nat) (rows : list Row)
  : list CustomerData.t * list string :=
  match rows with
  | [] => ([], [])
  | row :: rest =>
      let '(customers, errors) := parseRows (S index) rest in
      match parseRow index row with
      | inl msg => (customers, msg :: errors)
      | inr c => (c :: customers, errors)
      end
  end.

Definition parsedCustomers (rows : list Row) : list CustomerData.t :=
  fst (parseRows 0 rows).

End Csv.

(* ===================================================================== *)
(** ** EmailSendingComponent.tsx: performMatching *)
(* ===================================================================== *)

Module MatchedData.
Record t := {
  pdf : PDFFile.t;
  customer : CustomerData.t;
  matched : bool
}.
End MatchedData.

Module Matching.
Import JsString.

(** [accountNumber.toLowerCase().trim()] *)
Definition normalize (accountNumber : string) : string :=
  trim (toLowerCase accountNumber).

Definition key_of (c : CustomerData.t) : string :=
  normalize (CustomerData.accountNumber c).

Definition insert_customer (m : gmap string CustomerData.t) (c : CustomerData.t)
  : gmap string CustomerData.t :=
  <[key_of c := c]> m.

(** What [performMatching] reads and writes: the two props and its two
    local variables [customerMap] and [matches]. *)
Record Store := {
  pdfFiles : list PDFFile.t;
  customerData : list CustomerData.t;
  customerMap : gmap string CustomerData.t;
  matches : list MatchedData.t
}.

Definition init (pdfs : list PDFFile.t) (customers : list CustomerData.t) : Store :=
  {| pdfFiles := pdfs; customerData := customers; customerMap := ∅; matches := [] |}.

(** [customerMap.set(normalizedAccountNumber, customer)] *)
Definition add_customer (st : Store) (customer : CustomerData.t) : Store :=
  {| pdfFiles := pdfFiles st;
     customerData := customerData st;
     customerMap := insert_customer (customerMap st) customer;
     matches := matches st |}.

(** The object literal used when [customerMap.get] finds nothing. *)
Definition placeholder (pdf : PDFFile.t) : CustomerData.t :=
  {| CustomerData.accountNumber := PDFFile.accountNumber pdf;
     CustomerData.email := "";
     CustomerData.customerName := PDFFile.customerName pdf |}.

(** [{ pdf, customer: customer || {...}, matched: !!customer }] *)
Definition match_pdf (m : gmap string CustomerData.t) (pdf : PDFFile.t) : MatchedData.t :=
  let customer := m !! normalize (PDFFile.accountNumber pdf) in
  {| MatchedData.pdf := pdf;
     MatchedData.customer := default (placeholder pdf) customer;
     MatchedData.matched := if customer is Some _ then true else false |}.

(** [matches.push(...)] *)
Definition push_match (st : Store) (pdf : PDFFile.t) : Store :=
  {| pdfFiles := pdfFiles st;
     customerData := customerData st;
     customerMap := customerMap st;
     matches := matches st ++ [match_pdf (customerMap st) pdf] |}.

(** The two [forEach] loops, in order. *)
Definition run (st : Store) : Store :=
  let st1 := foldl add_customer st (customerData st) in
  foldl push_match st1 (pdfFiles st1).

Definition performMatching (pdfs : list PDFFile.t) (customers : list CustomerData.t)
  : list MatchedData.t :=
  matches (run (init pdfs customers)).

(** [stats.matched = matches.filter(m => m.matched).length] *)
Definition matched_count (ms : list MatchedData.t) : nat :=
  List.length (List.filter MatchedData.matched ms).

Definition unmatched_count (ms : list MatchedData.t) : nat :=
  List.length (List.filter (fun m => negb (MatchedData.matched m)) ms).

(** The lookup that the first loop builds. *)
Definition customer_lookup (customers : list CustomerData.t) : gmap string CustomerData.t :=
  customerMap (foldl add_customer (init [] customers) customers).

(** The distinct normalized account keys of the customer list. *)
Definition customer_keys (customers : list CustomerData.t) : gset string :=
  list_to_set (map key_of customers).

(** The distinct normalized account keys of the matched records. *)
Definition matched_keys (ms : list MatchedData.t) : gset string :=
  list_to_set
    (map (fun m => normalize (PDFFile.accountNumber (MatchedData.pdf m)))
         (List.filter MatchedData.matched ms)).

End Matching.

(* ===================================================================== *)
(** ** JavaScript numbers: IEEE-754 binary64 *)
(* ===================================================================== *)

Module Number.

Definition prec : Z := 53.
Definition emax : Z := 1024.

Definition number : Type := spec_float.

Definition add : number -> number -> number := SFadd prec emax.
Definition sub : number -> number -> number := SFsub prec emax.
Definition mul : number -> number -> number := SFmul prec emax.
Definition div : number -> number -> number := SFdiv prec emax.

(** An integer literal. *)
Definition of_Z (z : Z) : number := binary_normalize prec emax z 0 false.

(** A decimal literal [n/d]: division rounds to nearest, ties to even, so
    the quotient of two exactly represented integers is the double that
    the literal denotes. *)
Definition decimal (n d : Z) : number := div (of_Z n) (of_Z d).

Definition zero : number := S754_zero false.
Definition one : number := Eval vm_compute in of_Z 1.
Definition ten : number := Eval vm_compute in of_Z 10.
Definition lit_0_5 : number := Eval vm_compute in decimal 5 10.
Definition lit_0_3 : number := Eval vm_compute in decimal 3 10.
Definition lit_0_2 : number := Eval vm_compute in decimal 2 10.
Definition lit_0_1 : number := Eval vm_compute in decimal 1 10.

Definition is_nan (x : number) : bool :=
  match x with S754_nan => true | _ => false end.

(** [x <= y], [x < y] *)
Definition leb : number -> number -> bool := SFleb.
Definition ltb : number -> number -> bool := SFltb.

(** [Math.min(x, y)]: NaN when either argument is; [-0] is below [+0]. *)
Definition Math_min (x y : number) : number :=
  match SFcompare x y with
  | None => S754_nan
  | Some Lt => x
  | Some Gt => y
  | Some Eq =>
      match x, y with
      | S754_zero sx, S754_zero sy => S754_zero (sx || sy)
      | _, _ => x
      end
  end.

(** [Math.max(x, y)] *)
Definition Math_max (x y : number) : number :=
  match SFcompare x y with
  | None => S754_nan
  | Some Lt => y
  | Some Gt => x
  | Some Eq =>
      match x, y with
      | S754_zero sx, S754_zero sy => S754_zero (sx && sy)
      | _, _ => x
      end
  end.

End Number.

(* ===================================================================== *)
(** ** RegExp objects

    A rule carries a compiled [RegExp] of arbitrary shape.  The object is
    modelled by its [global] flag and its matching function; [exec] is the
    [lastIndex] protocol of RegExpBuiltinExec around that function. *)
(* ===================================================================== *)

Module RegExp.
Import JsString.

(** The array returned by [exec]: [match.index], [match[0]] and [match[1]]
    ([None] when the pattern has no first group or the group did not
    take part in the match). *)
Record MatchArray := {
  index : nat;
  whole : string;
  group1 : option string
}.

Record t := {
  global : bool;
  (** the leftmost match that starts at or after the given index *)
  match_from : string -> nat -> option MatchArray
}.

(** [regex.exec(text)] with the object's [lastIndex] passed in and out. *)
Definition exec (r : t) (lastIndex : nat) (text : string) : option MatchArray * nat :=
  let start := if global r then lastIndex else 0 in
  if String.length text <? start
  then (None, if global r then 0 else lastIndex)
  else match match_from r text start with
       | None => (None, if global r then 0 else lastIndex)
       | Some m =>
           (Some m, if global r then index m + String.length (whole m) else lastIndex)
       end.

(** [match[1] || match[0]] *)
Definition value_of (m : MatchArray) : string :=
  match group1 m with
  | Some g => or_else g (whole m)
  | None => whole m
  end.

(** The object for a pattern of the fragment of [Re], without groups. *)
Definition of_fragment (g : bool) (r : Re.regex) : t :=
  {| global := g;
     match_from := fun text start =>
       if Re.anchor_start r && negb (start =? 0) then None
       else match Re.search r (drop start text) with
            | Some (i, n) =>
                Some {| index := start + i;
                        whole := take n (drop (start + i) text);
                        group1 := None |}
            | None => None
            end |}.

End RegExp.

(* ===================================================================== *)
(** ** lib/patternDetection.ts: detectPatterns *)
(* ===================================================================== *)

Module Detection.
Import JsString Number.

Inductive ValueType := account | name | address | date | currency | phone | email.

Definition is_account (ty : ValueType) : bool :=
  match ty with account => true | _ => false end.

Module PatternRule.
Record t := {
  name : string;
  regex : RegExp.t;
  description : string;
  type : ValueType;
  priority : number;
  validator : option (string -> bool)
}.
End PatternRule.

Module PatternMatch.
Record t := {
  value : string;
  position : nat;
  confidence : number;
  context : string
}.
End PatternMatch.

Definition labelWords : list string :=
  ["name"; "account"; "number"; "customer"; "bill"; "to"; "holder"].

(** [labelWords.some(word => context.toLowerCase().includes(word.toLowerCase()))] *)
Definition hasLabel (context : string) : bool :=
  existsb (fun word => includes (toLowerCase word) (toLowerCase context)) labelWords.

(** [/^[A-Z]+\d+$/] *)
Definition re_letters_digits : Re.regex :=
  Re.Regex true [Re.plus is_upper; Re.plus is_digit] true.

Definition bad_length (value : string) : bool :=
  (String.length value <? 3) || (50 <? String.length value).

Definition calculateConfidence (value context : string) (rule : PatternRule.t) : number :=
  let confidence := lit_0_5 in
  let confidence := add confidence (mul (div (PatternRule.priority rule) ten) lit_0_3) in
  let confidence := if hasLabel context then add confidence lit_0_2 else confidence in
  let confidence :=
    if is_account (PatternRule.type rule) && Re.test re_letters_digits value
    then add confidence lit_0_1 else confidence in
  let confidence := if bad_length value then sub confidence lit_0_2 else confidence in
  Math_max zero (Math_min one confidence).

(** [text.substring(contextStart, contextEnd)] *)
Definition context_window (text : string) (m : RegExp.MatchArray) : string :=
  let position := RegExp.index m in
  let contextStart := position - 50 in
  let contextEnd :=
    Nat.min (String.length text) (position + String.length (RegExp.whole m) + 50) in
  substring contextStart contextEnd text.

(** The object pushed for one accepted match. *)
Definition make_match (text : string) (rule : PatternRule.t) (m : RegExp.MatchArray)
  : PatternMatch.t :=
  let value := RegExp.value_of m in
  let context := context_window text m in
  {| PatternMatch.value := value;
     PatternMatch.position := RegExp.index m;
     PatternMatch.confidence := calculateConfidence value context rule;
     PatternMatch.context := trim context |}.

(** [rule.validator && !rule.validator(value)] *)
Definition rejected (rule : PatternRule.t) (value : string) : bool :=
  match PatternRule.validator rule with
  | Some v => negb (v value)
  | None => false
  end.

(** The [while ((match = rule.regex.exec(text)) !== null)] loop.  One unit
    of fuel is one evaluation of the loop condition; [None] means that the
    fuel ran out before the loop was left. *)
Fixpoint exec_loop (fuel : nat) (text : string) (rule : PatternRule.t)
    (lastIndex : nat) (matches : list PatternMatch.t) : option (list PatternMatch.t) :=
  match fuel with
  | O => None
  | S fuel' =>
      match RegExp.exec (PatternRule.regex rule) lastIndex text with
      | (None, _) => Some matches
      | (Some m, lastIndex') =>
          if rejected rule (RegExp.value_of m)
          then exec_loop fuel' text rule lastIndex' matches          (* continue *)
          else
            let matches' := matches ++ [make_match text rule m] in
            if negb (RegExp.global (PatternRule.regex rule))
            then Some matches'                                        (* break *)
            else exec_loop fuel' text rule lastIndex' matches'
      end
  end.

(** [removeDuplicates]: the filter with its [seen] set. *)
Fixpoint removeDuplicates_from (seen : gset string) (matches : list PatternMatch.t)
  : list PatternMatch.t :=
  match matches with
  | [] => []
  | m :: rest =>
      let key := toLowerCase (PatternMatch.value m) in
      if decide (key ∈ seen) then removeDuplicates_from seen rest
      else m :: removeDuplicates_from ({[key]} ∪ seen) rest
  end.

Definition removeDuplicates (matches : list PatternMatch.t) : list PatternMatch.t :=
  removeDuplicates_from ∅ matches.

(** [(a, b) => b.confidence - a.confidence] is positive: [a] goes after [b]. *)
Definition goes_after (a b : PatternMatch.t) : bool :=
  ltb zero (sub (PatternMatch.confidence b) (PatternMatch.confidence a)).

Fixpoint insert_by_confidence (x : PatternMatch.t) (l : list PatternMatch.t)
  : list PatternMatch.t :=
  match l with
  | [] => [x]
  | y :: rest => if goes_after x y then y :: insert_by_confidence x rest else x :: l
  end.

(** [Array.prototype.sort] is stable: insertion from the right. *)
Definition sort_by_confidence (l : list PatternMatch.t) : list PatternMatch.t :=
  foldr insert_by_confidence [] l.

(** A [Map] keeps its keys in insertion order; [set] on a present key
    replaces the value in place. *)
Definition Results : Type := list (string * list PatternMatch.t).

Fixpoint map_set (results : Results) (key : string) (v : list PatternMatch.t) : Results :=
  match results with
  | [] => [(key, v)]
  | (k, w) :: rest =>
      if String.eqb k key then (k, v) :: rest else (k, w) :: map_set rest key v
  end.

(** The body of [rules.forEach(rule => ...)]. *)
Definition apply_rule (fuel : nat) (text : string) (results : Results)
    (rule : PatternRule.t) : option Results :=
  match exec_loop fuel text rule 0 [] with
  | None => None
  | Some [] => Some results
  | Some matches =>
      Some (map_set results (PatternRule.name rule)
              (sort_by_confidence (removeDuplicates matches)))
  end.

Fixpoint detect_rules (fuel : nat) (text : string) (rules : list PatternRule.t)
    (results : Results) : option Results :=
  match rules with
  | [] => Some results
  | rule :: rest =>
      match apply_rule fuel text results rule with
      | None => None
      | Some results' => detect_rules fuel text rest results'
      end
  end.

(** [detectPatterns(text, rules)]; every rule's loop gets [fuel]. *)
Definition detectPatterns (fuel : nat) (text : string) (rules : list PatternRule.t)
  : option Results :=
  detect_rules fuel text rules [].

(** The confidence as the specification words it: the clamp to [0, 1] of
    the base, the priority share, the label bonus, the shape bonus and the
    length penalty. *)
Definition spec_confidence (priority : number) (label shape out_of_range : bool)
  : number :=
  let base := lit_0_5 in
  let with_priority := add base (mul (div priority ten) lit_0_3) in
  let with_label := if label then add with_priority lit_0_2 else with_priority in
  let with_shape := if shape then add with_label lit_0_1 else with_label in
  let total := if out_of_range then sub with_shape lit_0_2 else with_shape in
  Math_max zero (Math_min one total).

(** *** Predicates on results *)

(** [m] is the object that the loop pushes for some match array. *)
Definition made_by (text : string) (rule : PatternRule.t) (m : PatternMatch.t) : Prop :=
  exists mo : RegExp.MatchArray, m = make_match text rule mo.

(** Every entry of the result belongs to a rule and holds matches that
    the loop made for that rule. *)
Definition entries_made (text : string) (rules : list PatternRule.t) (results : Results)
  : Prop :=
  forall k ms, In (k, ms) results ->
    exists rule, In rule rules /\ PatternRule.name rule = k /\
                 Forall (made_by text rule) ms.

End Detection.

(* ===================================================================== *)
(** ** lib/patternDetection.ts: generateRegexPattern *)
(* ===================================================================== *)

Module Synthesis.
Import JsString.

(** [(ex.match(/p/g) || []).length]: how many characters of the class. *)
Fixpoint count_chars (p : ascii -> bool) (s : string) : nat :=
  match s with
  | EmptyString => 0
  | String c t => (if p c then 1 else 0) + count_chars p t
  end.

(** [/p/.test(ex)] for a class of one character. *)
Definition has_char (p : ascii -> bool) (s : string) : bool :=
  match count_chars p s with O => false | S _ => true end.

(** [Math.max(...l)] and [Math.min(...l)] over lengths; the callers pass
    one number per example and the example list is not empty. *)
Definition max_of (l : list nat) : nat := foldr Nat.max 0 l.
Definition min_of (l : list nat) : nat :=
  match l with
  | [] => 0
  | x :: rest => foldr Nat.min x rest
  end.

Definition generateAccountPattern (examples : list string) : string :=
  let hasLetters := existsb (has_char is_letter) examples in
  let hasNumbers := existsb (has_char is_digit) examples in
  if hasLetters && hasNumbers then
    let letterCount := max_of (map (count_chars is_letter) examples) in
    let numberCount := max_of (map (count_chars is_digit) examples) in
    "[A-Z]{" +:+ of_nat (Nat.max 1 (letterCount - 1)) +:+ "," +:+ of_nat (letterCount + 1)
      +:+ "}\d{" +:+ of_nat (Nat.max 1 (numberCount - 1)) +:+ "," +:+ of_nat (numberCount + 1)
      +:+ "}"
  else if hasNumbers then
    let minLength := min_of (map String.length examples) in
    let maxLength := max_of (map String.length examples) in
    "\d{" +:+ of_nat minLength +:+ "," +:+ of_nat maxLength +:+ "}"
  else "[A-Z0-9]+".

(** [ex.split(/\s+/).length]: one more than the number of white space runs. *)
Fixpoint space_runs (in_run : bool) (s : string) : nat :=
  match s with
  | EmptyString => 0
  | String c t =>
      if is_space c then (if in_run then 0 else 1) + space_runs true t
      else space_runs false t
  end.

Definition word_count (s : string) : nat := S (space_runs false s).

Definition generateNamePattern (examples : list string) : string :=
  if existsb (includes "&") examples
  then "[A-Z][a-z]+\s*&\s*[A-Z][a-z]+\s+[A-Z][a-z]+"
  else if 3 <=? max_of (map word_count examples)
  then "[A-Z][a-z]+(?:\s+[A-Z][a-z]+){1,2}"
  else "[A-Z][a-z]+\s+[A-Z][a-z]+".

(** [s.replace(/p/g, r)] for a class of one character. *)
Fixpoint replace_chars (p : ascii -> bool) (r s : string) : string :=
  match s with
  | EmptyString => EmptyString
  | String c t =>
      if p c then r +:+ replace_chars p r t else String c (replace_chars p r t)
  end.

Definition generateGenericPattern (examples : list string) : string :=
  let sample := nth 0 examples EmptyString in
  replace_chars is_space "\s*"
    (replace_chars is_digit "\d"
      (replace_chars is_letter "[A-Za-z]" sample)).

Definition generateRegexPattern (examples : list string) (type : string) : string :=
  match examples with
  | [] => EmptyString
  | _ =>
      if String.eqb type "account" then generateAccountPattern examples
      else if String.eqb type "name" then generateNamePattern examples
      else generateGenericPattern examples
  end.

(** *** The reading of the specification: runs instead of counts *)

(** The longest run of consecutive characters of the class in [s]. *)
Fixpoint longest_run_from (p : ascii -> bool) (cur : nat) (s : string) : nat :=
  match s with
  | EmptyString => cur
  | String c t =>
      if p c then longest_run_from p (S cur) t
      else Nat.max cur (longest_run_from p 0 t)
  end.

Definition longest_run (p : ascii -> bool) (s : string) : nat := longest_run_from p 0 s.

(** [[A-Z]{a,b}\d{c,d}] with both ranges one around the given lengths,
    the lower bounds not below 1. *)
Definition shape_pattern (letters digits : nat) : string :=
  "[A-Z]{" +:+ of_nat (Nat.max 1 (letters - 1)) +:+ "," +:+ of_nat (letters + 1)
    +:+ "}\d{" +:+ of_nat (Nat.max 1 (digits - 1)) +:+ "," +:+ of_nat (digits + 1)
    +:+ "}".

(** The pattern that the specification describes for mixed examples: the
    ranges come from the maximal observed run lengths. *)
Definition spec_account_pattern (examples : list string) : string :=
  shape_pattern (max_of (map (longest_run is_letter) examples))
                (max_of (map (longest_run is_digit) examples)).

Fixpoint all_chars (p : ascii -> bool) (s : string) : bool :=
  match s with
  | EmptyString => true
  | String c t => p c && all_chars p t
  end.

(** An example that is one run of letters followed by one run of digits. *)
Definition letters_then_digits (s : string) : Prop :=
  exists l d, s = l +:+ d /\ all_chars is_letter l = true /\ all_chars is_digit d = true.

End Synthesis.

(* ===================================================================== *)
(** ** components/PatternDiscoveryTool.tsx: testSinglePattern *)
(* ===================================================================== *)

Module Tester.
Import JsString.

(** What a [catch] clause can receive. *)
Inductive Thrown :=
| ErrorObject (message : string)   (* an instance of Error *)
| OtherValue.

Record TestResult := {
  pattern : string;
  matches : list string;
  success : bool;
  error : option string
}.

(** [[...new Set(matches)]]: first occurrences, in order. *)
Fixpoint unique_from (seen : gset string) (l : list string) : list string :=
  match l with
  | [] => []
  | x :: rest =>
      if decide (x ∈ seen) then unique_from seen rest
      else x :: unique_from ({[x]} ∪ seen) rest
  end.

Definition unique (l : list string) : list string := unique_from ∅ l.

(** The [while] loop of [testSinglePattern], one unit of fuel for each
    evaluation of its condition. *)
Fixpoint exec_loop (fuel : nat) (regex : RegExp.t) (lastIndex : nat) (text : string)
    (matches : list string) : option (list string) :=
  match fuel with
  | O => None
  | S fuel' =>
      match RegExp.exec regex lastIndex text with
      | (None, _) => Some matches
      | (Some m, lastIndex') =>
          let matches' := matches ++ [RegExp.value_of m] in
          if negb (RegExp.global regex) then Some matches'
          else if 50 <? List.length matches' then Some matches'
          else exec_loop fuel' regex lastIndex' text matches'
      end
  end.

Section WithRegExpConstructor.

(** [new RegExp(pattern, flags)]: a SyntaxError for a pattern that is
    not a regular expression, the compiled object otherwise. *)
Variable RegExp_new : string -> string -> Thrown + RegExp.t.

(** [error instanceof Error ? error.message : 'Unknown error'] *)
Definition error_message (e : Thrown) : string :=
  match e with
  | ErrorObject message => message
  | OtherValue => "Unknown error"
  end.

Definition testSinglePattern (fuel : nat) (pattern text : string) : option TestResult :=
  match RegExp_new pattern "gi" with
  | inl e =>
      (* catch (error) *)
      Some {| pattern := pattern; matches := []; success := false;
              error := Some (error_message e) |}
  | inr regex =>
      match exec_loop fuel regex 0 text [] with
      | None => None
      | Some found =>
          Some {| pattern := pattern; matches := unique found; success := true;
                  error := None |}
      end
  end.

(** [patternsToTest.map(pattern => testSinglePattern(pattern, testText))] *)
Fixpoint testAllPatterns (fuel : nat) (patterns : list string) (text : string)
  : option (list TestResult) :=
  match patterns with
  | [] => Some []
  | p :: rest =>
      match testSinglePattern fuel p text with
      | None => None
      | Some r =>
          match testAllPatterns fuel rest text with
          | None => None
          | Some rs => Some (r :: rs)
          end
      end
  end.

End WithRegExpConstructor.

End Tester.

(* ===================================================================== *)
(** ** Sample data for the concrete runs *)
(* ===================================================================== *)

Module Sample.

Definition sample_customer : CustomerData.t :=
  {| CustomerData.accountNumber := "ABC123"; CustomerData.email := "a@x.com";
     CustomerData.customerName := "A" |}.

(** A second record whose account number normalizes to the same key. *)
Definition sample_duplicate : CustomerData.t :=
  {| CustomerData.accountNumber := " abc123"; CustomerData.email := "b@y.org";
     CustomerData.customerName := "B" |}.

Definition sample_pdf (file account : string) : PDFFile.t :=
  {| PDFFile.name := file; PDFFile.accountNumber := account;
     PDFFile.customerName := "Unknown"; PDFFile.blob := [] |}.

(** [/[A-Z]{2,6}\d{4,12}/] with or without the [g] flag. *)
Definition codes_regex (g : bool) : RegExp.t :=
  RegExp.of_fragment g
    (Re.Regex false [Re.rep JsString.is_upper 2 6; Re.rep JsString.is_digit 4 12] false).

(** A rule in the manner of [alphanumeric_codes]. *)
Definition codes_rule : Detection.PatternRule.t :=
  {| Detection.PatternRule.name := "alphanumeric_codes";
     Detection.PatternRule.regex := codes_regex true;
     Detection.PatternRule.description := "Alphanumeric account codes";
     Detection.PatternRule.type := Detection.account;
     Detection.PatternRule.priority := Number.of_Z 8;
     Detection.PatternRule.validator :=
       Some (Re.test
               (Re.Regex true
                  [Re.rep JsString.is_upper 2 6; Re.rep JsString.is_digit 4 12] true)) |}.

Definition sample_text : string := "Account Nbr: FBNWTX999888".

(** The match array of [codes_regex] in [sample_text] and the object
    that [detectPatterns] pushes for it. *)
Definition sample_array : RegExp.MatchArray :=
  {| RegExp.index := 13; RegExp.whole := "FBNWTX999888"; RegExp.group1 := None |}.

Definition sample_match : Detection.PatternMatch.t :=
  Detection.make_match sample_text codes_rule sample_array.

(** [/[A-Z0-9]+/], no [g] flag, with the length validator of the
    labelled account rule: [match.length >= 4 && match.length <= 20]. *)
Definition short_code_rule : Detection.PatternRule.t :=
  {| Detection.PatternRule.name := "codes";
     Detection.PatternRule.regex :=
       RegExp.of_fragment false
         (Re.Regex false [Re.plus Filename.is_upper_or_digit] false);
     Detection.PatternRule.description := "Codes";
     Detection.PatternRule.type := Detection.account;
     Detection.PatternRule.priority := Number.of_Z 10;
     Detection.PatternRule.validator :=
       Some (fun m => (4 <=? String.length m) && (String.length m <=? 20)) |}.

(** [/\d*/g], no validator: the pattern matches the empty string. *)
Definition digits_star_rule : Detection.PatternRule.t :=
  {| Detection.PatternRule.name := "digits";
     Detection.PatternRule.regex :=
       RegExp.of_fragment true
         (Re.Regex false [Re.Atom JsString.is_digit 0 None] false);
     Detection.PatternRule.description := "Digits";
     Detection.PatternRule.type := Detection.account;
     Detection.PatternRule.priority := Number.of_Z 6;
     Detection.PatternRule.validator := None |}.

(** A stand-in for the engine's constructor: it rejects one malformed
    pattern the way the engine does and compiles any other pattern to
    [/[A-Z]{2,6}\d{4,12}/g]. *)
Definition sample_RegExp_new (pattern flags : string) : Tester.Thrown + RegExp.t :=
  if String.eqb pattern "[A-Z"
  then inl (Tester.ErrorObject
              "Invalid regular expression: /[A-Z/: Unterminated character class")
  else inr (codes_regex true).

End Sample.

(* ===================================================================== *)
(** ** What a match of the pattern fragment looks like *)
(* ===================================================================== *)

Module ReSpec.
Import JsString Re.

(** The least number of characters that the atoms consume. *)
Definition min_length (l : list atom) : nat := foldr (fun a n => rmin a + n) 0 l.

(** [k] repetitions are allowed by the quantifier of [a]. *)
Definition within (a : atom) (k : nat) : Prop :=
  rmin a <= k /\ match rmax a with Some h => k <= h | None => True end.

(** [s] is one run for each atom, in order, every run made of characters
    of the atom's class and as long as its quantifier allows. *)
Fixpoint conforms (l : list atom) (s : string) : Prop :=
  match l with
  | [] => s = EmptyString
  | a :: rest =>
      exists k, within a k /\ k <= String.length s /\
                Synthesis.all_chars (cls a) (take k s) = true /\
                conforms rest (drop k s)
  end.

End ReSpec.

(* ===================================================================== *)
(** ** Predicates on patterns and results of detectPatterns *)
(* ===================================================================== *)

Module DetectionSpec.
Import JsString Detection.

(** Every match that the pattern finds in [text] ends after the index at
    which the search for it started: the pattern has no empty match and no
    match before the start index. *)
Definition advancing (text : string) (r : RegExp.t) : Prop :=
  forall i mo, RegExp.match_from r text i = Some mo ->
               i < RegExp.index mo + String.length (RegExp.whole mo).

(** The key under which [removeDuplicates] remembers a match. *)
Definition match_key (m : PatternMatch.t) : string :=
  toLowerCase (PatternMatch.value m).

(** The matches that survive the loop of a rule, when the loop is left. *)
Definition survivors (fuel : nat) (text : string) (rule : PatternRule.t)
  : option (list PatternMatch.t) :=
  exec_loop fuel text rule 0 [].

(** What an entry of the result satisfies. *)
Definition good_entry (ms : list PatternMatch.t) : Prop :=
  ms <> [] /\ NoDup (map match_key ms).

(** [m] is the object pushed for a match of the rule's pattern in [text]
    whose value the rule's validator, when there is one, accepted. *)
Definition accepted_by (text : string) (rule : PatternRule.t) (m : PatternMatch.t) : Prop :=
  exists (mo : RegExp.MatchArray) (start : nat),
    (start <= String.length text) /\
    (RegExp.match_from (PatternRule.regex rule) text start = Some mo) /\
    (m = make_match text rule mo) /\
    (forall v, PatternRule.validator rule = Some v -> v (PatternMatch.value m) = true).

End DetectionSpec.

(* ===================================================================== *)
(** ** CsvUploadComponent.tsx: generateSampleCSVFromPDFs *)
(* ===================================================================== *)

Module CsvSample.
Import JsString.

(** The cells of the line written for one PDF:
    [[pdf.accountNumber, 'customer@email.com', pdf.customerName]]. *)
Definition sample_row (pdf : PDFFile.t) : Csv.Row :=
  {| Csv.row_accountNumber := PDFFile.accountNumber pdf;
     Csv.row_email := "customer@email.com";
     Csv.row_customerName := PDFFile.customerName pdf |}.

(** [csvRows], in the order of the PDF files. *)
Definition csvRows (pdfFiles : list PDFFile.t) : list Csv.Row := map sample_row pdfFiles.

(** The same line once the user has put an address in place of the
    placeholder. *)
Definition row_with_email (pdf : PDFFile.t) (email : string) : Csv.Row :=
  {| Csv.row_accountNumber := PDFFile.accountNumber pdf;
     Csv.row_email := email;
     Csv.row_customerName := PDFFile.customerName pdf |}.

(** A cell that is not blank. *)
Definition filled (cell : string) : Prop := trim cell <> EmptyString.

End CsvSample.

(* ===================================================================== *)
(** ** Regular expressions in general

    The rule catalogue uses alternation, groups under quantifiers, word
    boundaries, a capturing group and the [i] flag.  [Rx.m] is the
    backtracking matcher of ECMAScript in continuation-passing style: a
    pattern is matched against a state and a continuation that stands for
    the rest of the pattern; alternatives and repetition counts are tried
    in the order of the language, and the first success is the result.
    One capturing group is followed, the first; no pattern of the sources
    has its group under a quantifier, where every iteration would have to
    reset it. *)
(* ===================================================================== *)

Module Rx.
Import JsString.

Inductive rx :=
| Eps                                            (* the empty pattern *)
| Chr (p : ascii -> bool)                        (* one character of a class *)
| Seq (a b : rx)
| Alt (a b : rx)                                 (* a|b *)
| Rep (lo : nat) (hi : option nat) (r : rx)      (* greedy {lo,hi}; None: unbounded *)
| Bound                                          (* \b *)
| Bol                                            (* ^ *)
| Eol                                            (* $ *)
| Group (r : rx).                                (* the capturing group 1 *)

(** Where the matcher stands: the index, the character before it, the
    text from it on, and the extent of group 1 when it took part. *)
Record st := {
  pos : nat;
  prev : option ascii;
  rest : string;
  cap : option (nat * nat)
}.

(** [\w] *)
Definition is_word (c : ascii) : bool := is_letter c || is_digit c || Ascii.eqb c "_".

Definition word_before (s : st) : bool :=
  match prev s with Some c => is_word c | None => false end.

Definition word_after (s : st) : bool :=
  match rest s with String c _ => is_word c | EmptyString => false end.

Definition cont : Type := st -> option st.

(** RepeatMatcher: with [hi = 0] the rest of the pattern follows; an
    iteration that is not required and consumes nothing fails; a required
    iteration must succeed, an optional one is tried before the rest of
    the pattern.  Every iteration lowers [lo] or consumes a character, so
    [lo + length rest + 1] units of fuel are never used up. *)
Fixpoint rep_loop (body : cont -> cont) (k : cont) (fuel lo : nat) (hi : option nat)
    (x : st) : option st :=
  match hi with
  | Some O => k x
  | _ =>
      match fuel with
      | O => None
      | S fuel' =>
          let d := fun y =>
            if (lo =? 0) && (pos y =? pos x) then None
            else rep_loop body k fuel' (Nat.pred lo) (option_map Nat.pred hi) y in
          if lo =? 0
          then match body d x with
               | Some z => Some z
               | None => k x
               end
          else body d x
      end
  end.

Fixpoint m (r : rx) (k : cont) (s : st) : option st :=
  match r with
  | Eps => k s
  | Chr p =>
      match rest s with
      | String c t =>
          if p c then k {| pos := S (pos s); prev := Some c; rest := t; cap := cap s |}
          else None
      | EmptyString => None
      end
  | Seq a b => m a (m b k) s
  | Alt a b =>
      match m a k s with
      | Some z => Some z
      | None => m b k s
      end
  | Rep lo hi r' => rep_loop (m r') k (lo + String.length (rest s) + 1) lo hi s
  | Bound => if xorb (word_before s) (word_after s) then k s else None
  | Bol => match prev s with None => k s | Some _ => None end
  | Eol => match rest s with EmptyString => k s | _ => None end
  | Group r' =>
      m r' (fun y => k {| pos := pos y; prev := prev y; rest := rest y;
                          cap := Some (pos s, pos y) |}) s
  end.

(** The first index from [i] on at which the pattern matches, with the
    final state of the match. [s] is the text from [i] on. *)
Fixpoint search_at (r : rx) (before : option ascii) (s : string) (i : nat)
  : option (nat * st) :=
  match m r Some {| pos := i; prev := before; rest := s; cap := None |} with
  | Some z => Some (i, z)
  | None =>
      match s with
      | EmptyString => None
      | String c t => search_at r (Some c) t (S i)
      end
  end.

(** The character before index [i] of [text]. *)
Definition char_before (text : string) (i : nat) : option ascii :=
  match i with
  | O => None
  | S j => String.get j text
  end.

Definition search (r : rx) (text : string) (start : nat) : option (nat * st) :=
  if String.length text <? start then None
  else search_at r (char_before text start) (drop start text) start.

(** [text.substring(a, b)] for [a <= b]. *)
Definition slice (text : string) (a b : nat) : string := take (b - a) (drop a text).

Definition match_array (text : string) (found : nat * st) : RegExp.MatchArray :=
  let '(i, z) := found in
  {| RegExp.index := i;
     RegExp.whole := slice text i (pos z);
     RegExp.group1 := match cap z with
                      | Some (a, b) => Some (slice text a b)
                      | None => None
                      end |}.

(** The RegExp object of a pattern; [g] is its global flag. *)
Definition regexp (g : bool) (r : rx) : RegExp.t :=
  {| RegExp.global := g;
     RegExp.match_from := fun text start => option_map (match_array text) (search r text start) |}.

(** [re.test(s)] for a pattern without the [g] flag. *)
Definition test (r : rx) (s : string) : bool :=
  match search r s 0 with Some _ => true | None => false end.

(** *** Writing patterns *)

(** The other case of a letter, for the [i] flag: two characters match
    when they have the same capital. *)
Definition swap_case (c : ascii) : ascii :=
  if is_upper c || (in_range 192 222 c && negb (code c =? 215))
  then ascii_of_nat (code c + 32)
  else if is_lower c || (in_range 224 254 c && negb (code c =? 247))
  then ascii_of_nat (code c - 32)
  else c.

(** A class under the [i] flag. *)
Definition ci (p : ascii -> bool) : ascii -> bool := fun c => p c || p (swap_case c).

Definition any_of (chars : string) : ascii -> bool :=
  fun c => Synthesis.has_char (Ascii.eqb c) chars.

Definition either (p q : ascii -> bool) : ascii -> bool := fun c => p c || q c.

Definition seqs (l : list rx) : rx := foldr Seq Eps l.

(** [a|b|...]; the list is not empty. *)
Fixpoint alts (l : list rx) : rx :=
  match l with
  | [] => Eps
  | [a] => a
  | a :: rest => Alt a (alts rest)
  end.

(** A literal text, with or without the [i] flag. *)
Fixpoint lit (i : bool) (s : string) : rx :=
  match s with
  | EmptyString => Eps
  | String c t => Seq (Chr (if i then ci (Ascii.eqb c) else Ascii.eqb c)) (lit i t)
  end.

Definition star (r : rx) : rx := Rep 0 None r.
Definition plus (r : rx) : rx := Rep 1 None r.
Definition opt (r : rx) : rx := Rep 0 (Some 1) r.
Definition rng (lo hi : nat) (r : rx) : rx := Rep lo (Some hi) r.
Definition at_least (lo : nat) (r : rx) : rx := Rep lo None r.

(** *** The least length of a match *)

Definition rep_count (lo : nat) (hi : option nat) : nat :=
  match hi with Some h => Nat.min lo h | None => lo end.

Fixpoint min_len (r : rx) : nat :=
  match r with
  | Chr _ => 1
  | Seq a b => min_len a + min_len b
  | Alt a b => Nat.min (min_len a) (min_len b)
  | Rep lo hi r' => rep_count lo hi * min_len r'
  | Group r' => min_len r'
  | Eps | Bound | Bol | Eol => 0
  end.

(** What a continuation-passing matcher owes: a success went through the
    continuation at a state at least [n] characters further on, the
    position and the rest of the text moving together. *)
Definition progresses (f : cont -> cont) (n : nat) : Prop :=
  forall (k : cont) (s z : st),
    f k s = Some z ->
    exists y, k y = Some z /\ pos s + n <= pos y /\
              pos y + String.length (rest y) = pos s + String.length (rest s).

End Rx.

(** *** Notions for the statements about the matcher *)

Module RxSpec.
Import JsString Rx.

(** [y] lies ahead of [x] in the same text. *)
Definition ahead (x y : st) : Prop :=
  pos x <= pos y /\
  pos y + String.length (rest y) = pos x + String.length (rest x).

(** A matcher that consults its continuation only at states ahead of the
    one it was started at. *)
Definition forward (f : cont -> cont) : Prop :=
  forall (k1 k2 : cont) (s : st),
    (forall y, ahead s y -> k1 y = k2 y) -> f k1 s = f k2 s.

(** The greatest length of a match; [None] when there is no bound. *)
Fixpoint max_len (r : rx) : option nat :=
  match r with
  | Chr _ => Some 1
  | Seq a b =>
      match max_len a, max_len b with
      | Some x, Some y => Some (x + y)
      | _, _ => None
      end
  | Alt a b =>
      match max_len a, max_len b with
      | Some x, Some y => Some (Nat.max x y)
      | _, _ => None
      end
  | Rep _ (Some hi) r' =>
      match max_len r' with
      | Some x => Some (hi * x)
      | None => None
      end
  | Rep _ None _ => None
  | Group r' => max_len r'
  | Eps | Bound | Bol | Eol => Some 0
  end.

(** A success of the matcher went through the continuation at most [n]
    characters further on. *)
Definition bounded (f : cont -> cont) (n : nat) : Prop :=
  forall (k : cont) (s z : st),
    f k s = Some z -> exists y, k y = Some z /\ ahead s y /\ pos y <= pos s + n.

(** The state after [n] more characters of the text. *)
Fixpoint feed (s : st) (n : nat) : st :=
  match n with
  | O => s
  | S n' =>
      match rest s with
      | String c t => feed {| pos := S (pos s); prev := Some c; rest := t; cap := cap s |} n'
      | EmptyString => s
      end
  end.

(** The pattern ends with the capturing group, and the group needs at
    least one character. *)
Fixpoint ends_in_group (r : rx) : bool :=
  match r with
  | Group g => 1 <=? min_len g
  | Seq a b =>
      match b with
      | Eps => ends_in_group a
      | _ => ends_in_group b
      end
  | _ => false
  end.

(** The state in which a search of [text] starts at index 0. *)
Definition start_of (text : string) : st :=
  {| pos := 0; prev := None; rest := text; cap := None |}.

End RxSpec.

(* ===================================================================== *)
(** ** lib/patternDetection.ts: the validators and PATTERN_RULES *)
(* ===================================================================== *)

Module Catalog.
Import JsString Rx Detection Number.

(** *** Helper functions of the validators *)

(** [toUpperCase] on one code unit.  The capital of a-z and of the small
    letters of the Latin-1 block is 32 below; the capital of U+00DF is
    "SS".  The capitals of U+00FF and U+00B5 lie above 255: the two are
    kept, which a comparison with ASCII words does not observe. *)
Definition upper_char (c : ascii) : string :=
  if is_lower c || (in_range 224 254 c && negb (code c =? 247))
  then String (ascii_of_nat (code c - 32)) EmptyString
  else if code c =? 223 then "SS"
  else String c EmptyString.

Fixpoint toUpperCase (s : string) : string :=
  match s with
  | EmptyString => EmptyString
  | String c t => upper_char c +:+ toUpperCase t
  end.

(** [[^A-Za-z\s&'.-]] *)
Definition is_special (c : ascii) : bool :=
  negb (is_letter c || is_space c || any_of "&'.-" c).

Definition isValidName (name : string) : bool :=
  let cleaned := trim name in
  if String.length cleaned <? 2 then false
  else if negb (Synthesis.has_char is_letter cleaned) then false        (* /[A-Za-z]/ *)
  else if Re.test (Re.Regex true [Re.plus is_digit] true) cleaned then false  (* /^\d+$/ *)
  else if 2 <? Synthesis.count_chars is_special cleaned then false
  else true.

Definition commonWords : list string :=
  ["THE"; "AND"; "FOR"; "ARE"; "BUT"; "NOT"; "YOU"; "ALL"; "CAN"; "HER"; "WAS"; "ONE"; "OUR";
   "HAD"; "BY"; "WORD"; "OIL"; "SIT"; "SET"; "RUN"; "EAT"; "FAR"; "SEA"; "EYE"; "OLD"; "SEE";
   "HIM"; "TWO"; "HOW"; "ITS"; "WHO"; "DID"; "YES"; "HIS"; "HAS"; "HAD"; "LET"; "PUT"; "TOO";
   "USE"; "HER"; "WAY"; "MAY"; "SAY"; "SHE"; "NEW"; "TRY"; "MAN"; "DAY"; "GET"; "USE"; "MAN";
   "NEW"; "NOW"; "WAY"; "MAY"; "SAY"].

(** [commonWords.includes(text.toUpperCase().replace(/\s+/g, ' ').trim())] *)
Definition isCommonWord (text : string) : bool :=
  existsb (String.eqb (trim (Re.replace_all [Re.plus is_space] " " (toUpperCase text))))
          commonWords.

Definition digit : rx := Chr is_digit.

Definition commonPatterns : list rx :=
  [ (* /^(19|20)\d{2}$/ *)
    seqs [Bol; alts [lit false "19"; lit false "20"]; rng 2 2 digit; Eol];
    (* /^(0[1-9]|1[0-2])(0[1-9]|[12]\d|3[01])$/ *)
    seqs [Bol;
          alts [seqs [lit false "0"; Chr (in_range 49 57)];
                seqs [lit false "1"; Chr (in_range 48 50)]];
          alts [seqs [lit false "0"; Chr (in_range 49 57)];
                seqs [Chr (any_of "12"); digit];
                seqs [lit false "3"; Chr (any_of "01")]];
          Eol];
    (* /^[01]\d{3}$/ *)
    seqs [Bol; Chr (any_of "01"); rng 3 3 digit; Eol];
    (* /^(555|800|888|877|866|855|844|833|822)\d{7}$/ *)
    seqs [Bol;
          alts (map (lit false) ["555"; "800"; "888"; "877"; "866"; "855"; "844"; "833"; "822"]);
          rng 7 7 digit; Eol] ].

(** [commonPatterns.some(pattern => pattern.test(num))] *)
Definition isCommonNumber (num : string) : bool :=
  existsb (fun pattern => test pattern num) commonPatterns.

(** [s.split(/p/)] for a class of one character. *)
Fixpoint split_by (p : ascii -> bool) (s : string) : list string :=
  match s with
  | EmptyString => [EmptyString]
  | String c t =>
      if p c then EmptyString :: split_by p t
      else match split_by p t with
           | [] => [String c EmptyString]
           | h :: r => String c h :: r
           end
  end.

Section Builtins.

(** [Number(s)] and [parseFloat(s)] of the engine. *)
Variable ToNumber : string -> number.
Variable parseFloat : string -> number.

Definition isValidDate (dateStr : string) : bool :=
  let parts := split_by (any_of "-/") dateStr in
  if negb (List.length parts =? 3) then false
  else
    let month := ToNumber (nth 0 parts EmptyString) in
    let day := ToNumber (nth 1 parts EmptyString) in
    let year := ToNumber (nth 2 parts EmptyString) in
    if ltb month (of_Z 1) || ltb (of_Z 12) month then false
    else if ltb day (of_Z 1) || ltb (of_Z 31) day then false
    else if ltb year (of_Z 1900) || ltb (of_Z 2100) year then false
    else true.

(** *** The validators of the rules *)

Definition valid_labeled_account (match_ : string) : bool :=
  (4 <=? String.length match_) && (String.length match_ <=? 20).

(** [/^[A-Z]{2,6}\d{4,12}$/.test(match)] *)
Definition valid_alphanumeric (match_ : string) : bool :=
  Re.test (Re.Regex true [Re.rep is_upper 2 6; Re.rep is_digit 4 12] true) match_.

Definition valid_numeric (match_ : string) : bool :=
  let num := Synthesis.replace_chars (fun c => negb (is_digit c)) "" match_ in   (* /\D/g *)
  (6 <=? String.length num) && (String.length num <=? 15) && negb (isCommonNumber num).

Definition valid_formal_name (match_ : string) : bool :=
  isValidName match_ && negb (isCommonWord match_).

Definition valid_decimal (match_ : string) : bool :=
  let num := parseFloat (Synthesis.replace_chars (Re.chr ",") "" match_) in
  ltb zero num && ltb num (of_Z 1000000).

(** [/^\d{5}(-\d{4})?$/.test(match)] *)
Definition valid_zip (match_ : string) : bool :=
  test (seqs [Bol; rng 5 5 digit; opt (seqs [lit false "-"; rng 4 4 digit]); Eol]) match_.

(** *** The patterns of the rules *)

Definition space : rx := Chr is_space.
Definition upper : rx := Chr is_upper.
Definition lower : rx := Chr is_lower.
(** [[A-Z]] and [[a-z]] under the [i] flag *)
Definition upper_i : rx := Chr (ci is_upper).
Definition lower_i : rx := Chr (ci is_lower).
(** [[:\s]] *)
Definition colon_or_space : rx := Chr (either (Re.chr ":") is_space).
(** [(?:number|nbr|#)] under the [i] flag *)
Definition number_word : rx := alts [lit true "number"; lit true "nbr"; lit true "#"].

(** [/(?:account\s*(?:number|nbr|#)|acct\s*(?:number|nbr|#))[:\s]+([A-Z0-9\-]+)/gi] *)
Definition re_labeled_account_numbers : rx :=
  seqs [alts [seqs [lit true "account"; star space; number_word];
              seqs [lit true "acct"; star space; number_word]];
        plus colon_or_space;
        Group (plus (Chr (ci (either is_upper (either is_digit (Re.chr "-"))))))].

(** [/\b[A-Z]{2,6}\d{4,12}\b/g] *)
Definition re_alphanumeric_codes : rx :=
  seqs [Bound; rng 2 6 upper; rng 4 12 digit; Bound].

(** [/\b\d{6,15}\b/g] *)
Definition re_numeric_accounts : rx := seqs [Bound; rng 6 15 digit; Bound].

(** [/(?:customer\s*name|bill\s*to|account\s*holder)[:\s]+(N)/gi], where the
    group [N] is [[A-Z][a-z]+], then the starred group of [\s+[A-Z&][a-z]*],
    then the starred group of [\s+[A-Z][a-z]+]. *)
Definition re_labeled_customer_names : rx :=
  seqs [alts [seqs [lit true "customer"; star space; lit true "name"];
              seqs [lit true "bill"; star space; lit true "to"];
              seqs [lit true "account"; star space; lit true "holder"]];
        plus colon_or_space;
        Group (seqs [upper_i; plus lower_i;
                     star (seqs [plus space; Chr (ci (either is_upper (Re.chr "&")));
                                 star lower_i]);
                     star (seqs [plus space; upper_i; plus lower_i])])].

(** [/\b[A-Z][a-z]+\s*&\s*[A-Z][a-z]+\s+[A-Z][a-z]+(?:\'?s)?\b/g] *)
Definition re_couple_names : rx :=
  seqs [Bound; upper; plus lower; star space; Chr (Re.chr "&"); star space;
        upper; plus lower; plus space; upper; plus lower;
        opt (seqs [opt (Chr (Re.chr "'")); Chr (Re.chr "s")]); Bound].

(** [/\b[A-Z][a-z]+\s+[A-Z][a-z]+(?:\s+[A-Z][a-z]+)?\b/g] *)
Definition re_formal_names : rx :=
  seqs [Bound; upper; plus lower; plus space; upper; plus lower;
        opt (seqs [plus space; upper; plus lower]); Bound].

(** [/\b[A-Z]{2,}\s+[A-Z]{2,}(?:\s+[A-Z]{2,})?\b/g] *)
Definition re_all_caps_names : rx :=
  seqs [Bound; at_least 2 upper; plus space; at_least 2 upper;
        opt (seqs [plus space; at_least 2 upper]); Bound].

(** [/\b\d{1,2}\/\d{1,2}\/\d{2,4}\b/g] and [/\b\d{1,2}-\d{1,2}-\d{2,4}\b/g] *)
Definition re_dates (sep : ascii) : rx :=
  seqs [Bound; rng 1 2 digit; Chr (Re.chr sep); rng 1 2 digit; Chr (Re.chr sep);
        rng 2 4 digit; Bound].

Definition month_words : list string :=
  ["January"; "February"; "March"; "April"; "May"; "June"; "July"; "August"; "September";
   "October"; "November"; "December"; "Jan"; "Feb"; "Mar"; "Apr"; "May"; "Jun"; "Jul";
   "Aug"; "Sep"; "Oct"; "Nov"; "Dec"].

(** [/\b(?:January|...|Dec)[a-z]*\s+\d{1,2},?\s+\d{4}\b/gi] *)
Definition re_written_dates : rx :=
  seqs [Bound; alts (map (lit true) month_words); star lower_i; plus space;
        rng 1 2 digit; opt (Chr (Re.chr ",")); plus space; rng 4 4 digit; Bound].

(** [(?:,\d{3})*] *)
Definition thousands : rx := star (seqs [Chr (Re.chr ","); rng 3 3 digit]).

(** [/\$\d{1,3}(?:,\d{3})*(?:\.\d{2})?/g] *)
Definition re_dollar_amounts : rx :=
  seqs [Chr (Re.chr "$"); rng 1 3 digit; thousands;
        opt (seqs [Chr (Re.chr "."); rng 2 2 digit])].

(** [/\b\d{1,3}(?:,\d{3})*\.\d{2}\b/g] *)
Definition re_decimal_amounts : rx :=
  seqs [Bound; rng 1 3 digit; thousands; Chr (Re.chr "."); rng 2 2 digit; Bound].

Definition street_words : list string :=
  ["Street"; "St"; "Avenue"; "Ave"; "Road"; "Rd"; "Drive"; "Dr"; "Lane"; "Ln";
   "Boulevard"; "Blvd"; "Circle"; "Cir"; "Court"; "Ct"].

(** [/\b\d+\s+[A-Z][a-z]+(?:\s+[A-Z][a-z]+)*\s+(?:Street|...|Ct)\b/gi] *)
Definition re_street_addresses : rx :=
  seqs [Bound; plus digit; plus space; upper_i; plus lower_i;
        star (seqs [plus space; upper_i; plus lower_i]); plus space;
        alts (map (lit true) street_words); Bound].

(** [/\b\d{5}(?:-\d{4})?\b/g] *)
Definition re_zip_codes : rx :=
  seqs [Bound; rng 5 5 digit; opt (seqs [Chr (Re.chr "-"); rng 4 4 digit]); Bound].

(** [[-.\s]?] *)
Definition phone_sep : rx := opt (Chr (either (any_of "-.") is_space)).

(** [/\b(?:\(\d{3}\)\s*|\d{3}[-.\s]?)\d{3}[-.\s]?\d{4}\b/g] *)
Definition re_phone_numbers : rx :=
  seqs [Bound;
        alts [seqs [Chr (Re.chr "("); rng 3 3 digit; Chr (Re.chr ")"); star space];
              seqs [rng 3 3 digit; phone_sep]];
        rng 3 3 digit; phone_sep; rng 4 4 digit; Bound].

(** [/\b[A-Za-z0-9._%+-]+@[A-Za-z0-9.-]+\.[A-Z|a-z]{2,}\b/g] *)
Definition re_email_addresses : rx :=
  seqs [Bound;
        plus (Chr (either is_letter (either is_digit (any_of "._%+-"))));
        Chr (Re.chr "@");
        plus (Chr (either is_letter (either is_digit (any_of ".-"))));
        Chr (Re.chr ".");
        at_least 2 (Chr (either is_letter (Re.chr "|")));
        Bound].

Definition rule (n : string) (r : rx) (d : string) (ty : ValueType) (prio : Z)
    (v : option (string -> bool)) : PatternRule.t :=
  {| PatternRule.name := n; PatternRule.regex := regexp true r;
     PatternRule.description := d; PatternRule.type := ty;
     PatternRule.priority := of_Z prio; PatternRule.validator := v |}.

Definition PATTERN_RULES : list PatternRule.t :=
  [ rule "labeled_account_numbers" re_labeled_account_numbers
      "Account numbers with labels" account 10 (Some valid_labeled_account);
    rule "alphanumeric_codes" re_alphanumeric_codes
      "Alphanumeric account codes (e.g., FBNWSTX123456)" account 8 (Some valid_alphanumeric);
    rule "numeric_accounts" re_numeric_accounts
      "Long numeric sequences (potential account numbers)" account 6 (Some valid_numeric);
    rule "labeled_customer_names" re_labeled_customer_names
      "Customer names with labels" name 10 (Some isValidName);
    rule "couple_names" re_couple_names
      "Couple names (John & Mary Smith)" name 9 (Some isValidName);
    rule "formal_names" re_formal_names
      "Formal names (First Last or First Middle Last)" name 7 (Some valid_formal_name);
    rule "all_caps_names" re_all_caps_names
      "ALL CAPS names" name 6 (Some valid_formal_name);
    rule "slash_dates" (re_dates "/") "MM/DD/YYYY format dates" date 8 (Some isValidDate);
    rule "dash_dates" (re_dates "-") "MM-DD-YYYY format dates" date 8 (Some isValidDate);
    rule "written_dates" re_written_dates "Written dates (January 15, 2024)" date 9 None;
    rule "dollar_amounts" re_dollar_amounts "Dollar amounts with $ symbol" currency 9 None;
    rule "decimal_amounts" re_decimal_amounts
      "Decimal amounts (123.45)" currency 7 (Some valid_decimal);
    rule "street_addresses" re_street_addresses "Street addresses" address 8 None;
    rule "zip_codes" re_zip_codes "ZIP codes" address 7 (Some valid_zip);
    rule "phone_numbers" re_phone_numbers "Phone numbers" phone 8 None;
    rule "email_addresses" re_email_addresses "Email addresses" email 9 None ].

End Builtins.

(** The decimal value of a string of digits. *)
Definition digit_value (c : ascii) : Z := Z.of_nat (code c - 48).

Fixpoint digits_value_from (acc : Z) (s : string) : Z :=
  match s with
  | EmptyString => acc
  | String c t => digits_value_from (10 * acc + digit_value c)%Z t
  end.

Definition digits_value (s : string) : Z := digits_value_from 0 s.

(** [ToNumber] reads a string of digits as its decimal value. *)
Definition reads_digits (ToNumber : string -> number) : Prop :=
  forall s, Synthesis.all_chars is_digit s = true -> ToNumber s = of_Z (digits_value s).

End Catalog.

(** *** Notions for the statements about the rules *)

Module CatalogSpec.
Import JsString Detection DetectionSpec.

(** The entry that a rule contributes to the result: its name with the
    matches that survive, duplicates removed and sorted; none when no
    match survives. *)
Definition entry_of (fuel : nat) (text : string) (rule : PatternRule.t)
  : option (string * list PatternMatch.t) :=
  match survivors fuel text rule with
  | Some (m :: ms) =>
      Some (PatternRule.name rule, sort_by_confidence (removeDuplicates (m :: ms)))
  | _ => None
  end.

Definition entries (fuel : nat) (text : string) (rules : list PatternRule.t) : Results :=
  omap (entry_of fuel text) rules.

(** The prefixes of the last pattern of [isCommonNumber]. *)
Definition phone_prefixes : list string :=
  ["555"; "800"; "888"; "877"; "866"; "855"; "844"; "833"; "822"].

(** [1 <= n <= 12], and so on, on the decimal values. *)
Definition in_Z_range (lo hi n : Z) : bool := ((lo <=? n) && (n <=? hi))%Z.

End CatalogSpec.

(* ===================================================================== *)
(** ** PatternDiscoveryTool.tsx: discoverPatterns and generateSuggestions
       of the first tool *)
(* ===================================================================== *)

Module Discovery.
Import JsString Number Rx.

(** [text.matchAll(re)] for a pattern with the [g] flag: the match arrays
    from left to right.  The search for the next match starts where the
    last one ended, one character further on after an empty match.  Every
    step moves the start index on and no search starts after the end of
    the text, so [length text + 2] units of fuel are never used up. *)
Fixpoint matchAll_from (fuel : nat) (r : rx) (text : string) (lastIndex : nat)
  : list RegExp.MatchArray :=
  match fuel with
  | O => []
  | S fuel' =>
      match search r text lastIndex with
      | None => []
      | Some (i, z) =>
          match_array text (i, z)
          :: matchAll_from fuel' r text (if pos z =? i then S (pos z) else pos z)
      end
  end.

Definition matchAll (r : rx) (text : string) : list RegExp.MatchArray :=
  matchAll_from (String.length text + 2) r text 0.

(** [[...new Set(values)]]: first occurrences, in order; [match[1]] is
    [undefined] when the group took no part in the match. *)
Fixpoint unique_from (seen : gset (option string)) (l : list (option string))
  : list (option string) :=
  match l with
  | [] => []
  | x :: rest =>
      if decide (x ∈ seen) then unique_from seen rest
      else x :: unique_from ({[x]} ∪ seen) rest
  end.

Definition unique (l : list (option string)) : list (option string) := unique_from ∅ l.

Record DiscoveredPattern := {
  type : string;
  pattern : string;
  examples : list (option string);
  confidence : number;
  description : string;
  validated : bool
}.

Definition space : rx := Chr is_space.
Definition digit : rx := Chr is_digit.
(** [[:\s]+] *)
Definition colons : rx := plus (Chr (either (Re.chr ":") is_space)).
(** [(?:nbr|number|#)] under the [i] flag *)
Definition number_word : rx := alts [lit true "nbr"; lit true "number"; lit true "#"].
(** [([A-Z0-9]+)] under the [i] flag *)
Definition code_group : rx := Group (plus (Chr (ci (either is_upper is_digit)))).
(** [[A-Z][a-z]+] under the [i] flag *)
Definition word_i : list rx := [Chr (ci is_upper); plus (Chr (ci is_lower))].
(** [([A-Z][a-z]+(?:\s+[A-Z][a-z]+)+)] under the [i] flag *)
Definition names_group : rx :=
  Group (seqs (word_i ++ [plus (seqs (plus space :: word_i))])).
(** [\d{1,2}\/\d{1,2}\/\d{4}] *)
Definition slash_date : list rx :=
  [rng 1 2 digit; Chr (Re.chr "/"); rng 1 2 digit; Chr (Re.chr "/"); rng 4 4 digit].
(** The group of [\d+\.?\d*] *)
Definition amount_group : rx :=
  Group (seqs [plus digit; opt (Chr (Re.chr ".")); star digit]).

(** [/account\s*(?:nbr|number|#)[:\s]+([A-Z0-9]+)/gi] *)
Definition re_account_label : rx :=
  seqs [lit true "account"; star space; number_word; colons; code_group].

(** [/(?:acct|acc)\s*(?:nbr|number|#)[:\s]+([A-Z0-9]+)/gi] *)
Definition re_acct_label : rx :=
  seqs [alts [lit true "acct"; lit true "acc"]; star space; number_word; colons; code_group].

(** [/(?:^|\s)([A-Z]{2,}[0-9]{3,})/g] *)
Definition re_account_code : rx :=
  seqs [alts [Bol; space]; Group (seqs [at_least 2 (Chr is_upper); at_least 3 digit])].

(** [/customer\s*name[:\s]+(...)/gi], [/bill\s*to[:\s]+(...)/gi] and
    [/name[:\s]+(...)/gi] with the group of names *)
Definition re_customer_name : rx :=
  seqs [lit true "customer"; star space; lit true "name"; colons; names_group].
Definition re_bill_to : rx :=
  seqs [lit true "bill"; star space; lit true "to"; colons; names_group].
Definition re_name : rx := seqs [lit true "name"; colons; names_group].

(** [/(?:date|due)[:\s]+(\d{1,2}\/\d{1,2}\/\d{4})/gi] *)
Definition re_date_label : rx :=
  seqs [alts [lit true "date"; lit true "due"]; colons; Group (seqs slash_date)].

(** [/(\d{1,2}\/\d{1,2}\/\d{4})/g] *)
Definition re_date : rx := Group (seqs slash_date).

(** [/(?:amount|total|balance)[:\s]+\$?(G)/gi], [G] being [\d+\.?\d*] *)
Definition re_amount_label : rx :=
  seqs [alts [lit true "amount"; lit true "total"; lit true "balance"]; colons;
        opt (Chr (Re.chr "$")); amount_group].

(** [/\$(G)/g], [G] being [\d+\.?\d*] *)
Definition re_dollar : rx := seqs [Chr (Re.chr "$"); amount_group].

Definition accountMatches (text : string) : list RegExp.MatchArray :=
  matchAll re_account_label text ++ matchAll re_acct_label text ++
  matchAll re_account_code text.

Definition nameMatches (text : string) : list RegExp.MatchArray :=
  matchAll re_customer_name text ++ matchAll re_bill_to text ++ matchAll re_name text.

Definition dateMatches (text : string) : list RegExp.MatchArray :=
  matchAll re_date_label text ++ matchAll re_date text.

Definition amountMatches (text : string) : list RegExp.MatchArray :=
  matchAll re_amount_label text ++ matchAll re_dollar text.

(** [[...new Set(matches.map(match => match[1]))].slice(0, 5)] *)
Definition examples_of (matches : list RegExp.MatchArray) : list (option string) :=
  firstn 5 (unique (map RegExp.group1 matches)).

(** The [if (matches.length > 0) { patterns.push({...}) }] of one kind. *)
Definition push_if_found (patterns : list DiscoveredPattern)
    (matches : list RegExp.MatchArray) (ty pat : string) (conf : number) (desc : string)
  : list DiscoveredPattern :=
  match matches with
  | [] => patterns
  | _ =>
      patterns ++ [{| type := ty; pattern := pat; examples := examples_of matches;
                      confidence := conf; description := desc; validated := false |}]
  end.

(** [(a, b) => b.confidence - a.confidence] is positive: [a] goes after [b]. *)
Definition goes_after (a b : DiscoveredPattern) : bool :=
  ltb zero (sub (confidence b) (confidence a)).

Fixpoint insert_sorted (x : DiscoveredPattern) (l : list DiscoveredPattern)
  : list DiscoveredPattern :=
  match l with
  | [] => [x]
  | y :: rest => if goes_after x y then y :: insert_sorted x rest else x :: l
  end.

(** [Array.prototype.sort] is stable: insertion from the right. *)
Definition sort (l : list DiscoveredPattern) : list DiscoveredPattern :=
  foldr insert_sorted [] l.

Definition lit_0_9 : number := Eval vm_compute in decimal 9 10.
Definition lit_0_85 : number := Eval vm_compute in decimal 85 100.
Definition lit_0_8 : number := Eval vm_compute in decimal 8 10.
Definition lit_0_75 : number := Eval vm_compute in decimal 75 100.

(** The list before [patterns.sort(...)]. *)
Definition found_patterns (text : string) : list DiscoveredPattern :=
  let patterns := [] in
  let patterns :=
    push_if_found patterns (accountMatches text) "account"
      "account\s*(?:nbr|number|#)[:\s]+([A-Z0-9]+)" lit_0_9 "Account number pattern" in
  let patterns :=
    push_if_found patterns (nameMatches text) "name"
      "customer\s*name[:\s]+([A-Z][a-z]+(?:\s+[A-Z][a-z]+)+)" lit_0_85
      "Customer name pattern" in
  let patterns :=
    push_if_found patterns (dateMatches text) "date"
      "(?:date|due)[:\s]+(\d{1,2}\/\d{1,2}\/\d{4})" lit_0_8 "Date pattern" in
  let patterns :=
    push_if_found patterns (amountMatches text) "amount"
      "(?:amount|total|balance)[:\s]+\$?(\d+\.?\d*)" lit_0_75 "Amount pattern" in
  patterns.

Definition discoverPatterns (text : string) : list DiscoveredPattern :=
  sort (found_patterns text).

(** [patterns.some(p => p.type === ty)] *)
Definition some_type (ty : string) (patterns : list DiscoveredPattern) : bool :=
  existsb (fun p => String.eqb (type p) ty) patterns.

Definition generateSuggestions (patterns : list DiscoveredPattern) : list string :=
  let suggestions := [] in
  let suggestions :=
    if some_type "account" patterns
    then suggestions ++
         ["Account number patterns detected - these can be used for PDF splitting"]
    else suggestions in
  let suggestions :=
    if some_type "name" patterns
    then suggestions ++ ["Customer name patterns found - useful for file naming"]
    else suggestions in
  let suggestions :=
    if List.length patterns =? 0
    then suggestions ++
         ["No clear patterns detected. Try a different document or adjust the analysis"]
    else suggestions in
  suggestions.

(** The four kinds of pattern with the matches looked for, in the order
    of the function. *)
Definition searched (text : string) : list (string * list RegExp.MatchArray) :=
  [("account", accountMatches text); ("name", nameMatches text);
   ("date", dateMatches text); ("amount", amountMatches text)].

Definition found {A : Type} (matches : list A) : bool :=
  match matches with [] => false | _ => true end.

(** No pattern of the list goes after its successor. *)
Fixpoint descending (l : list DiscoveredPattern) : bool :=
  match l with
  | x :: ((y :: _) as rest) => negb (goes_after x y) && descending rest
  | _ => true
  end.

(** An example that is a text of at least one character. *)
Definition captured (e : option string) : Prop :=
  exists w, e = Some w /\ w <> EmptyString.

End Discovery.

(* ===================================================================== *)
(** ** PatternDiscoveryTool.tsx: togglePatternSelection *)
(* ===================================================================== *)

Module Selection.

(** A [Set<number>]: its elements in the order of insertion, each once. *)
Definition JsSet : Type := list nat.

Definition has (s : JsSet) (x : nat) : bool := existsb (Nat.eqb x) s.

(** [s.delete(x)] *)
Definition delete (s : JsSet) (x : nat) : JsSet := List.filter (fun y => negb (y =? x)) s.

(** [s.add(x)]: a new element goes to the end. *)
Definition add (s : JsSet) (x : nat) : JsSet := if has s x then s else s ++ [x].

(** The set passed to [setSelectedPatterns]. *)
Definition togglePatternSelection (selectedPatterns : JsSet) (index : nat) : JsSet :=
  let newSelected := selectedPatterns in          (* new Set(selectedPatterns) *)
  if has newSelected index then delete newSelected index else add newSelected index.

End Selection.

(* ===================================================================== *)
(** ** EmailSendingComponent.tsx and ZipUploadComponent.tsx:
       cleanCustomerName *)
(* ===================================================================== *)

Module CleanName.
Import JsString Rx.

(** The text between and after the matches, [by] in place of each match;
    [from] is the end of the last match. *)
Fixpoint replace_matches (text by_ : string) (from : nat) (ms : list RegExp.MatchArray)
  : string :=
  match ms with
  | [] => drop from text
  | mo :: rest =>
      slice text from (RegExp.index mo) +:+ by_ +:+
      replace_matches text by_ (RegExp.index mo + String.length (RegExp.whole mo)) rest
  end.

(** [text.replace(re, by)] for a pattern with the [g] flag and a
    replacement text without [$]. *)
Definition replace (r : rx) (by_ text : string) : string :=
  replace_matches text by_ 0 (Discovery.matchAll r text).

Definition digit : rx := Chr is_digit.

(** [/\d{1,2}[\/\-]\d{1,2}[\/\-]?\d{0,4}/g] *)
Definition re_date_loose : list Re.atom :=
  [Re.rep is_digit 1 2; Re.one Filename.is_date_sep; Re.rep is_digit 1 2;
   Re.opt Filename.is_date_sep; Re.rep is_digit 0 4].

(** [/\d{4}/g] *)
Definition re_year : list Re.atom := [Re.rep is_digit 4 4].

Definition month_names : list string :=
  ["january"; "february"; "march"; "april"; "may"; "june"; "july"; "august";
   "september"; "october"; "november"; "december"].

Definition month_short : list string :=
  ["jan"; "feb"; "mar"; "apr"; "may"; "jun"; "jul"; "aug"; "sep"; "oct"; "nov"; "dec"].

(** [/\b(january|...|december)\d{0,4}\b/gi] and
    [/\b(jan|...|dec)\d{0,4}\b/gi] *)
Definition re_month (names : list string) : rx :=
  seqs [Bound; Group (alts (map (lit true) names)); rng 0 4 digit; Bound].

Definition cleanCustomerName (name : string) : string :=
  let s := Re.replace_all re_date_loose "" name in
  let s := Re.replace_all Filename.re_date_ymd "" s in
  let s := Re.replace_all Filename.re_date_md "" s in
  let s := Re.replace_all re_year "" s in
  let s := replace (re_month month_names) "" s in
  let s := replace (re_month month_short) "" s in
  let s := Re.replace_all Filename.re_separators " " s in
  or_else (trim s) "Customer".

(** Every separator of the text is one space that a character other than
    a separator follows, or that ends the text. *)
Fixpoint spaced (s : string) : bool :=
  match s with
  | EmptyString => true
  | String a t =>
      (if Filename.is_separator a
       then Ascii.eqb a " " &&
            match t with
            | String b _ => negb (Filename.is_separator b)
            | EmptyString => true
            end
       else true) && spaced t
  end.

End CleanName.

(* ===================================================================== *)
(** ** The words of the specification

    The definitions of this part follow the specification and not the
    sources; the theorems compare them with the embedded code. *)
(* ===================================================================== *)

Module SpecWords.
Import JsString Number Detection.

(** *** Case and surrounding white space *)

(** A capital letter: A-Z and the capitals of the Latin-1 block. *)
Definition is_capital (c : ascii) : bool :=
  in_range 65 90 c || (in_range 192 222 c && negb (code c =? 215)).

(** The same character, or the two cases of one letter. *)
Definition same_letter (a b : ascii) : bool :=
  Ascii.eqb a b ||
  (is_capital a && (code b =? code a + 32)) ||
  (is_capital b && (code a =? code b + 32)).

(** Two texts that are equal up to case. *)
Fixpoint same_text (a b : string) : bool :=
  match a, b with
  | EmptyString, EmptyString => true
  | String x a', String y b' => same_letter x y && same_text a' b'
  | _, _ => false
  end.

(** [core] is [s] without the white space around it. *)
Definition stripped (s core : string) : Prop :=
  exists l r,
    s = l +:+ core +:+ r /\
    Synthesis.all_chars is_space l = true /\
    Synthesis.all_chars is_space r = true /\
    (core = EmptyString \/ (starts_solid core = true /\ ends_solid core = true)).

(** The join key: two account numbers are the same when they are equal
    up to case once the white space around them is taken away. *)
Definition same_account (a b : string) : Prop :=
  exists ca cb, stripped a ca /\ stripped b cb /\ same_text ca cb = true.

(** *** Confidence scoring *)

Definition label_vocabulary : list string :=
  ["name"; "account"; "number"; "customer"; "bill"; "to"; "holder"].

(** [context] holds [word], in any case. *)
Definition mentions (context word : string) : Prop :=
  exists pre w post, context = pre +:+ w +:+ post /\ same_text w word = true.

Definition has_label_word (context : string) : Prop :=
  exists word, In word label_vocabulary /\ mentions context word.

(** The context window: 50 characters before and after the match span,
    clipped to the text. *)
Definition window (text : string) (position span : nat) : string :=
  let first := position - 50 in
  let last := Nat.min (String.length text) (position + span + 50) in
  take (last - first) (drop first text).

(** The strict shape: capital letters, then digits, at least one of each
    and nothing else. *)
Definition capitals_then_digits (value : string) : Prop :=
  exists l d,
    value = l +:+ d /\ l <> EmptyString /\ d <> EmptyString /\
    Synthesis.all_chars is_upper l = true /\ Synthesis.all_chars is_digit d = true.

Definition outside_3_50 (value : string) : Prop :=
  String.length value < 3 \/ 50 < String.length value.

(** [confidence] is the score of a candidate [value] found by a rule of
    the given priority and type in the given context window. *)
Definition scored (priority : number) (type : ValueType) (value context : string)
    (confidence : number) : Prop :=
  exists label shape out : bool,
    (label = true <-> has_label_word context) /\
    (shape = true <-> (type = account /\ capitals_then_digits value)) /\
    (out = true <-> outside_3_50 value) /\
    confidence = spec_confidence priority label shape out.

(** *** Ranking by confidence *)

(** No match of the list has less confidence than a later one. *)
Definition descending (ms : list PatternMatch.t) : Prop :=
  StronglySorted
    (fun x y => ltb (PatternMatch.confidence x) (PatternMatch.confidence y) = false) ms.

(** The same number, bit for bit. *)
Definition same_number (x y : number) : bool :=
  match x, y with
  | S754_zero a, S754_zero b => Bool.eqb a b
  | S754_infinity a, S754_infinity b => Bool.eqb a b
  | S754_nan, S754_nan => true
  | S754_finite a m e, S754_finite b m' e' =>
      Bool.eqb a b && Pos.eqb m m' && Z.eqb e e'
  | _, _ => false
  end.

(** The matches of [ms] that have the confidence [c], in their order. *)
Definition with_confidence (c : number) (ms : list PatternMatch.t) : list PatternMatch.t :=
  List.filter (fun m => same_number (PatternMatch.confidence m) c) ms.

(** Matches of equal confidence stand in [ranked] as they stand in [src]. *)
Definition ties_keep_order (ranked src : list PatternMatch.t) : Prop :=
  forall c, with_confidence c ranked = with_confidence c src.

(** A priority on the scale of the catalogue: an integer from 0 to 10. *)
Definition on_scale (rule : PatternRule.t) : Prop :=
  exists p : Z, (0 <= p <= 10)%Z /\ PatternRule.priority rule = of_Z p.

End SpecWords.

(* ===================================================================== *)
(** ** Two documents for the concrete runs *)
(* ===================================================================== *)

Module Scenario.
Import JsString Number Detection.

(** [/ref\s+([A-Z]+\d+)/g]: an account rule of priority 8 whose match is
    longer than the value it captures. *)
Definition reference_rule : PatternRule.t :=
  {| PatternRule.name := "references";
     PatternRule.regex :=
       Rx.regexp true
         (Rx.seqs [Rx.lit false "ref"; Rx.plus (Rx.Chr is_space);
                   Rx.Group (Rx.seqs [Rx.plus (Rx.Chr is_upper); Rx.plus (Rx.Chr is_digit)])]);
     PatternRule.description := "Reference codes";
     PatternRule.type := account;
     PatternRule.priority := of_Z 8;
     PatternRule.validator := None |}.

(** The only label word, [bill], starts 58 characters after the start of
    the match: more than 50 characters after the end of the value
    [AB1234] would be if it stood at the start of the match, and less than
    50 after the end of the match, which is 15 characters long. *)
Definition reference_text : string :=
  "ref      AB1234...........................................bill".

(** What [detectPatterns] is to push for it: 0.5 + 0.24 + 0.2 + 0.1,
    clamped to 1. *)
Definition reference_match : PatternMatch.t :=
  {| PatternMatch.value := "AB1234";
     PatternMatch.position := 0;
     PatternMatch.confidence := of_Z 1;
     PatternMatch.context := reference_text |}.

(** Four codes: the first stands far from every label word, the others
    follow the word [account], and the last repeats the second. *)
Definition ranking_text : string :=
  "AB1234..........................................................account CD5678 EF9012 CD5678".

(** What the loop is to push for [ranking_text], in the order of the
    text: 0.84 for the first code, 1.0 for the three labelled ones. *)
Definition ranking_found : list PatternMatch.t :=
  [ {| PatternMatch.value := "AB1234";
       PatternMatch.position := 0;
       PatternMatch.confidence := decimal 84 100;
       PatternMatch.context :=
         "AB1234.................................................." |};
    {| PatternMatch.value := "CD5678";
       PatternMatch.position := 72;
       PatternMatch.confidence := of_Z 1;
       PatternMatch.context :=
         "..........................................account CD5678 EF9012 CD5678" |};
    {| PatternMatch.value := "EF9012";
       PatternMatch.position := 79;
       PatternMatch.confidence := of_Z 1;
       PatternMatch.context :=
         "...................................account CD5678 EF9012 CD5678" |};
    {| PatternMatch.value := "CD5678";
       PatternMatch.position := 86;
       PatternMatch.confidence := of_Z 1;
       PatternMatch.context :=
         "............................account CD5678 EF9012 CD5678" |} ].

(** The entry for [ranking_text]: the repeated code is dropped, the two
    labelled codes come first, in their order in the text, and the first
    code of the text comes last. *)
Definition ranking_entry : list PatternMatch.t :=
  [ {| PatternMatch.value := "CD5678";
       PatternMatch.position := 72;
       PatternMatch.confidence := of_Z 1;
       PatternMatch.context :=
         "..........................................account CD5678 EF9012 CD5678" |};
    {| PatternMatch.value := "EF9012";
       PatternMatch.position := 79;
       PatternMatch.confidence := of_Z 1;
       PatternMatch.context :=
         "...................................account CD5678 EF9012 CD5678" |};
    {| PatternMatch.value := "AB1234";
       PatternMatch.position := 0;
       PatternMatch.confidence := decimal 84 100;
       PatternMatch.context :=
         "AB1234.................................................." |} ].

End Scenario.

(* ===================================================================== *)
(** * Properties *)
(* ===================================================================== *)

(** ** Strings *)

Section StringFacts.
Import JsString.

Lemma is_empty_true (s : string) : is_empty s = true <-> s = "".
Proof. destruct s; simpl; split; congruence. Qed.

Lemma is_empty_false (s : string) : is_empty s = false <-> s <> "".
Proof. destruct s; simpl; split; congruence. Qed.

Lemma or_else_nonempty (a b : string) : b <> "" -> or_else a b <> "".
Proof.
  intros Hb. unfold or_else. destruct (is_empty a) eqn:E; [exact Hb|].
  now apply is_empty_false.
Qed.

Lemma or_else_empty (b : string) : or_else "" b = b.
Proof. reflexivity. Qed.

Lemma or_else_keep (a b : string) : a <> "" -> or_else a b = a.
Proof. intros Ha. unfold or_else. apply is_empty_false in Ha. now rewrite Ha. Qed.

Lemma toLowerCase_length (s : string) :
  String.length (toLowerCase s) = String.length s.
Proof. induction s as [|c t IH]; simpl; congruence. Qed.

Lemma toLowerCase_nonempty (s : string) : s <> "" -> toLowerCase s <> "".
Proof. destruct s; simpl; congruence. Qed.

Lemma lower_char_space (c : ascii) : is_space (lower_char c) = is_space c.
Proof. destruct c as [[] [] [] [] [] [] [] []]; vm_compute; reflexivity. Qed.

Lemma toLowerCase_trimStart (s : string) :
  toLowerCase (trimStart s) = trimStart (toLowerCase s).
Proof.
  induction s as [|c t IH]; simpl; [reflexivity|].
  rewrite lower_char_space. destruct (is_space c); [exact IH|reflexivity].
Qed.

Lemma toLowerCase_trimEnd (s : string) :
  toLowerCase (trimEnd s) = trimEnd (toLowerCase s).
Proof.
  induction s as [|c t IH]; simpl; [reflexivity|].
  rewrite <- IH, lower_char_space.
  destruct (trimEnd t); simpl; [destruct (is_space c)|]; reflexivity.
Qed.

Lemma toLowerCase_trim (s : string) : toLowerCase (trim s) = trim (toLowerCase s).
Proof. unfold trim. now rewrite toLowerCase_trimEnd, toLowerCase_trimStart. Qed.

Lemma includes_empty (w : string) : includes w "" = starts_with w "".
Proof. unfold includes. simpl. destruct (starts_with w ""); reflexivity. Qed.

Lemma includes_cons (w : string) (c : ascii) (t : string) :
  includes w (String c t) = starts_with w (String c t) || includes w t.
Proof.
  unfold includes. simpl indexOf.
  destruct (starts_with w (String c t)); [reflexivity|].
  destruct (indexOf w t); reflexivity.
Qed.

Lemma includes_trimStart (w s : string) :
  starts_solid w = true -> includes w (trimStart s) = includes w s.
Proof.
  intros Hw. induction s as [|c t IH]; simpl; [reflexivity|].
  destruct (is_space c) eqn:Hc; [|reflexivity].
  rewrite IH, includes_cons.
  destruct w as [|a w']; [discriminate|]. simpl in *.
  destruct (Ascii.eqb a c) eqn:E; [|reflexivity].
  apply Ascii.eqb_eq in E. subst a. rewrite Hc in Hw. discriminate.
Qed.

Lemma starts_with_trimEnd (s : string) : forall w,
  ends_solid w = true -> starts_with w (trimEnd s) = starts_with w s.
Proof.
  induction s as [|c t IH]; intros w Hw; [reflexivity|].
  destruct w as [|a w']; [discriminate|].
  destruct w' as [|b w''].
  - simpl in Hw. simpl.
    destruct (trimEnd t); simpl; [|now rewrite !andb_true_r].
    destruct (is_space c) eqn:Hc; simpl; [|now rewrite !andb_true_r].
    rewrite andb_true_r. symmetry.
    destruct (Ascii.eqb a c) eqn:E; [|reflexivity].
    apply Ascii.eqb_eq in E. subst a. rewrite Hc in Hw. discriminate.
  - assert (ends_solid (String b w'') = true) as Hw' by exact Hw.
    specialize (IH _ Hw').
    change (starts_with (String a (String b w'')) (String c t))
      with (Ascii.eqb a c && starts_with (String b w'') t).
    rewrite <- IH. simpl trimEnd.
    destruct (trimEnd t) as [|c' r]; [|reflexivity].
    rewrite andb_false_r.
    destruct (is_space c); simpl; [reflexivity|apply andb_false_r].
Qed.

Lemma includes_trimEnd_step (w : string) (c : ascii) (t : string) :
  includes w (trimEnd (String c t))
  = starts_with w (trimEnd (String c t)) || includes w (trimEnd t).
Proof.
  simpl trimEnd. destruct (trimEnd t) as [|c' r].
  - destruct (is_space c).
    + rewrite includes_empty. now destruct (starts_with w "").
    + now rewrite includes_cons.
  - now rewrite includes_cons.
Qed.

Lemma includes_trimEnd (w s : string) :
  ends_solid w = true -> includes w (trimEnd s) = includes w s.
Proof.
  intros Hw. induction s as [|c t IH]; [reflexivity|].
  rewrite includes_trimEnd_step, includes_cons, IH.
  now rewrite starts_with_trimEnd.
Qed.

Lemma includes_trim (w s : string) :
  starts_solid w = true -> ends_solid w = true ->
  includes w (trim s) = includes w s.
Proof.
  intros H1 H2. unfold trim. now rewrite includes_trimEnd, includes_trimStart.
Qed.

End StringFacts.

(** ** The matcher on the patterns of the sources *)

Section MatcherChecks.
Import JsString Re.

(** The letter class gives characters back until two are left for the
    second class. *)
Example account_shape_backtracks :
  match_text Filename.re_account_search "ABCD" = Some "ABCD" /\
  match_text Filename.re_account_search "id AB12 x" = Some "AB12" /\
  match_text Filename.re_account_search "FBNWSTX123456_John" = Some "FBNWSTX123456" /\
  match_text Filename.re_account_search "abc 123" = None.
Proof. vm_compute. auto. Qed.

Example numeric_dates_removed :
  replace_all Filename.re_date_mdy "" "due 12/25/2023 now" = "due  now" /\
  replace_all Filename.re_date_md "" "12/25 and 1-2" = " and " /\
  replace_all Filename.re_separators " " "a__b - c" = "a b c".
Proof. vm_compute. auto. Qed.

Example validateEmail_checks :
  Csv.validateEmail "john.smith@email.com" = true /\
  Csv.validateEmail "a.b@c.d.e" = true /\
  Csv.validateEmail "a@b" = false /\
  Csv.validateEmail "a b@c.d" = false /\
  Csv.validateEmail "" = false.
Proof. vm_compute. auto. Qed.

Example string_checks :
  split "_" "a__b_" = ["a"; ""; "b"; ""] /\
  trim "  a b  " = "a b" /\
  toLowerCase "ABC123 " = "abc123 " /\
  replace_first ".pdf" "" "x.pdf.pdf" = "x.pdf" /\
  substring 5 2 "abcdefgh" = "cde" /\
  of_nat 0 = "0" /\ of_nat 56 = "56".
Proof. vm_compute. auto 10. Qed.

End MatcherChecks.

(** ** parseFilename *)

Section FilenameFacts.
Import JsString Filename.

(** C2. For every filename, empty, made of punctuation or without any
    delimiter included, [parseFilename] returns a non-empty account number
    and a non-empty customer name: each field is what the strategies
    yield, or the sentinel ["Unknown"] when they yield the empty string. *)
Theorem parseFilename_total_nonempty (filename : string) :
  let r := parseFilename filename in
  let yielded := strategies (nameWithoutExt filename) in
  accountNumber r <> "" /\ customerName r <> "" /\
  accountNumber r = or_else (fst yielded) "Unknown" /\
  customerName r = or_else (snd yielded) "Unknown".
Proof.
  unfold parseFilename. cbv zeta.
  destruct (strategies (nameWithoutExt filename)) as [acc cust].
  cbn [fst snd accountNumber customerName].
  repeat split.
  - apply or_else_nonempty. discriminate.
  - apply or_else_nonempty. discriminate.
Qed.

(** The three kinds of input that the claim names. *)
Example parseFilename_empty :
  parseFilename "" = {| accountNumber := "Unknown"; customerName := "Unknown" |}.
Proof. vm_compute. reflexivity. Qed.

Example parseFilename_punctuation :
  parseFilename "___" = {| accountNumber := "Unknown"; customerName := "Unknown" |}.
Proof. vm_compute. reflexivity. Qed.

Example parseFilename_no_delimiter :
  parseFilename "12345678.pdf" = {| accountNumber := "12345678"; customerName := "Unknown" |}.
Proof. vm_compute. reflexivity. Qed.

(** C6. On ["FBNWSTX123456_John Smith_May 2025.pdf"] the first strategy
    takes the account number and only removes numeric dates from the rest:
    the customer name keeps the month and the year. *)
Theorem parseFilename_month_year_kept :
  parseFilename "FBNWSTX123456_John Smith_May 2025.pdf"
  = {| accountNumber := "FBNWSTX123456"; customerName := "John Smith May 2025" |}.
Proof. vm_compute. reflexivity. Qed.

(** The second strategy, had it been reached, separates the name from the
    date on that input. *)
Example underscore_strategy_on_month_year :
  let parts := split "_" "FBNWSTX123456_John Smith_May 2025" in
  Re.test re_account_strict (part parts 0) = true /\
  part parts 0 = "FBNWSTX123456" /\ part parts 1 = "John Smith".
Proof. vm_compute. auto. Qed.

End FilenameFacts.

(** ** performMatching *)

Section MatchingFacts.
Import JsString Matching Sample.

Implicit Types (st : Store) (pdfs : list PDFFile.t) (cs : list CustomerData.t).
Implicit Types (m : gmap string CustomerData.t) (c : CustomerData.t) (k : string).

Lemma add_customers_store st cs :
  foldl add_customer st cs
  = {| pdfFiles := pdfFiles st; customerData := customerData st;
       customerMap := foldl insert_customer (customerMap st) cs;
       matches := matches st |}.
Proof.
  revert st. induction cs as [|c cs IH]; intros st; simpl.
  - now destruct st.
  - rewrite IH. reflexivity.
Qed.

Lemma push_matches_store st pdfs :
  foldl push_match st pdfs
  = {| pdfFiles := pdfFiles st; customerData := customerData st;
       customerMap := customerMap st;
       matches := matches st ++ map (match_pdf (customerMap st)) pdfs |}.
Proof.
  revert st. induction pdfs as [|p pdfs IH]; intros st; simpl.
  - rewrite app_nil_r. now destruct st.
  - rewrite IH. simpl. now rewrite <- app_assoc.
Qed.

Lemma customer_lookup_fold cs :
  customer_lookup cs = foldl insert_customer ∅ cs.
Proof. unfold customer_lookup. now rewrite add_customers_store. Qed.

Lemma run_store pdfs cs :
  run (init pdfs cs)
  = {| pdfFiles := pdfs; customerData := cs;
       customerMap := customer_lookup cs;
       matches := map (match_pdf (customer_lookup cs)) pdfs |}.
Proof.
  unfold run. rewrite add_customers_store. simpl.
  rewrite push_matches_store. simpl. now rewrite customer_lookup_fold.
Qed.

Lemma performMatching_map pdfs cs :
  performMatching pdfs cs = map (match_pdf (customer_lookup cs)) pdfs.
Proof. unfold performMatching. now rewrite run_store. Qed.

Lemma customer_lookup_snoc cs c :
  customer_lookup (cs ++ [c]) = insert_customer (customer_lookup cs) c.
Proof. rewrite !customer_lookup_fold. now rewrite foldl_app. Qed.

(** The lookup at a key is the last customer of the list with that key. *)
Lemma fold_insert_lookup_none cs m k :
  Forall (fun c => key_of c <> k) cs ->
  foldl insert_customer m cs !! k = m !! k.
Proof.
  revert m. induction cs as [|c cs IH]; intros m H; simpl; [reflexivity|].
  inversion H as [|? ? Hc Hcs]; subst.
  rewrite IH by assumption. unfold insert_customer.
  now rewrite lookup_insert_ne.
Qed.

Lemma customer_lookup_last l1 c l2 :
  Forall (fun c' => key_of c' <> key_of c) l2 ->
  customer_lookup (l1 ++ c :: l2) !! key_of c = Some c.
Proof.
  intros H. rewrite customer_lookup_fold, foldl_app. simpl.
  rewrite fold_insert_lookup_none by assumption.
  unfold insert_customer. apply lookup_insert_eq.
Qed.

Lemma fold_insert_lookup_some cs m k c :
  foldl insert_customer m cs !! k = Some c ->
  m !! k = Some c \/ (In c cs /\ key_of c = k).
Proof.
  revert m. induction cs as [|c' cs IH]; intros m H; simpl in *; [now left|].
  apply IH in H as [H|[H1 H2]].
  - unfold insert_customer in H.
    destruct (decide (key_of c' = k)) as [E|E].
    + subst k. rewrite lookup_insert_eq in H. injection H as ->. right. auto.
    + rewrite lookup_insert_ne in H by assumption. now left.
  - right. auto.
Qed.

Lemma customer_lookup_some cs k c :
  customer_lookup cs !! k = Some c -> In c cs /\ key_of c = k.
Proof.
  rewrite customer_lookup_fold. intros H.
  apply fold_insert_lookup_some in H as [H|H]; [|exact H].
  rewrite lookup_empty in H. discriminate.
Qed.

Lemma fold_insert_dom cs m :
  dom (foldl insert_customer m cs) = dom m ∪ list_to_set (map key_of cs).
Proof.
  revert m. induction cs as [|c cs IH]; intros m; cbn [foldl map].
  - now rewrite list_to_set_nil, (right_id_L ∅ (∪)).
  - rewrite IH. unfold insert_customer. rewrite dom_insert_L, list_to_set_cons.
    rewrite (comm_L (∪) {[key_of c]} (dom m)). now rewrite (assoc_L (∪)).
Qed.

Lemma customer_lookup_dom cs : dom (customer_lookup cs) = customer_keys cs.
Proof.
  rewrite customer_lookup_fold, fold_insert_dom. unfold customer_keys.
  rewrite dom_empty_L. now rewrite (left_id_L ∅ (∪)).
Qed.

Lemma match_pdf_pdf m p : MatchedData.pdf (match_pdf m p) = p.
Proof. reflexivity. Qed.

Lemma match_pdf_matched m p :
  MatchedData.matched (match_pdf m p) = true
  <-> is_Some (m !! normalize (PDFFile.accountNumber p)).
Proof.
  unfold match_pdf. simpl.
  destruct (m !! normalize (PDFFile.accountNumber p)); simpl; split; intros H;
    try reflexivity; try discriminate; eauto.
  destruct H as [? H]. discriminate.
Qed.

Lemma matched_count_le (ms : list MatchedData.t) : matched_count ms <= List.length ms.
Proof. unfold matched_count. apply filter_length_le. Qed.

Lemma matched_keys_subset pdfs cs :
  matched_keys (performMatching pdfs cs) ⊆ customer_keys cs.
Proof.
  rewrite performMatching_map, <- customer_lookup_dom. unfold matched_keys.
  induction pdfs as [|p pdfs IH]; [apply empty_subseteq|].
  cbn [map List.filter].
  destruct (MatchedData.matched (match_pdf (customer_lookup cs) p)) eqn:E.
  - cbn [map]. rewrite match_pdf_pdf.
    apply match_pdf_matched in E.
    assert (normalize (PDFFile.accountNumber p) ∈ dom (customer_lookup cs)) as Hk
      by (apply elem_of_dom; exact E).
    rewrite list_to_set_cons. apply union_subseteq. split; [|exact IH].
    now apply singleton_subseteq_l.
  - exact IH.
Qed.

Lemma matched_flags pdfs cs :
  map MatchedData.matched (performMatching pdfs cs)
  = map (fun p => bool_decide (normalize (PDFFile.accountNumber p) ∈ customer_keys cs)) pdfs.
Proof.
  rewrite performMatching_map, map_map. apply map_ext. intros p.
  rewrite <- customer_lookup_dom. unfold match_pdf. simpl.
  destruct (customer_lookup cs !! normalize (PDFFile.accountNumber p)) eqn:E.
  - symmetry. apply bool_decide_eq_true. apply elem_of_dom. eauto.
  - symmetry. apply bool_decide_eq_false. now apply not_elem_of_dom.
Qed.

Lemma sample_keys : customer_keys [sample_customer] = {[ "abc123" ]}.
Proof.
  unfold customer_keys. cbn [map].
  rewrite list_to_set_cons, list_to_set_nil, (right_id_L ∅ (∪)).
  f_equal.
Qed.

(** C1, as stated, fails: two segments of one account both match the one
    customer record, so two entries are matched while the customer list
    has one distinct key. *)
Lemma matched_count_exceeds_customer_keys :
  let pdfs := [sample_pdf "may.pdf" "ABC123"; sample_pdf "june.pdf" "abc123 "] in
  ~ (matched_count (performMatching pdfs [sample_customer])
     <= size (customer_keys [sample_customer])).
Proof.
  cbv zeta. rewrite sample_keys, size_singleton.
  assert (matched_count
            (performMatching [sample_pdf "may.pdf" "ABC123"; sample_pdf "june.pdf" "abc123 "]
               [sample_customer]) = 2) as ->; [|lia].
  unfold matched_count. rewrite <- (length_map MatchedData.matched).
  rewrite performMatching_map. simpl.
  unfold match_pdf. simpl.
  replace (normalize "ABC123") with "abc123" by (vm_compute; reflexivity).
  replace (normalize "abc123 ") with "abc123" by (vm_compute; reflexivity).
  rewrite customer_lookup_fold. simpl. unfold insert_customer, key_of. simpl.
  replace (normalize "ABC123") with "abc123" by (vm_compute; reflexivity).
  rewrite lookup_insert_eq. reflexivity.
Qed.

(** C1, amended. [performMatching] returns one record for each segment; the
    record of a segment is matched exactly when the segment's account
    number, lowercased and trimmed, is a key of the customer lookup; the
    matched entries are at most as many as the segments, and their
    distinct normalized account keys are at most as many as the distinct
    normalized customer keys. *)
Theorem performMatching_complete pdfs cs :
  List.length (performMatching pdfs cs) = List.length pdfs /\
  map MatchedData.matched (performMatching pdfs cs)
    = map (fun p => bool_decide (normalize (PDFFile.accountNumber p) ∈ customer_keys cs)) pdfs /\
  dom (customer_lookup cs) = customer_keys cs /\
  matched_count (performMatching pdfs cs) <= List.length pdfs /\
  size (matched_keys (performMatching pdfs cs)) <= size (customer_keys cs).
Proof.
  split; [|split; [|split; [|split]]].
  - rewrite performMatching_map. apply length_map.
  - apply matched_flags.
  - apply customer_lookup_dom.
  - etransitivity; [apply matched_count_le|].
    rewrite performMatching_map, length_map. reflexivity.
  - apply subseteq_size, matched_keys_subset.
Qed.


(** C8. When several customer records normalize to one account key, the
    last of them in the input list is the one paired with every segment
    whose normalized account number is that key; the segment is matched
    and the result is an ordinary list of records, with no error value. *)
Theorem last_customer_wins pdfs l1 c l2 (i : nat) (p : PDFFile.t) :
  Forall (fun c' => key_of c' <> key_of c) l2 ->
  pdfs !! i = Some p ->
  normalize (PDFFile.accountNumber p) = key_of c ->
  performMatching pdfs (l1 ++ c :: l2) !! i
  = Some {| MatchedData.pdf := p; MatchedData.customer := c; MatchedData.matched := true |}.
Proof.
  intros Hlast Hp Hkey. rewrite performMatching_map.
  change (map ?f ?l) with (f <$> l).
  rewrite list_lookup_fmap, Hp. simpl. f_equal.
  unfold match_pdf. rewrite Hkey, customer_lookup_last by assumption. reflexivity.
Qed.

Lemma last_customer_wins_witness :
  performMatching [sample_pdf "may.pdf" "ABC123"] ([] ++ sample_customer :: [sample_duplicate]) !! 0
  <> None /\
  performMatching [sample_pdf "may.pdf" "ABC123"] ([sample_customer] ++ sample_duplicate :: []) !! 0
  = Some {| MatchedData.pdf := sample_pdf "may.pdf" "ABC123";
            MatchedData.customer := sample_duplicate; MatchedData.matched := true |}.
Proof.
  split.
  - rewrite performMatching_map. discriminate.
  - apply (last_customer_wins [sample_pdf "may.pdf" "ABC123"] [sample_customer]
             sample_duplicate [] 0 (sample_pdf "may.pdf" "ABC123")).
    + constructor.
    + reflexivity.
    + vm_compute. reflexivity.
Defined.

(** C10. The i-th record of the result carries the i-th segment as its
    [pdf] field, unchanged in every field, and the run leaves both input
    lists as they were. *)
Theorem performMatching_frame pdfs cs :
  pdfFiles (run (init pdfs cs)) = pdfs /\
  customerData (run (init pdfs cs)) = cs /\
  List.length (performMatching pdfs cs) = List.length pdfs /\
  forall i : nat, MatchedData.pdf <$> (performMatching pdfs cs !! i) = pdfs !! i.
Proof.
  rewrite run_store. simpl. split; [reflexivity|]. split; [reflexivity|].
  rewrite performMatching_map. split; [apply length_map|].
  intros i. change (map ?f ?l) with (f <$> l).
  rewrite list_lookup_fmap. destruct (pdfs !! i); reflexivity.
Qed.

End MatchingFacts.

(** The scenarios of the specification: a case and white space variant of
    the account number matches, an unknown account gets the placeholder. *)
Example reconcile_scenarios :
  map (fun r => (MatchedData.matched r, CustomerData.email (MatchedData.customer r)))
      (Matching.performMatching
         [Sample.sample_pdf "a.pdf" "abc123 "; Sample.sample_pdf "z.pdf" "ZZZ999"]
         [Sample.sample_customer])
  = [(true, "a@x.com"); (false, "")].
Proof.
  rewrite performMatching_map. simpl. unfold Matching.match_pdf. simpl.
  replace (Matching.normalize "abc123 ") with "abc123" by (vm_compute; reflexivity).
  replace (Matching.normalize "ZZZ999") with "zzz999" by (vm_compute; reflexivity).
  rewrite customer_lookup_fold. simpl.
  unfold Matching.insert_customer, Matching.key_of. simpl.
  replace (Matching.normalize "ABC123") with "abc123" by (vm_compute; reflexivity).
  rewrite lookup_insert_eq, lookup_insert_ne by discriminate.
  rewrite lookup_empty. reflexivity.
Qed.

(** [stats.matched + stats.unmatched = stats.total] *)
Lemma match_stats_total (ms : list MatchedData.t) :
  Matching.matched_count ms + Matching.unmatched_count ms = List.length ms.
Proof.
  unfold Matching.matched_count, Matching.unmatched_count.
  induction ms as [|m ms IH]; simpl; [reflexivity|].
  destruct (MatchedData.matched m); simpl; lia.
Qed.

(** ** CSV rows: every imported customer has an email *)

Section CsvFacts.
Import JsString Csv.

Lemma parseRow_email index row c :
  parseRow index row = inr c -> CustomerData.email c <> "".
Proof.
  unfold parseRow.
  destruct (is_empty (trim (row_accountNumber row))); [discriminate|].
  destruct (is_empty (trim (row_email row))) eqn:E; [discriminate|].
  destruct (negb (validateEmail (trim (row_email row)))); [discriminate|].
  destruct (is_empty (trim (row_customerName row))); [discriminate|].
  intros H. injection H as <-. simpl.
  apply toLowerCase_nonempty. now apply is_empty_false.
Qed.

Lemma parseRows_emails index rows :
  Forall (fun c => CustomerData.email c <> "") (fst (parseRows index rows)).
Proof.
  revert index. induction rows as [|row rows IH]; intros index; simpl.
  - constructor.
  - specialize (IH (S index)).
    destruct (parseRows (S index) rows) as [customers errors]. simpl in IH.
    destruct (parseRow index row) as [msg|c] eqn:E; simpl; [exact IH|].
    constructor; [|exact IH]. eapply parseRow_email, E.
Qed.

Lemma parsedCustomers_emails rows :
  Forall (fun c => CustomerData.email c <> "") (parsedCustomers rows).
Proof. apply parseRows_emails. Qed.

End CsvFacts.

(** ** Numbers: rounding never yields NaN, and the clamp *)

Section NumberFacts.
Import Number.
Local Open Scope Z_scope.

Lemma shr_1_nonneg mrs : 0 <= shr_m mrs -> 0 <= shr_m (shr_1 mrs).
Proof. destruct mrs as [[|[p|p|]|p] r s]; simpl; lia. Qed.

Lemma iter_shr_1_nonneg p mrs :
  0 <= shr_m mrs -> 0 <= shr_m (SpecFloat.iter_pos shr_1 p mrs).
Proof.
  revert mrs. induction p as [p IH|p IH|]; intros mrs H; simpl.
  - apply IH, IH, shr_1_nonneg, H.
  - apply IH, IH, H.
  - apply shr_1_nonneg, H.
Qed.

Lemma shr_nonneg mrs e n : 0 <= shr_m mrs -> 0 <= shr_m (fst (shr mrs e n)).
Proof.
  intros H. unfold shr. destruct n; simpl; auto using iter_shr_1_nonneg.
Qed.

Lemma shr_record_of_loc_m m l : shr_m (shr_record_of_loc m l) = m.
Proof. destruct l as [|[]]; reflexivity. Qed.

Lemma shr_fexp_nonneg p x m e l :
  0 <= m -> 0 <= shr_m (fst (shr_fexp p x m e l)).
Proof.
  intros H. unfold shr_fexp. apply shr_nonneg. now rewrite shr_record_of_loc_m.
Qed.

Lemma round_nearest_even_nonneg m l : 0 <= m -> 0 <= round_nearest_even m l.
Proof.
  intros H. unfold round_nearest_even.
  destruct l as [|[]]; try destruct (Z.even m); lia.
Qed.

Lemma binary_round_aux_not_nan p x s m e l :
  0 <= m -> binary_round_aux p x s m e l <> S754_nan.
Proof.
  intros H. unfold binary_round_aux.
  pose proof (shr_fexp_nonneg p x m e l H) as H1.
  destruct (shr_fexp p x m e l) as [mrs' e']. simpl in H1.
  pose proof (shr_fexp_nonneg p x _ e' loc_Exact
                (round_nearest_even_nonneg _ (loc_of_shr_record mrs') H1)) as H2.
  destruct (shr_fexp p x (round_nearest_even (shr_m mrs') (loc_of_shr_record mrs')) e' loc_Exact)
    as [mrs'' e'']. simpl in H2.
  destruct (shr_m mrs'') as [|q|q]; try discriminate; [|lia].
  destruct (e'' <=? x - p); discriminate.
Qed.

Lemma binary_normalize_not_nan p x m e sz : binary_normalize p x m e sz <> S754_nan.
Proof.
  unfold binary_normalize, binary_round. destruct m as [|q|q]; [discriminate| |].
  - destruct (shl_align q e _). apply binary_round_aux_not_nan. lia.
  - destruct (shl_align q e _). apply binary_round_aux_not_nan. lia.
Qed.

Lemma add_finite_not_nan (x : number) s m e :
  is_nan x = false -> is_nan (add x (S754_finite s m e)) = false.
Proof.
  intros H. destruct x as [sx|sx| |sx mx ex]; try discriminate; try reflexivity.
  unfold add, SFadd.
  destruct (binary_normalize _ _ _ _ _) eqn:E; try reflexivity.
  now apply binary_normalize_not_nan in E.
Qed.

Lemma sub_finite_not_nan (x : number) s m e :
  is_nan x = false -> is_nan (sub x (S754_finite s m e)) = false.
Proof.
  intros H. destruct x as [sx|sx| |sx mx ex]; try discriminate; try reflexivity.
  unfold sub, SFsub.
  destruct (binary_normalize _ _ _ _ _) eqn:E; try reflexivity.
  now apply binary_normalize_not_nan in E.
Qed.

Lemma mul_finite_not_nan (x : number) s m e :
  is_nan x = false -> is_nan (mul x (S754_finite s m e)) = false.
Proof.
  intros H. destruct x as [sx|sx| |sx mx ex]; try discriminate; try reflexivity.
  unfold mul, SFmul.
  destruct (binary_round_aux _ _ _ _ _ _) eqn:E; try reflexivity.
  apply binary_round_aux_not_nan in E; [contradiction|lia].
Qed.

Lemma div_core_nonneg p x m1 e1 m2 e2 :
  0 <= fst (fst (SFdiv_core_binary p x (Z.pos m1) e1 (Z.pos m2) e2)).
Proof.
  unfold SFdiv_core_binary. cbv zeta.
  match goal with |- context [Z.div_eucl ?a ?b] =>
    assert (0 <= a) as Ha; [|pose proof (Z.div_pos a b Ha ltac:(lia)) as Hq;
                              unfold Z.div in Hq; destruct (Z.div_eucl a b)] end.
  - destruct (e1 - e2 - _); try lia. apply Z.shiftl_nonneg. lia.
  - simpl. exact Hq.
Qed.

Lemma div_finite_not_nan (x : number) s m e :
  is_nan x = false -> is_nan (div x (S754_finite s m e)) = false.
Proof.
  intros H. destruct x as [sx|sx| |sx mx ex]; try discriminate; try reflexivity.
  unfold div, SFdiv.
  pose proof (div_core_nonneg prec emax mx ex m e) as Hq.
  destruct (SFdiv_core_binary prec emax (Z.pos mx) ex (Z.pos m) e) as [[mz ez] lz].
  simpl in Hq.
  destruct (binary_round_aux _ _ _ _ _ _) eqn:E; try reflexivity.
  now apply binary_round_aux_not_nan in E.
Qed.

(** Comparison read from the other side. *)
Lemma SFcompare_antisym (x y : number) :
  SFcompare y x = option_map CompOpp (SFcompare x y).
Proof.
  destruct x as [sx|sx| |sx mx ex], y as [sy|sy| |sy my ey]; simpl;
    try reflexivity;
    try (destruct sx; reflexivity); try (destruct sy; reflexivity);
    try (destruct sx, sy; reflexivity).
  destruct sx, sy; simpl; try reflexivity; f_equal;
    rewrite (Z.compare_antisym ex ey);
    destruct (ex ?= ey); simpl; try reflexivity;
    pose proof (Pos.compare_cont_antisym mx my Eq) as Hp; simpl in Hp;
    rewrite <- Hp; reflexivity.
Qed.

(** [Math.max(0, Math.min(1, c))] lies between 0 and 1 unless [c] is NaN. *)
Lemma clamp_bounds (c : number) :
  is_nan c = false ->
  leb zero (Math_max zero (Math_min one c)) = true /\
  leb (Math_max zero (Math_min one c)) one = true.
Proof.
  intros Hc. unfold Math_min.
  pose proof (SFcompare_antisym one c) as Hanti.
  destruct (SFcompare one c) as [[| |]|] eqn:E1.
  - (* 1 = c *) vm_compute. auto.
  - (* 1 < c *) vm_compute. auto.
  - (* c < 1 *)
    simpl in Hanti. unfold Math_max.
    pose proof (SFcompare_antisym zero c) as Hanti0.
    destruct (SFcompare zero c) as [[| |]|] eqn:E0.
    + destruct c as [[]|[]| |[] mc ec]; simpl in E0; try discriminate;
        vm_compute; auto.
    + unfold leb, SFleb. rewrite E0, Hanti. auto.
    + vm_compute. auto.
    + destruct c as [[]|[]| |[] mc ec]; simpl in E0; discriminate.
  - destruct c as [[]|[]| |[] mc ec]; simpl in E1; discriminate.
Qed.

Lemma clamp_nan (c : number) :
  is_nan c = true -> is_nan (Math_max zero (Math_min one c)) = true.
Proof. destruct c; try discriminate. reflexivity. Qed.

End NumberFacts.

(** ** detectPatterns *)

Section DetectionFacts.
Import JsString Number Detection Sample.

Implicit Types (rule : PatternRule.t) (text : string) (results : Results).
Implicit Types (ms : list PatternMatch.t) (m : PatternMatch.t).

(** The code's confidence is the specification's formula. *)
Lemma calculateConfidence_spec value context rule :
  calculateConfidence value context rule
  = spec_confidence (PatternRule.priority rule) (hasLabel context)
      (is_account (PatternRule.type rule) && Re.test re_letters_digits value)
      (bad_length value).
Proof. reflexivity. Qed.

Lemma lit_finite :
  (exists s q e, lit_0_5 = S754_finite s q e) /\
  (exists s q e, lit_0_3 = S754_finite s q e) /\
  (exists s q e, lit_0_2 = S754_finite s q e) /\
  (exists s q e, lit_0_1 = S754_finite s q e) /\
  (exists s q e, ten = S754_finite s q e).
Proof. repeat split; do 3 eexists; reflexivity. Qed.

Lemma spec_confidence_bounds (priority : number) (label shape out : bool) :
  is_nan priority = false ->
  leb zero (spec_confidence priority label shape out) = true /\
  leb (spec_confidence priority label shape out) one = true.
Proof.
  intros Hp. unfold spec_confidence. cbv zeta. apply clamp_bounds.
  assert (is_nan (add lit_0_5 (mul (div priority ten) lit_0_3)) = false) as H1.
  { assert (is_nan (mul (div priority ten) lit_0_3) = false) as Hm
      by (apply mul_finite_not_nan, div_finite_not_nan, Hp).
    destruct (mul (div priority ten) lit_0_3) as [s|s| |s m e] eqn:E;
      try discriminate; try reflexivity.
    unfold add, SFadd, lit_0_5.
    destruct (binary_normalize _ _ _ _ _) eqn:E'; try reflexivity.
    now apply binary_normalize_not_nan in E'. }
  assert (forall x (b : bool), is_nan x = false ->
            is_nan (if b then add x lit_0_2 else x) = false) as H2
    by (intros x [] Hx; [apply add_finite_not_nan|]; exact Hx).
  assert (forall x (b : bool), is_nan x = false ->
            is_nan (if b then add x lit_0_1 else x) = false) as H3
    by (intros x [] Hx; [apply add_finite_not_nan|]; exact Hx).
  assert (forall x (b : bool), is_nan x = false ->
            is_nan (if b then sub x lit_0_2 else x) = false) as H4
    by (intros x [] Hx; [apply sub_finite_not_nan|]; exact Hx).
  apply H4, H3, H2, H1.
Qed.

(** No label word starts or ends with white space, so trimming the
    context does not change whether it holds one. *)
Lemma hasLabel_trim (context : string) : hasLabel (trim context) = hasLabel context.
Proof.
  unfold hasLabel. rewrite toLowerCase_trim.
  assert (Forall (fun word => starts_solid (toLowerCase word) = true /\
                              ends_solid (toLowerCase word) = true) labelWords) as Hwords
    by (repeat constructor).
  induction Hwords as [|word rest [H1 H2] _ IH]; [reflexivity|].
  simpl. now rewrite IH, includes_trim.
Qed.

(** *** What the loop pushes *)

Lemma exec_loop_made fuel text rule : forall lastIndex ms res,
  Forall (made_by text rule) ms ->
  exec_loop fuel text rule lastIndex ms = Some res ->
  Forall (made_by text rule) res.
Proof.
  induction fuel as [|fuel IH]; intros lastIndex ms res Hms H; simpl in H; [discriminate|].
  destruct (RegExp.exec (PatternRule.regex rule) lastIndex text) as [[mo|] li].
  - destruct (rejected rule (RegExp.value_of mo)); [eapply IH; eauto|].
    assert (Forall (made_by text rule) (ms ++ [make_match text rule mo])) as Hms'.
    { apply Forall_app. split; [exact Hms|]. constructor; [|constructor]. now exists mo. }
    destruct (negb (RegExp.global (PatternRule.regex rule))).
    + now injection H as <-.
    + eapply IH; eauto.
  - now injection H as <-.
Qed.

Lemma removeDuplicates_from_Forall (P : PatternMatch.t -> Prop) ms :
  forall seen, Forall P ms -> Forall P (removeDuplicates_from seen ms).
Proof.
  induction ms as [|m ms IH]; intros seen H; simpl; [constructor|].
  inversion H; subst.
  destruct (decide (toLowerCase (PatternMatch.value m) ∈ seen)); auto.
Qed.

Lemma insert_by_confidence_Forall (P : PatternMatch.t -> Prop) m ms :
  P m -> Forall P ms -> Forall P (insert_by_confidence m ms).
Proof.
  intros Hm. induction ms as [|y ms IH]; intros H; simpl.
  - auto.
  - inversion H; subst. destruct (goes_after m y); auto.
Qed.

Lemma sort_by_confidence_Forall (P : PatternMatch.t -> Prop) ms :
  Forall P ms -> Forall P (sort_by_confidence ms).
Proof.
  unfold sort_by_confidence. induction 1; simpl; [constructor|].
  now apply insert_by_confidence_Forall.
Qed.

Lemma map_set_In results key v k w :
  In (k, w) (map_set results key v) ->
  In (k, w) results \/ (k = key /\ w = v).
Proof.
  induction results as [|[k' w'] results IH]; simpl.
  - intros [H|[]]. injection H as <- <-. auto.
  - destruct (String.eqb k' key) eqn:E; simpl.
    + intros [H|H]; [|auto]. injection H as <- <-.
      apply String.eqb_eq in E. auto.
    + intros [H|H]; [auto|]. apply IH in H as [H|H]; auto.
Qed.

Lemma apply_rule_made fuel text (rules : list PatternRule.t) results rule results' :
  In rule rules ->
  entries_made text rules results ->
  apply_rule fuel text results rule = Some results' ->
  entries_made text rules results'.
Proof.
  intros Hin Hinv H. unfold apply_rule in H.
  destruct (exec_loop fuel text rule 0 []) as [found|] eqn:E; [|discriminate].
  apply exec_loop_made in E; [|constructor].
  destruct found as [|m0 found]; injection H as <-; [exact Hinv|].
  intros k ms Hk. apply map_set_In in Hk as [Hk|[-> ->]]; [now apply Hinv|].
  exists rule. repeat split; try assumption.
  now apply sort_by_confidence_Forall, removeDuplicates_from_Forall.
Qed.

Lemma detect_rules_made fuel text (all : list PatternRule.t) :
  forall rules results results',
  incl rules all ->
  entries_made text all results ->
  detect_rules fuel text rules results = Some results' ->
  entries_made text all results'.
Proof.
  induction rules as [|rule rules IH]; intros results results' Hincl Hinv H; simpl in H.
  - now injection H as <-.
  - destruct (apply_rule fuel text results rule) as [r1|] eqn:E; [|discriminate].
    eapply IH; [| |exact H].
    + intros x Hx. apply Hincl. now right.
    + eapply apply_rule_made; [|exact Hinv|exact E]. apply Hincl. now left.
Qed.


(** The scenario of the specification: priority 10, a label in the
    context and the account shape give a confidence of 1. *)
Example confidence_labelled_account :
  spec_confidence (of_Z 10) true true false = one.
Proof. vm_compute. reflexivity. Qed.

(** *** The matching loop *)

Lemma exec_nonglobal (r : RegExp.t) lastIndex text :
  RegExp.global r = false ->
  RegExp.exec r lastIndex text = (RegExp.match_from r text 0, lastIndex).
Proof.
  intros Hg. unfold RegExp.exec. rewrite Hg. simpl.
  destruct (RegExp.match_from r text 0); reflexivity.
Qed.

(** A pattern without the [g] flag whose first match the validator
    rejects: [continue] skips the [break], and [exec] finds the same
    match again. *)
Lemma exec_loop_nonglobal_rejected text rule mo :
  RegExp.global (PatternRule.regex rule) = false ->
  RegExp.match_from (PatternRule.regex rule) text 0 = Some mo ->
  rejected rule (RegExp.value_of mo) = true ->
  forall fuel lastIndex ms, exec_loop fuel text rule lastIndex ms = None.
Proof.
  intros Hg Hm Hrej. induction fuel as [|fuel IH]; intros lastIndex ms; simpl.
  - reflexivity.
  - rewrite exec_nonglobal, Hm, Hrej by assumption. apply IH.
Qed.

(** A pattern with the [g] flag that matches the empty string at the
    current [lastIndex]: [exec] leaves [lastIndex] where it was. *)
Lemma exec_loop_zero_width text rule mo lastIndex :
  RegExp.global (PatternRule.regex rule) = true ->
  lastIndex <= String.length text ->
  RegExp.match_from (PatternRule.regex rule) text lastIndex = Some mo ->
  RegExp.index mo = lastIndex ->
  RegExp.whole mo = "" ->
  forall fuel ms, exec_loop fuel text rule lastIndex ms = None.
Proof.
  intros Hg Hlen Hm Hidx Hw.
  assert (RegExp.exec (PatternRule.regex rule) lastIndex text = (Some mo, lastIndex)) as He.
  { unfold RegExp.exec. rewrite Hg.
    assert ((String.length text <? lastIndex) = false) as -> by (apply Nat.ltb_ge; lia).
    rewrite Hm, Hidx, Hw. simpl. f_equal. lia. }
  induction fuel as [|fuel IH]; intros ms; simpl; [reflexivity|].
  rewrite He, Hg. simpl.
  destruct (rejected rule (RegExp.value_of mo)); apply IH.
Qed.

(** When every match of a [g] pattern ends after the index at which the
    search started, the loop is left after at most [length text + 2]
    evaluations of its condition. *)
Lemma exec_loop_advancing text rule :
  RegExp.global (PatternRule.regex rule) = true ->
  (forall i mo, RegExp.match_from (PatternRule.regex rule) text i = Some mo ->
                i < RegExp.index mo + String.length (RegExp.whole mo)) ->
  forall fuel lastIndex ms,
    S (String.length text + 1 - lastIndex) <= fuel ->
    exists res, exec_loop fuel text rule lastIndex ms = Some res.
Proof.
  intros Hg Hadv. induction fuel as [|fuel IH]; intros lastIndex ms Hfuel; [lia|].
  simpl. unfold RegExp.exec. rewrite Hg.
  destruct (String.length text <? lastIndex) eqn:Hlt; [eauto|].
  apply Nat.ltb_ge in Hlt.
  destruct (RegExp.match_from (PatternRule.regex rule) text lastIndex) as [mo|] eqn:Hm;
    [|eauto].
  apply Hadv in Hm. simpl.
  destruct (rejected rule (RegExp.value_of mo)); apply IH; lia.
Qed.

(** A pattern without the [g] flag whose match is accepted, or which does
    not match, is applied once. *)
Lemma exec_loop_nonglobal_once text rule fuel lastIndex ms :
  RegExp.global (PatternRule.regex rule) = false ->
  match RegExp.match_from (PatternRule.regex rule) text 0 with
  | Some mo =>
      rejected rule (RegExp.value_of mo) = false ->
      exec_loop (S fuel) text rule lastIndex ms = Some (ms ++ [make_match text rule mo])
  | None => exec_loop (S fuel) text rule lastIndex ms = Some ms
  end.
Proof.
  intros Hg. simpl. rewrite exec_nonglobal by assumption.
  destruct (RegExp.match_from (PatternRule.regex rule) text 0) as [mo|]; [|reflexivity].
  intros ->. now rewrite Hg.
Qed.

(** C5. On the text ["ID AB7"] and the one rule [/[A-Z0-9]+/] without
    the [g] flag and with a length validator, the matching loop is never
    left: whatever the number of evaluations of the loop condition that
    is allowed, [detectPatterns] has not returned. *)
Theorem detectPatterns_rejected_match_loops :
  forall fuel, detectPatterns fuel "ID AB7" [short_code_rule] = None.
Proof.
  intros fuel. unfold detectPatterns. simpl. unfold apply_rule.
  rewrite (exec_loop_nonglobal_rejected "ID AB7" short_code_rule
             {| RegExp.index := 0; RegExp.whole := "ID"; RegExp.group1 := None |});
    reflexivity.
Qed.

(** The same for a pattern with the [g] flag that matches the empty
    string: [/\d*/g] on ["abc"]. *)
Lemma detectPatterns_zero_width_loops :
  forall fuel, detectPatterns fuel "abc" [digits_star_rule] = None.
Proof.
  intros fuel. unfold detectPatterns. simpl. unfold apply_rule.
  rewrite (exec_loop_zero_width "abc" digits_star_rule
             {| RegExp.index := 0; RegExp.whole := ""; RegExp.group1 := None |});
    try reflexivity.
  simpl. lia.
Qed.

End DetectionFacts.

(** ** generateRegexPattern *)

Section SynthesisFacts.
Import JsString Synthesis.

Lemma letter_not_digit (c : ascii) : is_letter c = true -> is_digit c = false.
Proof. destruct c as [[] [] [] [] [] [] [] []]; vm_compute; congruence. Qed.

Lemma digit_not_letter (c : ascii) : is_digit c = true -> is_letter c = false.
Proof. destruct c as [[] [] [] [] [] [] [] []]; vm_compute; congruence. Qed.

Lemma append_cons (c : ascii) (l d : string) : String c l +:+ d = String c (l +:+ d).
Proof. reflexivity. Qed.

Lemma append_empty (d : string) : "" +:+ d = d.
Proof. reflexivity. Qed.

Lemma count_chars_app (p : ascii -> bool) (l d : string) :
  count_chars p (l +:+ d) = count_chars p l + count_chars p d.
Proof.
  induction l as [|c l IH]; [reflexivity|].
  rewrite append_cons. simpl. rewrite IH. lia.
Qed.

Lemma count_chars_all (p : ascii -> bool) (s : string) :
  all_chars p s = true -> count_chars p s = String.length s.
Proof.
  induction s as [|c s IH]; simpl; [reflexivity|].
  intros H. apply andb_prop in H as [-> H]. now rewrite IH.
Qed.

Lemma count_chars_none (p q : ascii -> bool) (s : string) :
  (forall c, q c = true -> p c = false) ->
  all_chars q s = true -> count_chars p s = 0.
Proof.
  intros Hpq. induction s as [|c s IH]; simpl; [reflexivity|].
  intros H. apply andb_prop in H as [Hc H]. now rewrite (Hpq c Hc), IH.
Qed.

Lemma longest_run_from_all (p : ascii -> bool) (l d : string) :
  all_chars p l = true ->
  forall cur, longest_run_from p cur (l +:+ d) = longest_run_from p (cur + String.length l) d.
Proof.
  induction l as [|c l IH]; intros H cur.
  - rewrite append_empty. simpl. f_equal. lia.
  - simpl in H. apply andb_prop in H as [Hc H].
    rewrite append_cons. simpl. rewrite Hc, IH by assumption. f_equal. lia.
Qed.

Lemma longest_run_from_none (p q : ascii -> bool) (s : string) :
  (forall c, q c = true -> p c = false) ->
  all_chars q s = true ->
  forall cur, longest_run_from p cur s = cur.
Proof.
  intros Hpq. induction s as [|c s IH]; intros H cur; simpl; [reflexivity|].
  simpl in H. apply andb_prop in H as [Hc H].
  rewrite (Hpq c Hc), IH by assumption. lia.
Qed.

Lemma longest_run_skip (p q : ascii -> bool) (l d : string) :
  (forall c, q c = true -> p c = false) ->
  all_chars q l = true ->
  longest_run_from p 0 (l +:+ d) = longest_run_from p 0 d.
Proof.
  intros Hpq. induction l as [|c l IH]; intros H; [reflexivity|].
  simpl in H. apply andb_prop in H as [Hc H].
  rewrite append_cons. simpl. rewrite (Hpq c Hc), IH by assumption. lia.
Qed.

Lemma longest_run_from_end (p : ascii -> bool) (s : string) :
  all_chars p s = true ->
  forall cur, longest_run_from p cur s = cur + String.length s.
Proof.
  induction s as [|c s IH]; intros H cur; simpl; [lia|].
  simpl in H. apply andb_prop in H as [-> H]. rewrite IH by assumption. lia.
Qed.

(** For one run of letters followed by one run of digits, the counts of
    the code are the run lengths. *)
Lemma counts_are_runs (s : string) :
  letters_then_digits s ->
  count_chars is_letter s = longest_run is_letter s /\
  count_chars is_digit s = longest_run is_digit s.
Proof.
  intros (l & d & -> & Hl & Hd). unfold longest_run. split.
  - rewrite count_chars_app, (count_chars_all _ l Hl).
    rewrite (count_chars_none is_letter is_digit d digit_not_letter Hd).
    rewrite longest_run_from_all by assumption.
    rewrite (longest_run_from_none is_letter is_digit d digit_not_letter Hd). lia.
  - rewrite count_chars_app, (count_chars_all _ d Hd).
    rewrite (count_chars_none is_digit is_letter l letter_not_digit Hl).
    rewrite (longest_run_skip is_digit is_letter l d letter_not_digit Hl).
    rewrite longest_run_from_end by assumption. lia.
Qed.

Lemma generateRegexPattern_account (examples : list string) :
  examples <> [] ->
  generateRegexPattern examples "account" = generateAccountPattern examples.
Proof. destruct examples; [congruence|reflexivity]. Qed.

(** C7, as stated, fails: in ["AB12CD"] the longest run of letters has
    length 2, and the emitted letter range is built on 4, the number of
    letters. *)
Lemma account_pattern_counts_not_runs :
  let examples := ["AB12CD"] in
  examples <> [] /\
  existsb (has_char is_letter) examples = true /\
  existsb (has_char is_digit) examples = true /\
  generateRegexPattern examples "account" = "[A-Z]{3,5}\d{1,3}" /\
  spec_account_pattern examples = "[A-Z]{1,3}\d{1,3}" /\
  generateRegexPattern examples "account" <> spec_account_pattern examples.
Proof. vm_compute. repeat split; congruence. Qed.

(** C7, amended. For a non-empty list of account examples among which a
    letter and a digit occur, [generateRegexPattern] returns
    [[A-Z]{a,b}\d{c,d}] where both ranges reach one below and one above a
    maximum over the examples, the lower bounds not below 1; the maxima
    are those of the number of letters and of the number of digits in an
    example, which are the run lengths when every example is one run of
    letters followed by one run of digits.  For ["FBNWSTX1234"] and
    ["SMNWSTX56789"] the ranges are 6..8 and 4..6 and contain the letter
    and digit lengths of both examples. *)
Theorem generateRegexPattern_account_shape (examples : list string) :
  examples <> [] ->
  existsb (has_char is_letter) examples = true ->
  existsb (has_char is_digit) examples = true ->
  generateRegexPattern examples "account"
    = shape_pattern (max_of (map (count_chars is_letter) examples))
                    (max_of (map (count_chars is_digit) examples)) /\
  (Forall letters_then_digits examples ->
     generateRegexPattern examples "account" = spec_account_pattern examples) /\
  generateRegexPattern ["FBNWSTX1234"; "SMNWSTX56789"] "account" = "[A-Z]{6,8}\d{4,6}" /\
  Forall (fun ex => 6 <= count_chars is_letter ex <= 8 /\
                    4 <= count_chars is_digit ex <= 6)
         ["FBNWSTX1234"; "SMNWSTX56789"].
Proof.
  intros Hne Hl Hd.
  assert (generateRegexPattern examples "account"
          = shape_pattern (max_of (map (count_chars is_letter) examples))
                          (max_of (map (count_chars is_digit) examples))) as Hshape.
  { rewrite generateRegexPattern_account by assumption.
    unfold generateAccountPattern. rewrite Hl, Hd. reflexivity. }
  split; [exact Hshape|]. split; [|split].
  - intros Hall. rewrite Hshape. unfold spec_account_pattern.
    assert (map (count_chars is_letter) examples = map (longest_run is_letter) examples
            /\ map (count_chars is_digit) examples = map (longest_run is_digit) examples)
      as [-> ->]; [|reflexivity].
    clear -Hall. induction Hall as [|ex rest Hex _ [IH1 IH2]]; [split; reflexivity|].
    destruct (counts_are_runs ex Hex) as [E1 E2].
    cbn [map]. rewrite E1, E2, IH1, IH2. split; reflexivity.
  - vm_compute. reflexivity.
  - repeat constructor.
Qed.

Lemma generateRegexPattern_account_shape_witness :
  generateRegexPattern ["FBNWSTX1234"; "SMNWSTX56789"] "account" = Synthesis.shape_pattern 7 5.
Proof.
  refine (proj1 (generateRegexPattern_account_shape ["FBNWSTX1234"; "SMNWSTX56789"] _ _ _)).
  - discriminate.
  - reflexivity.
  - reflexivity.
Defined.

End SynthesisFacts.

(** ** testSinglePattern *)

Section TesterFacts.
Import JsString Tester Sample.

Variable RegExp_new : string -> string -> Thrown + RegExp.t.

(** The loop stops by itself: after 51 matches at the latest. *)
Lemma tester_loop_terminates (regex : RegExp.t) text :
  forall fuel lastIndex (found : list string),
    0 < fuel -> 51 - List.length found <= fuel ->
    exists res, exec_loop fuel regex lastIndex text found = Some res.
Proof.
  induction fuel as [|fuel IH]; intros lastIndex found Hpos Hfuel; [lia|].
  simpl. destruct (RegExp.exec regex lastIndex text) as [[mo|] li]; [|eauto].
  destruct (negb (RegExp.global regex)); [eauto|].
  rewrite length_app. simpl.
  destruct (50 <? List.length found + 1) eqn:E; [eauto|].
  apply Nat.ltb_ge in E.
  apply IH; rewrite ?length_app; simpl; lia.
Qed.

Lemma testSinglePattern_returns pattern text fuel :
  51 <= fuel -> exists r, testSinglePattern RegExp_new fuel pattern text = Some r.
Proof.
  intros Hfuel. unfold testSinglePattern.
  destruct (RegExp_new pattern "gi") as [e|regex]; [eauto|].
  destruct (tester_loop_terminates regex text fuel 0 []) as [res ->]; simpl; [lia|lia|eauto].
Qed.

(** C9. When the constructor rejects the pattern, [testSinglePattern]
    returns normally: the result carries the pattern, no match, [success]
    false and the message of the error; in [testAllPatterns] that result
    stands at the place of the pattern, between the results of the
    patterns before it and after it. *)
Theorem testSinglePattern_invalid_pattern fuel pattern text (e : Thrown) :
  RegExp_new pattern "gi" = inl e ->
  let failed := {| pattern := pattern; matches := []; success := false;
                   error := Some (error_message e) |} in
  testSinglePattern RegExp_new fuel pattern text = Some failed /\
  forall before after rs1 rs2,
    testAllPatterns RegExp_new fuel before text = Some rs1 ->
    testAllPatterns RegExp_new fuel after text = Some rs2 ->
    testAllPatterns RegExp_new fuel (before ++ pattern :: after) text
    = Some (rs1 ++ failed :: rs2).
Proof.
  intros He failed.
  assert (testSinglePattern RegExp_new fuel pattern text = Some failed) as Hone
    by (unfold testSinglePattern; now rewrite He).
  split; [exact Hone|].
  induction before as [|p before IH]; intros after rs1 rs2 H1 H2; simpl in *.
  - injection H1 as <-. now rewrite Hone, H2.
  - destruct (testSinglePattern RegExp_new fuel p text) as [r|]; [|discriminate].
    destruct (testAllPatterns RegExp_new fuel before text) as [rs|]; [|discriminate].
    injection H1 as <-. now rewrite (IH after rs rs2 eq_refl H2).
Qed.

End TesterFacts.

Lemma testSinglePattern_invalid_pattern_witness :
  Tester.testSinglePattern Sample.sample_RegExp_new 51 "[A-Z" "AB1234"
  = Some {| Tester.pattern := "[A-Z"; Tester.matches := []; Tester.success := false;
            Tester.error :=
              Some "Invalid regular expression: /[A-Z/: Unterminated character class" |}.
Proof.
  refine (proj1 (testSinglePattern_invalid_pattern Sample.sample_RegExp_new 51 "[A-Z" "AB1234"
                   (Tester.ErrorObject
                      "Invalid regular expression: /[A-Z/: Unterminated character class")
                   _)).
  reflexivity.
Defined.

(** The patterns around a malformed one are still evaluated. *)
Example testAllPatterns_sample :
  option_map (map Tester.success)
    (Tester.testAllPatterns Sample.sample_RegExp_new 51 ["x"; "[A-Z"; "y"] "AB1234 CD5678")
  = Some [true; false; true].
Proof. vm_compute. reflexivity. Qed.

(* ===================================================================== *)
(** * Further properties of the sources *)
(* ===================================================================== *)

(** ** Strings and the matcher *)

Section MatcherFacts.
Import JsString Re ReSpec.

Lemma length_take (n : nat) (s : string) :
  String.length (take n s) = Nat.min n (String.length s).
Proof.
  revert s. induction n as [|n IH]; intros [|c s]; simpl; try reflexivity.
  now rewrite IH.
Qed.

Lemma length_drop (n : nat) (s : string) :
  String.length (drop n s) = String.length s - n.
Proof.
  revert s. induction n as [|n IH]; intros [|c s]; simpl; try reflexivity; try lia.
  apply IH.
Qed.

Lemma take_drop (n : nat) (s : string) : take n s +:+ drop n s = s.
Proof.
  revert s. induction n as [|n IH]; intros [|c s]; try reflexivity.
  simpl. rewrite append_cons. now rewrite IH.
Qed.

Lemma drop_drop (a b : nat) (s : string) : drop a (drop b s) = drop (b + a) s.
Proof.
  revert s. induction b as [|b IH]; intros s; [reflexivity|].
  destruct s as [|c s]; simpl; [now destruct a|]. apply IH.
Qed.

Lemma take_take (a b : nat) (s : string) : a <= b -> take a (take b s) = take a s.
Proof.
  revert b s. induction a as [|a IH]; intros b s H; [reflexivity|].
  destruct b as [|b]; [lia|]. destruct s as [|c s]; [reflexivity|].
  simpl. rewrite IH by lia. reflexivity.
Qed.

Lemma take_all (n : nat) (s : string) : String.length s <= n -> take n s = s.
Proof.
  revert s. induction n as [|n IH]; intros [|c s] H; simpl in *; try reflexivity; try lia.
  rewrite IH by lia. reflexivity.
Qed.

Lemma length_append (a b : string) :
  String.length (a +:+ b) = String.length a + String.length b.
Proof. induction a as [|c a IH]; [reflexivity|]. rewrite append_cons. simpl. now rewrite IH. Qed.

Lemma all_chars_take (p : ascii -> bool) (k : nat) (s : string) :
  Synthesis.all_chars p s = true -> Synthesis.all_chars p (take k s) = true.
Proof.
  revert s. induction k as [|k IH]; intros [|c s] H; simpl in *; try reflexivity.
  apply andb_prop in H as [-> H]. now apply IH.
Qed.

Lemma run_length_le (p : ascii -> bool) (s : string) : forall lim,
  run_length p lim s <= String.length s.
Proof.
  induction s as [|c s IH]; intros lim; simpl; [lia|].
  destruct lim as [[|l]|]; try lia; destruct (p c); try lia.
  - specialize (IH (Some l)). lia.
  - specialize (IH None). lia.
Qed.

Lemma run_length_lim (p : ascii -> bool) (s : string) : forall l,
  run_length p (Some l) s <= l.
Proof.
  induction s as [|c s IH]; intros l; simpl; [lia|].
  destruct l as [|l]; [lia|]. destruct (p c); [|lia]. specialize (IH l). lia.
Qed.

Lemma run_length_all (p : ascii -> bool) (s : string) : forall lim,
  Synthesis.all_chars p (take (run_length p lim s) s) = true.
Proof.
  induction s as [|c s IH]; intros lim; simpl; [reflexivity|].
  destruct lim as [[|l]|]; try reflexivity; destruct (p c) eqn:E; try reflexivity;
    simpl; rewrite E; apply IH.
Qed.

Lemma try_down_some (cont : nat -> option nat) (lo : nat) : forall k n,
  try_down cont lo k = Some n ->
  exists j r, lo <= j /\ j <= k /\ cont j = Some r /\ n = j + r.
Proof.
  induction k as [|k IH]; intros n H; simpl in H.
  - destruct lo; simpl in H; [|discriminate].
    destruct (cont 0) as [r|] eqn:E; [|discriminate].
    injection H as <-. exists 0, r. repeat split; auto.
  - destruct (S k <? lo) eqn:Hlt; [discriminate|]. apply Nat.ltb_ge in Hlt.
    destruct (cont (S k)) as [r|] eqn:E.
    + injection H as <-. exists (S k), r. repeat split; auto.
    + apply IH in H as (j & r & H1 & H2 & H3 & H4). exists j, r. repeat split; auto.
Qed.

(** A match consumes a prefix that is made of one run for each atom; with
    [$] it consumes the whole string. *)
Lemma match_here_sound (l : list atom) (at_end : bool) : forall s n,
  match_here l at_end s = Some n ->
  n <= String.length s /\ conforms l (take n s) /\
  (at_end = true -> n = String.length s).
Proof.
  induction l as [|a rest IH]; intros s n H; simpl in H.
  - destruct at_end.
    + destruct s as [|c s]; simpl in H; [|discriminate].
      injection H as <-. simpl. auto.
    + injection H as <-. simpl. repeat split; [lia|]. discriminate.
  - apply try_down_some in H as (j & r & Hlo & Hhi & Hr & ->).
    apply IH in Hr as (Hr1 & Hr2 & Hr3).
    pose proof (run_length_le (cls a) s (rmax a)) as Hrun.
    rewrite length_drop in Hr1.
    repeat split.
    + lia.
    + simpl. exists j. repeat split.
      * exact Hlo.
      * destruct (rmax a) as [h|] eqn:Eh; [|exact I].
        pose proof (run_length_lim (cls a) s h). lia.
      * rewrite length_take. lia.
      * rewrite take_take by lia.
        rewrite <- (take_take j (run_length (cls a) (rmax a) s)) by lia.
        apply all_chars_take, run_length_all.
      * assert (drop j (take (j + r) s) = take r (drop j s)) as ->; [|exact Hr2].
        clear. revert s. induction j as [|j IHj]; intros s; [reflexivity|].
        destruct s as [|c s]; simpl; [now destruct r|]. apply IHj.
    + intros He. specialize (Hr3 He). rewrite length_drop in Hr3. lia.
Qed.

Lemma conforms_min_length (l : list atom) : forall s,
  conforms l s -> min_length l <= String.length s.
Proof.
  induction l as [|a rest IH]; intros s H; simpl in *; [lia|].
  destruct H as (k & [Hk _] & Hlen & _ & Hrest).
  apply IH in Hrest. rewrite length_drop in Hrest. lia.
Qed.

Lemma match_here_min_length (l : list atom) (at_end : bool) (s : string) (n : nat) :
  match_here l at_end s = Some n -> min_length l <= n /\ n <= String.length s.
Proof.
  intros H. apply match_here_sound in H as (H1 & H2 & _).
  apply conforms_min_length in H2. rewrite length_take in H2. lia.
Qed.

Lemma search_from_sound (l : list atom) (at_end : bool) : forall s i n,
  search_from l at_end s = Some (i, n) ->
  i <= String.length s /\ match_here l at_end (drop i s) = Some n.
Proof.
  induction s as [|c s IH]; intros i n H; simpl in H.
  - destruct (match_here l at_end "") as [m|] eqn:E; [|discriminate].
    injection H as <- <-. simpl. auto with arith.
  - destruct (match_here l at_end (String c s)) as [m|] eqn:E.
    + injection H as <- <-. simpl. split; [lia|exact E].
    + destruct (search_from l at_end s) as [[i' n']|]; [|discriminate].
      injection H as <- <-. destruct (IH _ _ eq_refl) as [H1 H2].
      simpl. split; [lia|exact H2].
Qed.

Lemma search_sound (r : regex) (s : string) (i n : nat) :
  search r s = Some (i, n) ->
  i <= String.length s /\ match_here (atoms r) (anchor_end r) (drop i s) = Some n.
Proof.
  unfold search. destruct (anchor_start r).
  - destruct (match_here (atoms r) (anchor_end r) s) as [m|] eqn:E; [|discriminate].
    intros H. injection H as <- <-. simpl. split; [lia|exact E].
  - apply search_from_sound.
Qed.

End MatcherFacts.

(** ** detectPatterns: termination, entries, duplicates *)

Section DetectionMore.
Import JsString Number Detection DetectionSpec Sample ReSpec.

Implicit Types (rule : PatternRule.t) (text : string) (results : Results).
Implicit Types (ms : list PatternMatch.t) (m : PatternMatch.t).

(** A pattern of the fragment that needs at least one character is
    advancing in every text. *)
Lemma of_fragment_advancing (g : bool) (r : Re.regex) text :
  1 <= min_length (Re.atoms r) -> advancing text (RegExp.of_fragment g r).
Proof.
  intros Hmin i mo. unfold RegExp.of_fragment. simpl.
  destruct (Re.anchor_start r && negb (i =? 0)); [discriminate|].
  destruct (Re.search r (drop i text)) as [[j n]|] eqn:E; [|discriminate].
  intros H. injection H as <-. simpl.
  apply search_sound in E as [Hj Hm].
  apply match_here_min_length in Hm as [H1 H2].
  rewrite length_take, length_drop.
  rewrite drop_drop, length_drop in H2. lia.
Qed.

Lemma apply_rule_returns text rule results :
  RegExp.global (PatternRule.regex rule) = true ->
  advancing text (PatternRule.regex rule) ->
  exists results', apply_rule (String.length text + 2) text results rule = Some results'.
Proof.
  intros Hg Hadv. unfold apply_rule.
  destruct (exec_loop_advancing text rule Hg Hadv (String.length text + 2) 0 [])
    as [res ->]; [lia|].
  destruct res; eauto.
Qed.

(** X1. When every rule's pattern has the [g] flag and never matches the
    empty string or before the index at which its search started,
    [detectPatterns] returns, each rule's loop being left after at most
    [length text + 2] evaluations of its condition. *)
Theorem detectPatterns_returns text (rules : list PatternRule.t) :
  Forall (fun rule => RegExp.global (PatternRule.regex rule) = true /\
                      advancing text (PatternRule.regex rule)) rules ->
  exists results, detectPatterns (String.length text + 2) text rules = Some results.
Proof.
  intros H. unfold detectPatterns. generalize (@nil (string * list PatternMatch.t)).
  induction H as [|rule rules [Hg Hadv] _ IH]; intros results; simpl; [eauto|].
  destruct (apply_rule_returns text rule results Hg Hadv) as [r1 ->]. apply IH.
Qed.

Lemma detectPatterns_returns_witness :
  exists results,
    detectPatterns (String.length sample_text + 2) sample_text [codes_rule; codes_rule]
    = Some results.
Proof.
  apply (detectPatterns_returns sample_text [codes_rule; codes_rule]).
  repeat constructor; apply of_fragment_advancing; simpl; lia.
Defined.

(** *** removeDuplicates *)

Lemma removeDuplicates_from_keys ms : forall (seen : gset string),
  NoDup (map match_key (removeDuplicates_from seen ms)) /\
  (forall m, In m (removeDuplicates_from seen ms) -> match_key m ∉ seen) /\
  (forall m, In m ms -> match_key m ∈ seen \/
                        In (match_key m) (map match_key (removeDuplicates_from seen ms))).
Proof.
  induction ms as [|m0 ms IH]; intros seen; simpl.
  - repeat split; [constructor|intros ? []|intros ? []].
  - fold (match_key m0).
    destruct (decide (match_key m0 ∈ seen)) as [Hin|Hout].
    + destruct (IH seen) as (H1 & H2 & H3). repeat split; [exact H1|exact H2|].
      intros m [<-|Hm]; [now left|now apply H3].
    + destruct (IH ({[match_key m0]} ∪ seen)) as (H1 & H2 & H3). repeat split.
      * simpl. apply NoDup_cons_2; [|exact H1].
        intros Hk. apply list_elem_of_In, in_map_iff in Hk as (m & Hkey & Hm).
        apply H2 in Hm. apply Hm. rewrite Hkey.
        apply elem_of_union_l, elem_of_singleton. reflexivity.
      * intros m [<-|Hm]; [exact Hout|].
        apply H2 in Hm. intros Hs. apply Hm. now apply elem_of_union_r.
      * intros m [<-|Hm]; [right; now left|].
        destruct (H3 m Hm) as [Hs|Hs]; [|right; now right].
        apply elem_of_union in Hs as [Hs|Hs]; [|now left].
        apply elem_of_singleton in Hs. right. left. now symmetry.
Qed.

Lemma removeDuplicates_from_sublist ms : forall (seen : gset string),
  sublist (removeDuplicates_from seen ms) ms.
Proof.
  induction ms as [|m0 ms IH]; intros seen; simpl; [constructor|].
  destruct (decide (toLowerCase (PatternMatch.value m0) ∈ seen)).
  - apply sublist_cons, IH.
  - apply sublist_skip, IH.
Qed.

Lemma removeDuplicates_from_first l1 m l2 : forall (seen : gset string),
  match_key m ∉ seen ->
  ~ In (match_key m) (map match_key l1) ->
  In m (removeDuplicates_from seen (l1 ++ m :: l2)).
Proof.
  induction l1 as [|m0 l1 IH]; intros seen Hseen Hl1; simpl.
  - fold (match_key m). destruct (decide (match_key m ∈ seen)); [contradiction|now left].
  - fold (match_key m0). simpl in Hl1.
    destruct (decide (match_key m0 ∈ seen)).
    + apply IH; [exact Hseen|]. intros H. apply Hl1. now right.
    + right. apply IH.
      * intros Hs. apply elem_of_union in Hs as [Hs|Hs]; [|contradiction].
        apply elem_of_singleton in Hs. apply Hl1. left. now symmetry.
      * intros H. apply Hl1. now right.
Qed.

(** X2. [removeDuplicates] returns a sublist of its argument in which no
    two matches have the same value up to case; every value of the
    argument is still present up to case, and of the matches with one
    value the first is the one kept. *)
Theorem removeDuplicates_first_occurrences ms :
  sublist (removeDuplicates ms) ms /\
  NoDup (map match_key (removeDuplicates ms)) /\
  (forall m, In m ms -> In (match_key m) (map match_key (removeDuplicates ms))) /\
  (forall l1 m l2, ms = l1 ++ m :: l2 -> ~ In (match_key m) (map match_key l1) ->
                   In m (removeDuplicates ms)).
Proof.
  unfold removeDuplicates.
  destruct (removeDuplicates_from_keys ms ∅) as (H1 & _ & H3).
  split; [apply removeDuplicates_from_sublist|]. split; [exact H1|]. split.
  - intros m Hm. destruct (H3 m Hm) as [H|H]; [|exact H].
    now apply not_elem_of_empty in H.
  - intros l1 m l2 -> Hl1. apply removeDuplicates_from_first; [|exact Hl1].
    apply not_elem_of_empty.
Qed.

(** *** The sort *)

Lemma insert_by_confidence_perm m ms : Permutation (insert_by_confidence m ms) (m :: ms).
Proof.
  induction ms as [|y ms IH]; simpl; [reflexivity|].
  destruct (goes_after m y); [|reflexivity].
  rewrite IH. apply perm_swap.
Qed.

Lemma sort_by_confidence_perm ms : Permutation (sort_by_confidence ms) ms.
Proof.
  unfold sort_by_confidence. induction ms as [|m ms IH]; simpl; [reflexivity|].
  rewrite insert_by_confidence_perm. now constructor.
Qed.

(** *** The entries of the result *)

Lemma map_set_keys results key v :
  map fst (map_set results key v)
  = if existsb (fun k => String.eqb k key) (map fst results)
    then map fst results else map fst results ++ [key].
Proof.
  induction results as [|[k w] results IH]; simpl; [reflexivity|].
  destruct (String.eqb k key) eqn:E; simpl; [reflexivity|].
  rewrite IH. now destruct (existsb _ _).
Qed.

Lemma map_set_NoDup results key v :
  NoDup (map fst results) -> NoDup (map fst (map_set results key v)).
Proof.
  intros H. rewrite map_set_keys.
  destruct (existsb (fun k => String.eqb k key) (map fst results)) eqn:E; [exact H|].
  apply NoDup_app. split; [exact H|]. split; [|apply NoDup_singleton].
  intros k Hk Hkey. apply list_elem_of_singleton in Hkey. subst k.
  assert (existsb (fun k => String.eqb k key) (map fst results) = true); [|congruence].
  apply existsb_exists. exists key. split; [now apply list_elem_of_In|apply String.eqb_refl].
Qed.

Lemma map_set_key_In results key v k :
  In k (map fst (map_set results key v)) <-> In k (map fst results) \/ k = key.
Proof.
  rewrite map_set_keys.
  destruct (existsb (fun k => String.eqb k key) (map fst results)) eqn:E.
  - apply existsb_exists in E as (k' & Hk' & E). apply String.eqb_eq in E. subst k'.
    split; [now left|]. intros [H| ->]; assumption.
  - rewrite in_app_iff. simpl. split; intros [H|H]; auto.
    destruct H as [<-|[]]. now right.
Qed.

Lemma fresh_entry_good m0 found :
  good_entry (sort_by_confidence (removeDuplicates (m0 :: found))).
Proof.
  split.
  - intros H. pose proof (sort_by_confidence_perm (removeDuplicates (m0 :: found))) as P.
    rewrite H in P. apply Permutation_nil in P.
    unfold removeDuplicates in P. simpl in P.
    destruct (decide (toLowerCase (PatternMatch.value m0) ∈ (∅ : gset string))) as [Hin|Hout].
    + now apply not_elem_of_empty in Hin.
    + discriminate.
  - assert (Permutation (map match_key (sort_by_confidence (removeDuplicates (m0 :: found))))
                        (map match_key (removeDuplicates (m0 :: found)))) as P
      by apply Permutation_map, sort_by_confidence_perm.
    rewrite P. apply (removeDuplicates_from_keys (m0 :: found) ∅).
Qed.

Lemma apply_rule_entries fuel text results rule results' :
  apply_rule fuel text results rule = Some results' ->
  NoDup (map fst results) ->
  Forall (fun e => good_entry (snd e)) results ->
  NoDup (map fst results') /\ Forall (fun e => good_entry (snd e)) results'.
Proof.
  unfold apply_rule. intros H Hnd Hgood.
  destruct (exec_loop fuel text rule 0 []) as [[|m0 found]|]; try discriminate;
    injection H as <-; [auto|].
  split; [now apply map_set_NoDup|].
  apply List.Forall_forall. intros [k w] Hin.
  apply map_set_In in Hin as [Hin|[_ ->]].
  - rewrite List.Forall_forall in Hgood. now apply (Hgood (k, w)).
  - apply fresh_entry_good.
Qed.

(** X3. In the map that [detectPatterns] returns, the keys are pairwise
    distinct, no entry holds an empty list, and within one entry no two
    matches have the same value up to case. *)
Theorem detectPatterns_entries fuel text (rules : list PatternRule.t) results :
  detectPatterns fuel text rules = Some results ->
  NoDup (map fst results) /\
  Forall (fun e => snd e <> [] /\ NoDup (map match_key (snd e))) results.
Proof.
  unfold detectPatterns.
  assert (NoDup (map fst (@nil (string * list PatternMatch.t))) /\
          Forall (fun e : string * list PatternMatch.t => good_entry (snd e)) []) as Hinit
    by (split; constructor).
  revert Hinit. generalize (@nil (string * list PatternMatch.t)).
  induction rules as [|rule rules IH]; intros results0 [H1 H2] H; simpl in H.
  - injection H as <-. auto.
  - destruct (apply_rule fuel text results0 rule) as [r1|] eqn:E; [|discriminate].
    eapply IH; [|exact H]. eapply apply_rule_entries; eauto.
Qed.

Lemma detectPatterns_entries_witness :
  NoDup (map fst [("alphanumeric_codes", [sample_match])]) /\
  Forall (fun e : string * list PatternMatch.t =>
            snd e <> [] /\ NoDup (map match_key (snd e)))
         [("alphanumeric_codes", [sample_match])].
Proof.
  apply (detectPatterns_entries 5 sample_text [codes_rule]).
  vm_compute. reflexivity.
Defined.

Lemma apply_rule_key fuel text results rule results' k :
  apply_rule fuel text results rule = Some results' ->
  (In k (map fst results') <->
   In k (map fst results) \/
   (PatternRule.name rule = k /\
    exists ms, survivors fuel text rule = Some ms /\ ms <> [])).
Proof.
  unfold apply_rule, survivors. intros H.
  destruct (exec_loop fuel text rule 0 []) as [[|m0 found]|]; try discriminate;
    injection H as <-.
  - split; [now left|]. intros [H|(_ & ms & Hms & Hne)]; [exact H|].
    injection Hms as <-. contradiction.
  - rewrite map_set_key_In. split; intros [H|H]; auto.
    + right. split; [now symmetry|]. eexists. split; [reflexivity|discriminate].
    + right. symmetry. apply H.
Qed.

(** X4. A key is present in the result of [detectPatterns] exactly when
    some rule of that name is left with at least one match after
    validation: a rule without surviving matches adds no entry. *)
Theorem detectPatterns_keys fuel text (rules : list PatternRule.t) results k :
  detectPatterns fuel text rules = Some results ->
  (In k (map fst results) <->
   exists rule ms, In rule rules /\ PatternRule.name rule = k /\
                   survivors fuel text rule = Some ms /\ ms <> []).
Proof.
  unfold detectPatterns.
  assert (forall results0 results,
            detect_rules fuel text rules results0 = Some results ->
            (In k (map fst results) <->
             In k (map fst results0) \/
             exists rule ms, In rule rules /\ PatternRule.name rule = k /\
                             survivors fuel text rule = Some ms /\ ms <> [])) as Hgen.
  { induction rules as [|rule rules IH]; intros results0 res H; simpl in H.
    - injection H as <-. split; [now left|]. intros [H|(? & ? & [] & _)]. exact H.
    - destruct (apply_rule fuel text results0 rule) as [r1|] eqn:E; [|discriminate].
      rewrite (IH _ _ H), (apply_rule_key _ _ _ _ _ k E). split.
      + intros [[H1|(Hn & ms & Hs & Hne)]|(r & ms & Hin & Hn & Hs & Hne)].
        * now left.
        * right. exists rule, ms. simpl. auto.
        * right. exists r, ms. simpl. auto.
      + intros [H1|(r & ms & [<-|Hin] & Hn & Hs & Hne)].
        * left. now left.
        * left. right. split; [exact Hn|]. eauto.
        * right. exists r, ms. auto. }
  intros H. rewrite (Hgen _ _ H). simpl. split; [intros [[]|H1]; exact H1|now right].
Qed.

Lemma detectPatterns_keys_witness :
  In "alphanumeric_codes" (map fst [("alphanumeric_codes", [sample_match])]) <->
  exists rule ms, In rule [codes_rule] /\
                  PatternRule.name rule = "alphanumeric_codes" /\
                  survivors 5 sample_text rule = Some ms /\ ms <> [].
Proof.
  apply (detectPatterns_keys 5 sample_text [codes_rule]).
  vm_compute. reflexivity.
Defined.

End DetectionMore.

(** ** Trimming and normalizing *)

Section TrimFacts.
Import JsString Matching.

Lemma lower_char_idem (c : ascii) : lower_char (lower_char c) = lower_char c.
Proof. destruct c as [[] [] [] [] [] [] [] []]; vm_compute; reflexivity. Qed.

Lemma toLowerCase_idem (s : string) : toLowerCase (toLowerCase s) = toLowerCase s.
Proof. induction s as [|c s IH]; simpl; [reflexivity|]. now rewrite lower_char_idem, IH. Qed.

Lemma trimStart_length (s : string) : String.length (trimStart s) <= String.length s.
Proof. induction s as [|c s IH]; simpl; [lia|]. destruct (is_space c); simpl; lia. Qed.

Lemma trimStart_fixed (c : ascii) (s : string) :
  trimStart (String c s) = String c s -> is_space c = false.
Proof.
  simpl. destruct (is_space c); [|reflexivity].
  intros H. pose proof (trimStart_length s) as Hl. rewrite H in Hl. simpl in Hl. lia.
Qed.

Lemma trimStart_idem (s : string) : trimStart (trimStart s) = trimStart s.
Proof.
  induction s as [|c s IH]; simpl; [reflexivity|].
  destruct (is_space c) eqn:E; [exact IH|]. simpl. now rewrite E.
Qed.

Lemma trimEnd_idem (s : string) : trimEnd (trimEnd s) = trimEnd s.
Proof.
  induction s as [|c s IH]; [reflexivity|].
  assert (forall t, trimEnd (String c t)
                    = match trimEnd t with
                      | EmptyString => if is_space c then EmptyString else String c EmptyString
                      | r => String c r
                      end) as Hstep by reflexivity.
  rewrite (Hstep s). destruct (trimEnd s) as [|c' r] eqn:E.
  - destruct (is_space c) eqn:Hc; [reflexivity|]. now rewrite Hstep.
  - now rewrite Hstep, IH.
Qed.

Lemma trimStart_trimEnd (s : string) :
  trimStart s = s -> trimStart (trimEnd s) = trimEnd s.
Proof.
  destruct s as [|c s]; [reflexivity|]. intros H. apply trimStart_fixed in H.
  cbn [trimEnd]. destruct (trimEnd s); rewrite ?H; cbn [trimStart]; now rewrite H.
Qed.

Lemma trim_idem (s : string) : trim (trim s) = trim s.
Proof.
  unfold trim. rewrite trimStart_trimEnd by apply trimStart_idem. apply trimEnd_idem.
Qed.

Lemma normalize_idem (a : string) : normalize (normalize a) = normalize a.
Proof.
  unfold normalize. now rewrite toLowerCase_trim, toLowerCase_idem, trim_idem.
Qed.

Lemma normalize_trim (a : string) : normalize (trim a) = normalize a.
Proof. unfold normalize. now rewrite toLowerCase_trim, trim_idem. Qed.

Lemma normalize_toLowerCase (a : string) : normalize (toLowerCase a) = normalize a.
Proof. unfold normalize. now rewrite toLowerCase_idem. Qed.

End TrimFacts.

(** ** performMatching: the join *)

Section MatchingMore.
Import JsString Matching Sample.

Implicit Types (pdfs : list PDFFile.t) (cs : list CustomerData.t).

Lemma customer_lookup_none cs (k : string) :
  customer_lookup cs !! k = None -> Forall (fun c => key_of c <> k) cs.
Proof.
  intros H. apply List.Forall_forall. intros c Hc Hk.
  assert (k ∈ dom (customer_lookup cs)) as Hd.
  { rewrite customer_lookup_dom. unfold customer_keys.
    apply elem_of_list_to_set, list_elem_of_In, in_map_iff. eauto. }
  apply elem_of_dom in Hd as [c' Hc']. congruence.
Qed.

(** X5. The join of [performMatching] is exact: the customer of a matched
    record is a record of the customer list whose account number normalizes
    to the same key as the segment's, and a record is unmatched only when
    no customer of the list has that key. *)
Theorem performMatching_join_exact pdfs cs (r : MatchedData.t) :
  In r (performMatching pdfs cs) ->
  (MatchedData.matched r = true ->
     In (MatchedData.customer r) cs /\
     key_of (MatchedData.customer r)
       = normalize (PDFFile.accountNumber (MatchedData.pdf r))) /\
  (MatchedData.matched r = false ->
     Forall (fun c => key_of c <> normalize (PDFFile.accountNumber (MatchedData.pdf r))) cs).
Proof.
  rewrite performMatching_map. intros Hin.
  apply in_map_iff in Hin as (p & <- & _). unfold match_pdf. simpl.
  destruct (customer_lookup cs !! normalize (PDFFile.accountNumber p)) as [c|] eqn:E; simpl.
  - split; [|discriminate]. intros _. now apply customer_lookup_some.
  - split; [discriminate|]. intros _. now apply customer_lookup_none.
Qed.

Lemma sample_record_in :
  In {| MatchedData.pdf := sample_pdf "may.pdf" "abc123 ";
        MatchedData.customer := sample_customer;
        MatchedData.matched := true |}
     (performMatching [sample_pdf "may.pdf" "abc123 "; sample_pdf "other.pdf" "ZZZ999"]
        [sample_customer]).
Proof.
  rewrite performMatching_map. left. unfold match_pdf. simpl.
  replace (normalize "abc123 ") with "abc123" by (vm_compute; reflexivity).
  rewrite customer_lookup_fold. simpl. unfold insert_customer, key_of. simpl.
  replace (normalize "ABC123") with "abc123" by (vm_compute; reflexivity).
  rewrite lookup_insert_eq. reflexivity.
Defined.

Lemma performMatching_join_exact_witness :
  let r := {| MatchedData.pdf := sample_pdf "may.pdf" "abc123 ";
              MatchedData.customer := sample_customer;
              MatchedData.matched := true |} in
  In r (performMatching [sample_pdf "may.pdf" "abc123 "; sample_pdf "other.pdf" "ZZZ999"]
          [sample_customer]) /\
  In (MatchedData.customer r) [sample_customer] /\
  key_of (MatchedData.customer r) = normalize (PDFFile.accountNumber (MatchedData.pdf r)).
Proof.
  intros r. split; [exact sample_record_in|].
  exact (proj1 (performMatching_join_exact
                  [sample_pdf "may.pdf" "abc123 "; sample_pdf "other.pdf" "ZZZ999"]
                  [sample_customer] r sample_record_in) eq_refl).
Defined.

(** X6. Segments are matched independently of one another: the result for
    a concatenation of segment lists is the concatenation of the results;
    with no customer every segment is unmatched and carries its
    placeholder; and the matched and unmatched counts add up to the number
    of segments. *)
Theorem performMatching_independent pdfs1 pdfs2 cs :
  performMatching (pdfs1 ++ pdfs2) cs
    = performMatching pdfs1 cs ++ performMatching pdfs2 cs /\
  performMatching pdfs1 []
    = map (fun p => {| MatchedData.pdf := p; MatchedData.customer := placeholder p;
                       MatchedData.matched := false |}) pdfs1 /\
  matched_count (performMatching pdfs1 cs) + unmatched_count (performMatching pdfs1 cs)
    = List.length pdfs1.
Proof.
  rewrite !performMatching_map. split; [apply map_app|]. split.
  - apply map_ext. intros p. unfold match_pdf.
    rewrite customer_lookup_fold. simpl. now rewrite lookup_empty.
  - rewrite match_stats_total. apply length_map.
Qed.

(** X7. Only the normalized account number of a segment decides its match:
    two segments whose account numbers agree up to case and surrounding
    white space are both matched or both unmatched, and when matched they
    get the same customer record.  Normalizing is idempotent, and trimming
    or lower-casing an account number first does not change its key. *)
Theorem performMatching_by_normalized_key cs (p1 p2 : PDFFile.t) :
  normalize (PDFFile.accountNumber p1) = normalize (PDFFile.accountNumber p2) ->
  MatchedData.matched (match_pdf (customer_lookup cs) p1)
    = MatchedData.matched (match_pdf (customer_lookup cs) p2) /\
  (MatchedData.matched (match_pdf (customer_lookup cs) p1) = true ->
   MatchedData.customer (match_pdf (customer_lookup cs) p1)
     = MatchedData.customer (match_pdf (customer_lookup cs) p2)) /\
  (forall a, normalize (normalize a) = normalize a /\
             normalize (trim a) = normalize a /\
             normalize (toLowerCase a) = normalize a).
Proof.
  intros H. unfold match_pdf. simpl. rewrite H.
  split; [reflexivity|]. split.
  - destruct (customer_lookup cs !! normalize (PDFFile.accountNumber p2)); [reflexivity|discriminate].
  - intros a. auto using normalize_idem, normalize_trim, normalize_toLowerCase.
Qed.

Lemma performMatching_by_normalized_key_witness :
  MatchedData.matched
    (match_pdf (customer_lookup [sample_customer]) (sample_pdf "a.pdf" " ABC123"))
  = MatchedData.matched
      (match_pdf (customer_lookup [sample_customer]) (sample_pdf "b.pdf" "abc123 ")).
Proof.
  refine (proj1 (performMatching_by_normalized_key [sample_customer]
                   (sample_pdf "a.pdf" " ABC123") (sample_pdf "b.pdf" "abc123 ") _)).
  vm_compute. reflexivity.
Defined.

End MatchingMore.

(** ** parseCSV: what is imported *)

Section CsvMore.
Import JsString Csv CsvSample Matching ReSpec.

(** X8. Every row of the file is accounted for once: it is either
    imported as a customer or reported with one message. *)
Theorem parseRows_partition (rows : list Row) (index : nat) :
  List.length (fst (parseRows index rows)) + List.length (snd (parseRows index rows))
  = List.length rows.
Proof.
  revert index. induction rows as [|row rows IH]; intros index; simpl; [reflexivity|].
  specialize (IH (S index)). destruct (parseRows (S index) rows) as [customers errors].
  simpl in IH. destruct (parseRow index row); simpl; lia.
Qed.

Lemma count_chars_toLowerCase (p : ascii -> bool) (s : string) :
  (forall c, p (lower_char c) = p c) ->
  Synthesis.count_chars p (toLowerCase s) = Synthesis.count_chars p s.
Proof.
  intros Hp. induction s as [|c s IH]; simpl; [reflexivity|]. now rewrite Hp, IH.
Qed.

Lemma lower_char_at (c : ascii) : Re.chr "@" (lower_char c) = Re.chr "@" c.
Proof. destruct c as [[] [] [] [] [] [] [] []]; vm_compute; reflexivity. Qed.

Lemma count_chars_take_drop (p : ascii -> bool) (k : nat) (s : string) :
  Synthesis.count_chars p s
  = Synthesis.count_chars p (take k s) + Synthesis.count_chars p (drop k s).
Proof. rewrite <- count_chars_app. now rewrite take_drop. Qed.

Lemma not_space_at_no_at (c : ascii) : not_space_at c = true -> Re.chr "@" c = false.
Proof.
  unfold not_space_at, Re.chr. destruct (Ascii.eqb c "@"); [|reflexivity].
  rewrite orb_true_r. discriminate.
Qed.

Lemma not_space_at_no_space (c : ascii) : not_space_at c = true -> is_space c = false.
Proof. unfold not_space_at. destruct (is_space c); [discriminate|reflexivity]. Qed.

Lemma chr_at_no_space (c : ascii) : Re.chr "@" c = true -> is_space c = false.
Proof. unfold Re.chr. intros H. apply Ascii.eqb_eq in H. subst c. reflexivity. Qed.

Lemma chr_dot_no_space (c : ascii) : Re.chr "." c = true -> is_space c = false.
Proof. unfold Re.chr. intros H. apply Ascii.eqb_eq in H. subst c. reflexivity. Qed.

Lemma chr_dot_no_at (c : ascii) : Re.chr "." c = true -> Re.chr "@" c = false.
Proof. unfold Re.chr. intros H. apply Ascii.eqb_eq in H. subst c. reflexivity. Qed.

Lemma all_chars_single (p : ascii -> bool) (s : string) :
  Synthesis.all_chars p s = true -> String.length s = 1 ->
  Synthesis.count_chars p s = 1.
Proof. intros H1 H2. now rewrite count_chars_all. Qed.

(** An address that [validateEmail] accepts has no white space and exactly
    one [@]. *)
Lemma validateEmail_shape (e : string) :
  validateEmail e = true ->
  Synthesis.count_chars is_space e = 0 /\ Synthesis.count_chars (Re.chr "@") e = 1.
Proof.
  unfold validateEmail, Re.test, Re.search.
  change (Re.anchor_start emailRegex) with true.
  change (Re.anchor_end emailRegex) with true. cbv beta iota.
  destruct (Re.match_here (Re.atoms emailRegex) true e) as [n|] eqn:E; [|discriminate].
  intros _. apply match_here_sound in E as (_ & Hc & Hn).
  rewrite (Hn eq_refl), take_all in Hc by lia. clear Hn n.
  simpl in Hc.
  destruct Hc as (k1 & _ & _ & A1 & k2 & [Hk2 Hk2'] & Hl2 & A2 & k3 & _ & _ & A3
                  & k4 & [Hk4 Hk4'] & Hl4 & A4 & k5 & _ & _ & A5 & Hend).
  simpl in Hk2, Hk2', Hk4, Hk4'.
  assert (String.length (take k2 (drop k1 e)) = 1) as L2 by (rewrite length_take; lia).
  set (s1 := drop k1 e) in *. set (s2 := drop k2 s1) in *.
  set (s3 := drop k3 s2) in *. set (s4 := drop k4 s3) in *.
  assert (take k5 s4 = s4) as T5.
  { rewrite <- (take_drop k5 s4) at 2. rewrite Hend. clear.
    induction (take k5 s4) as [|c t IH]; [reflexivity|]. rewrite append_cons. now f_equal. }
  rewrite T5 in A5.
  split.
  - rewrite (count_chars_take_drop _ k1 e). fold s1.
    rewrite (count_chars_take_drop _ k2 s1). fold s2.
    rewrite (count_chars_take_drop _ k3 s2). fold s3.
    rewrite (count_chars_take_drop _ k4 s3). fold s4.
    rewrite (count_chars_none is_space _ _ not_space_at_no_space A1).
    rewrite (count_chars_none is_space _ _ chr_at_no_space A2).
    rewrite (count_chars_none is_space _ _ not_space_at_no_space A3).
    rewrite (count_chars_none is_space _ _ chr_dot_no_space A4).
    rewrite (count_chars_none is_space _ _ not_space_at_no_space A5). reflexivity.
  - rewrite (count_chars_take_drop _ k1 e). fold s1.
    rewrite (count_chars_take_drop _ k2 s1). fold s2.
    rewrite (count_chars_take_drop _ k3 s2). fold s3.
    rewrite (count_chars_take_drop _ k4 s3). fold s4.
    rewrite (count_chars_none (Re.chr "@") _ _ not_space_at_no_at A1).
    rewrite (all_chars_single _ _ A2 L2).
    rewrite (count_chars_none (Re.chr "@") _ _ not_space_at_no_at A3).
    rewrite (count_chars_none (Re.chr "@") _ _ chr_dot_no_at A4).
    rewrite (count_chars_none (Re.chr "@") _ _ not_space_at_no_at A5). reflexivity.
Qed.

(** X9. A customer that the import accepts is in normal form: the account
    number and the name are not empty and have no white space around them,
    and the email is not empty, is in lower case, holds no white space and
    holds exactly one [@]. *)
Theorem parseRow_normal_form (index : nat) (row : Row) (c : CustomerData.t) :
  parseRow index row = inr c ->
  (CustomerData.accountNumber c <> "" /\
   trim (CustomerData.accountNumber c) = CustomerData.accountNumber c) /\
  (CustomerData.customerName c <> "" /\
   trim (CustomerData.customerName c) = CustomerData.customerName c) /\
  (CustomerData.email c <> "" /\
   toLowerCase (CustomerData.email c) = CustomerData.email c /\
   Synthesis.count_chars is_space (CustomerData.email c) = 0 /\
   Synthesis.count_chars (Re.chr "@") (CustomerData.email c) = 1).
Proof.
  unfold parseRow.
  destruct (is_empty (trim (row_accountNumber row))) eqn:Ea; [discriminate|].
  destruct (is_empty (trim (row_email row))) eqn:Ee; [discriminate|].
  destruct (validateEmail (trim (row_email row))) eqn:Ev; [|discriminate].
  destruct (is_empty (trim (row_customerName row))) eqn:En; [discriminate|].
  simpl. intros H. injection H as <-. simpl.
  apply is_empty_false in Ea, Ee, En. apply validateEmail_shape in Ev as [Hs Hat].
  repeat split; try assumption; try apply trim_idem.
  - now apply toLowerCase_nonempty.
  - apply toLowerCase_idem.
  - rewrite count_chars_toLowerCase; [exact Hs|apply lower_char_space].
  - rewrite count_chars_toLowerCase; [exact Hat|apply lower_char_at].
Qed.

Lemma parseRow_normal_form_witness :
  let c := {| CustomerData.accountNumber := "FBNWSTX123456";
              CustomerData.email := "john.smith@email.com";
              CustomerData.customerName := "John Smith" |} in
  parseRow 0 {| row_accountNumber := " FBNWSTX123456"; row_email := "John.Smith@Email.com ";
                row_customerName := "John Smith" |} = inr c /\
  toLowerCase (CustomerData.email c) = CustomerData.email c /\
  Synthesis.count_chars is_space (CustomerData.email c) = 0 /\
  Synthesis.count_chars (Re.chr "@") (CustomerData.email c) = 1.
Proof.
  intros c.
  assert (parseRow 0 {| row_accountNumber := " FBNWSTX123456";
                        row_email := "John.Smith@Email.com ";
                        row_customerName := "John Smith" |} = inr c) as H
    by (vm_compute; reflexivity).
  split; [exact H|].
  exact (proj2 (proj2 (proj2 (parseRow_normal_form 0 _ c H)))).
Defined.

Lemma parseRows_accepts index row rows c :
  parseRow index row = inr c ->
  In c (fst (parseRows index (row :: rows))).
Proof.
  intros H. simpl. destruct (parseRows (S index) rows). rewrite H. now left.
Qed.

Lemma parseRows_In rows : forall index row,
  In row rows ->
  forall c, (forall i, parseRow i row = inr c) -> In c (fst (parseRows index rows)).
Proof.
  induction rows as [|r rows IH]; intros index row Hin c Hc; [destruct Hin|].
  destruct Hin as [->|Hin].
  - now apply parseRows_accepts.
  - simpl. specialize (IH (S index) row Hin c Hc).
    destruct (parseRows (S index) rows) as [cs es]. simpl in IH.
    destruct (parseRow index r); simpl; auto.
Qed.

(** The customer that a line written for [pdf] is imported as. *)
Lemma sample_row_imported (pdf : PDFFile.t) (email : string) :
  filled (PDFFile.accountNumber pdf) -> filled (PDFFile.customerName pdf) ->
  validateEmail (trim email) = true ->
  forall i, parseRow i (row_with_email pdf email)
            = inr {| CustomerData.accountNumber := trim (PDFFile.accountNumber pdf);
                     CustomerData.email := toLowerCase (trim email);
                     CustomerData.customerName := trim (PDFFile.customerName pdf) |}.
Proof.
  unfold filled. intros Ha Hn Hv i. unfold parseRow, row_with_email. simpl.
  apply is_empty_false in Ha, Hn. rewrite Ha, Hn, Hv. simpl.
  destruct (is_empty (trim email)) eqn:E; [|reflexivity].
  apply is_empty_true in E. rewrite E in Hv. discriminate.
Qed.

(** X10. The lines that [generateSampleCSVFromPDFs] builds, imported back
    cell by cell with a valid address in each line, match every segment
    whose account number and name are not blank: the lines carry the
    account numbers of the segments, and trimming them on import does not
    change their key. *)
Theorem generated_csv_matches (pdfs : list PDFFile.t) (emails : PDFFile.t -> string)
    (pdf : PDFFile.t) :
  In pdf pdfs ->
  filled (PDFFile.accountNumber pdf) -> filled (PDFFile.customerName pdf) ->
  validateEmail (trim (emails pdf)) = true ->
  let customers :=
    parsedCustomers (map (fun p => row_with_email p (emails p)) pdfs) in
  MatchedData.matched (match_pdf (customer_lookup customers) pdf) = true /\
  forall r, In r (performMatching pdfs customers) -> MatchedData.pdf r = pdf ->
            MatchedData.matched r = true.
Proof.
  intros Hin Ha Hn Hv customers.
  assert (MatchedData.matched (match_pdf (customer_lookup customers) pdf) = true) as Hm.
  { apply match_pdf_matched. apply elem_of_dom. rewrite customer_lookup_dom.
    unfold customer_keys. apply elem_of_list_to_set, list_elem_of_In, in_map_iff.
    eexists. split; [|unfold customers, parsedCustomers; eapply parseRows_In;
                       [apply in_map_iff; exists pdf; split; [reflexivity|exact Hin]
                       |apply sample_row_imported; assumption]].
    unfold key_of. simpl. apply normalize_trim. }
  split; [exact Hm|].
  intros r Hr Hp. rewrite performMatching_map in Hr.
  apply in_map_iff in Hr as (p & <- & _). simpl in Hp. now subst p.
Qed.

(** The placeholder address of the generated file is itself accepted. *)
Lemma placeholder_email_valid : validateEmail (trim "customer@email.com") = true.
Proof. vm_compute. reflexivity. Qed.

Lemma generated_csv_matches_witness :
  MatchedData.matched
    (match_pdf
       (customer_lookup
          (parsedCustomers
             (map (fun p => row_with_email p "customer@email.com")
                  [Sample.sample_pdf "may.pdf" "ABC123"])))
       (Sample.sample_pdf "may.pdf" "ABC123")) = true.
Proof.
  refine (proj1 (generated_csv_matches [Sample.sample_pdf "may.pdf" "ABC123"]
                   (fun _ => "customer@email.com")
                   (Sample.sample_pdf "may.pdf" "ABC123") _ _ _ _)).
  - now left.
  - vm_compute. discriminate.
  - vm_compute. discriminate.
  - exact placeholder_email_valid.
Defined.

End CsvMore.

(** ** testSinglePattern: it always returns *)

Section TesterMore.
Import JsString Tester.

Variable RegExp_new : string -> string -> Thrown + RegExp.t.

Lemma tester_loop_more_fuel (regex : RegExp.t) text : forall fuel lastIndex found res,
  exec_loop fuel regex lastIndex text found = Some res ->
  exec_loop (S fuel) regex lastIndex text found = Some res.
Proof.
  induction fuel as [|fuel IH]; intros lastIndex found res H; [discriminate|].
  simpl in H. change (exec_loop (S (S fuel)) regex lastIndex text found) with
    (match RegExp.exec regex lastIndex text with
     | (None, _) => Some found
     | (Some m, lastIndex') =>
         let matches' := found ++ [RegExp.value_of m] in
         if negb (RegExp.global regex) then Some matches'
         else if 50 <? List.length matches' then Some matches'
         else exec_loop (S fuel) regex lastIndex' text matches'
     end).
  destruct (RegExp.exec regex lastIndex text) as [[mo|] li]; [|exact H].
  cbv zeta in *. destruct (negb (RegExp.global regex)); [exact H|].
  destruct (50 <? List.length (found ++ [RegExp.value_of mo])); [exact H|].
  now apply IH.
Qed.

Lemma tester_loop_fuel_irrelevant (regex : RegExp.t) text lastIndex found res :
  forall fuel fuel', fuel <= fuel' ->
  exec_loop fuel regex lastIndex text found = Some res ->
  exec_loop fuel' regex lastIndex text found = Some res.
Proof.
  intros fuel fuel' Hle H. induction Hle as [|fuel' _ IH]; [exact H|].
  now apply tester_loop_more_fuel.
Qed.

Lemma tester_loop_length (regex : RegExp.t) text : forall fuel lastIndex found res,
  List.length found <= 50 ->
  exec_loop fuel regex lastIndex text found = Some res ->
  List.length res <= 51.
Proof.
  induction fuel as [|fuel IH]; intros lastIndex found res Hlen H; [discriminate|].
  simpl in H. destruct (RegExp.exec regex lastIndex text) as [[mo|] li].
  - assert (List.length (found ++ [RegExp.value_of mo]) = List.length found + 1) as Hl
      by (rewrite length_app; reflexivity).
    destruct (negb (RegExp.global regex)); [injection H as <-; lia|].
    destruct (50 <? List.length (found ++ [RegExp.value_of mo])) eqn:E.
    + injection H as <-. lia.
    + apply Nat.ltb_ge in E. eapply IH; [|exact H]. exact E.
  - injection H as <-. lia.
Qed.

Lemma unique_from_facts (l : list string) : forall seen : gset string,
  NoDup (unique_from seen l) /\
  List.length (unique_from seen l) <= List.length l /\
  (forall x, In x (unique_from seen l) <-> In x l /\ x ∉ seen).
Proof.
  induction l as [|y l IH]; intros seen; simpl.
  - split; [apply NoDup_nil_2|]. split; [lia|]. intros x. split; [intros []|intros [[] _]].
  - destruct (decide (y ∈ seen)) as [Hin|Hout].
    + destruct (IH seen) as (H1 & H2 & H3).
      split; [exact H1|]. split; [lia|]. intros x. rewrite H3. split.
      * intros [Hx Hs]. auto.
      * intros [[<-|Hx] Hs]; [contradiction|]. auto.
    + destruct (IH ({[y]} ∪ seen)) as (H1 & H2 & H3).
      split; [|split].
      * apply NoDup_cons_2; [|exact H1].
        intros Hy. apply list_elem_of_In, H3 in Hy as [_ Hy].
        apply Hy, elem_of_union_l, elem_of_singleton. reflexivity.
      * simpl. lia.
      * intros x. simpl. rewrite H3. split.
        -- intros [<-|[Hx Hs]]; [auto|]. split; [now right|].
           intros Hs'. apply Hs. now apply elem_of_union_r.
        -- intros [[<-|Hx] Hs]; [now left|].
           destruct (decide (x = y)) as [->|Hne]; [now left|]. right.
           split; [exact Hx|]. intros Hu.
           apply elem_of_union in Hu as [Hu|Hu]; [|contradiction].
           apply elem_of_singleton in Hu. contradiction.
Qed.

(** X11. [testSinglePattern] returns for every pattern and every text:
    its loop is left after at most 51 evaluations of its condition, more
    fuel never changes the result, and the matches of the result are
    pairwise distinct and at most 51. *)
Theorem testSinglePattern_total (pattern text : string) :
  exists r : TestResult,
    (forall fuel, 51 <= fuel -> testSinglePattern RegExp_new fuel pattern text = Some r) /\
    Tester.pattern r = pattern /\
    NoDup (matches r) /\ List.length (matches r) <= 51.
Proof.
  unfold testSinglePattern.
  destruct (RegExp_new pattern "gi") as [e|regex].
  - eexists. split; [reflexivity|]. simpl. repeat split; [apply NoDup_nil_2|lia].
  - destruct (tester_loop_terminates regex text 51 0 []) as [res Hres]; simpl; [lia|lia|].
    exists {| Tester.pattern := pattern; matches := unique res; success := true;
              error := None |}.
    split.
    + intros fuel Hfuel.
      now rewrite (tester_loop_fuel_irrelevant regex text 0 [] res 51 fuel Hfuel Hres).
    + simpl. destruct (unique_from_facts res ∅) as (H1 & H2 & _).
      repeat split; [exact H1|].
      apply (tester_loop_length regex text) in Hres; [|simpl; lia].
      unfold unique. lia.
Qed.

End TesterMore.

(** ** generateRegexPattern: the other branches *)

Section SynthesisMore.
Import JsString Synthesis.

Lemma max_of_bound (l : list nat) (x : nat) : In x l -> x <= max_of l.
Proof.
  unfold max_of. induction l as [|y l IH]; intros H; [destruct H|].
  simpl. destruct H as [->|H]; [lia|]. specialize (IH H). lia.
Qed.

Lemma foldr_min_bound (l : list nat) (x0 : nat) :
  foldr Nat.min x0 l <= x0 /\ forall x, In x l -> foldr Nat.min x0 l <= x.
Proof.
  induction l as [|y l [IH1 IH2]]; simpl; [split; [lia|intros ? []]|].
  split; [lia|]. intros x [->|H]; [lia|]. specialize (IH2 x H). lia.
Qed.

Lemma min_of_bound (l : list nat) (x : nat) : In x l -> min_of l <= x.
Proof.
  destruct l as [|y l]; [intros []|]. unfold min_of.
  destruct (foldr_min_bound l y) as [H1 H2].
  intros [->|H]; [exact H1|now apply H2].
Qed.

Lemma max_of_attained (l : list nat) : l <> [] -> In (max_of l) l.
Proof.
  unfold max_of. induction l as [|y l IH]; [congruence|]. intros _. simpl.
  destruct l as [|z l]; [left; simpl; lia|].
  specialize (IH ltac:(discriminate)).
  destruct (Nat.max_spec y (foldr Nat.max 0 (z :: l))) as [[_ ->]|[_ ->]]; [now right|now left].
Qed.

Lemma min_of_attained (l : list nat) : l <> [] -> In (min_of l) l.
Proof.
  destruct l as [|y l]; [congruence|]. intros _. unfold min_of.
  induction l as [|z l IH]; [now left|]. simpl.
  destruct (Nat.min_spec z (foldr Nat.min y l)) as [[_ ->]|[_ ->]].
  - right. now left.
  - destruct IH as [IH|IH]; [now left|right; now right].
Qed.

(** X12. For account examples without any letter and with a digit,
    [generateRegexPattern] returns [\d{lo,hi}] where [lo] and [hi] are the
    least and the greatest length of an example, both attained, so the
    range holds the length of every example; without any digit it returns
    the fallback [[A-Z0-9]+]. *)
Theorem generateRegexPattern_account_numeric (examples : list string) :
  examples <> [] ->
  existsb (has_char is_letter) examples = false ->
  (existsb (has_char is_digit) examples = true ->
   exists lo hi,
     generateRegexPattern examples "account"
       = "\d{" +:+ of_nat lo +:+ "," +:+ of_nat hi +:+ "}" /\
     In lo (map String.length examples) /\ In hi (map String.length examples) /\
     Forall (fun ex => lo <= String.length ex <= hi) examples) /\
  (existsb (has_char is_digit) examples = false ->
   generateRegexPattern examples "account" = "[A-Z0-9]+").
Proof.
  intros Hne Hl. rewrite generateRegexPattern_account by assumption.
  unfold generateAccountPattern. rewrite Hl. simpl. split; intros Hd; rewrite Hd; [|reflexivity].
  exists (min_of (map String.length examples)), (max_of (map String.length examples)).
  assert (map String.length examples <> []) as Hne' by (destruct examples; [congruence|discriminate]).
  repeat split.
  - now apply min_of_attained.
  - now apply max_of_attained.
  - apply List.Forall_forall. intros ex Hex.
    split; [apply min_of_bound|apply max_of_bound]; now apply in_map.
Qed.

Lemma generateRegexPattern_account_numeric_witness :
  exists lo hi,
    generateRegexPattern ["123456"; "12-345678"] "account"
      = "\d{" +:+ of_nat lo +:+ "," +:+ of_nat hi +:+ "}" /\
    In lo (map String.length ["123456"; "12-345678"]) /\
    In hi (map String.length ["123456"; "12-345678"]) /\
    Forall (fun ex => lo <= String.length ex <= hi) ["123456"; "12-345678"].
Proof.
  apply (proj1 (generateRegexPattern_account_numeric ["123456"; "12-345678"]
                  ltac:(discriminate) eq_refl)).
  reflexivity.
Defined.

Lemma replace_chars_none (p : ascii -> bool) (r s : string) :
  count_chars p s = 0 -> replace_chars p r s = s.
Proof.
  induction s as [|c s IH]; simpl; [reflexivity|].
  destruct (p c); [discriminate|]. simpl. intros H. now rewrite IH.
Qed.

(** X13. For a type other than [account] and [name], only the first
    example counts: the pattern of a list is the pattern of its first
    element alone; a first example without letters, digits and white space
    is returned as it is; and the empty list gives the empty pattern for
    every type. *)
Theorem generateRegexPattern_generic (type first : string) (rest : list string) :
  String.eqb type "account" = false -> String.eqb type "name" = false ->
  generateRegexPattern (first :: rest) type = generateRegexPattern [first] type /\
  (count_chars is_letter first = 0 -> count_chars is_digit first = 0 ->
   count_chars is_space first = 0 ->
   generateRegexPattern (first :: rest) type = first) /\
  (forall ty, generateRegexPattern [] ty = "").
Proof.
  intros Ha Hn. unfold generateRegexPattern. rewrite Ha, Hn.
  split; [reflexivity|]. split; [|reflexivity].
  intros H1 H2 H3. unfold generateGenericPattern. simpl.
  now rewrite (replace_chars_none is_letter) , (replace_chars_none is_digit),
    (replace_chars_none is_space).
Qed.

Lemma generateRegexPattern_generic_witness :
  generateRegexPattern ["$12.50"; "anything else"] "currency"
  = generateRegexPattern ["$12.50"] "currency".
Proof.
  refine (proj1 (generateRegexPattern_generic "currency" "$12.50" ["anything else"] _ _));
    reflexivity.
Defined.

End SynthesisMore.

(** ** parseFilename: the strategies *)

Section FilenameMore.
Import JsString Re ReSpec Filename.

Lemma match_account_no_upper (s : string) :
  match s with EmptyString => True | String c _ => is_upper c = false end ->
  match_here account_shape false s = None.
Proof.
  intros H. unfold account_shape, rep. cbn [match_here cls rmin rmax].
  assert (run_length is_upper (Some 6) s = 0) as ->; [|reflexivity].
  destruct s as [|c s]; [reflexivity|]. cbn [run_length]. now rewrite H.
Qed.

Lemma search_account_no_upper (s : string) :
  Synthesis.count_chars is_upper s = 0 -> search_from account_shape false s = None.
Proof.
  induction s as [|c s IH]; intros H.
  - cbn [search_from]. now rewrite match_account_no_upper.
  - simpl in H. destruct (is_upper c) eqn:E; [discriminate|]. simpl in H.
    cbn [search_from]. rewrite match_account_no_upper by exact E. now rewrite IH.
Qed.

(** X14. A file name that, without its extension, holds no upper-case
    letter and none of the separators [_], space and [-] is taken whole as
    the account number, with the customer name ["Unknown"]. *)
Theorem parseFilename_plain_name (filename : string) :
  Synthesis.count_chars is_upper (nameWithoutExt filename) = 0 ->
  includes "_" (nameWithoutExt filename) = false ->
  includes " " (nameWithoutExt filename) = false ->
  includes "-" (nameWithoutExt filename) = false ->
  parseFilename filename
  = {| accountNumber := or_else (nameWithoutExt filename) "Unknown";
       customerName := "Unknown" |}.
Proof.
  intros Hu H1 H2 H3. unfold parseFilename, strategies, match_text, search.
  change (anchor_start re_account_search) with false.
  change (atoms re_account_search) with account_shape.
  change (anchor_end re_account_search) with false. cbv beta iota.
  rewrite (search_account_no_upper _ Hu), H1, H2, H3.
  destruct (_ && _); reflexivity.
Qed.

Lemma parseFilename_plain_name_witness :
  parseFilename "0012345678.pdf"
  = {| accountNumber := or_else (nameWithoutExt "0012345678.pdf") "Unknown";
       customerName := "Unknown" |}.
Proof. apply parseFilename_plain_name; reflexivity. Defined.

Lemma take_app_length (a b : string) : take (String.length a) (a +:+ b) = a.
Proof. induction a as [|c a IH]; [reflexivity|]. rewrite append_cons. simpl. now rewrite IH. Qed.

Lemma drop_app_length (a b : string) (n : nat) :
  drop (String.length a + n) (a +:+ b) = drop n b.
Proof. induction a as [|c a IH]; [reflexivity|]. rewrite append_cons. simpl. exact IH. Qed.

Lemma drop_all (s : string) : drop (String.length s) s = "".
Proof. induction s as [|c s IH]; [reflexivity|]. exact IH. Qed.

Lemma append_empty_r (s : string) : s +:+ "" = s.
Proof. induction s as [|c s IH]; [reflexivity|]. rewrite append_cons. now rewrite IH. Qed.

Lemma includes_false_cons (p : string) (c : ascii) (s : string) :
  includes p (String c s) = false ->
  starts_with p (String c s) = false /\ includes p s = false.
Proof. rewrite includes_cons. apply orb_false_elim. Qed.

Lemma starts_with_pdf_app (s : string) :
  starts_with ".pdf" s = false -> s <> "" -> starts_with ".pdf" (s +:+ ".pdf") = false.
Proof.
  intros H Hne.
  destruct s as [|a [|b [|c [|d s']]]]; [congruence| | | |];
    repeat rewrite append_cons; rewrite ?append_empty; cbn [starts_with] in *;
    rewrite ?andb_true_r in *.
  - destruct (Ascii.eqb "." a); reflexivity.
  - destruct (Ascii.eqb "." a); [|reflexivity]. destruct (Ascii.eqb "p" b); reflexivity.
  - destruct (Ascii.eqb "." a); [|reflexivity]. destruct (Ascii.eqb "p" b); [|reflexivity].
    destruct (Ascii.eqb "d" c); reflexivity.
  - exact H.
Qed.

Lemma indexOf_pdf_app (base : string) :
  includes ".pdf" base = false ->
  indexOf ".pdf" (base +:+ ".pdf") = Some (String.length base).
Proof.
  induction base as [|c base IH]; intros H; [reflexivity|].
  apply includes_false_cons in H as [H1 H2].
  pose proof (starts_with_pdf_app (String c base) H1 ltac:(discriminate)) as Hs.
  rewrite append_cons in Hs. rewrite append_cons. cbn [indexOf].
  rewrite Hs, IH by assumption. reflexivity.
Qed.

Lemma nameWithoutExt_pdf (base : string) :
  includes ".pdf" base = false ->
  nameWithoutExt (base +:+ ".pdf") = nameWithoutExt base.
Proof.
  intros H. unfold nameWithoutExt. f_equal. unfold replace_first.
  rewrite indexOf_pdf_app by assumption.
  rewrite take_app_length, drop_app_length. simpl drop.
  unfold includes in H. destruct (indexOf ".pdf" base); [discriminate|].
  rewrite append_empty. apply append_empty_r.
Qed.

(** X15. The extension does not reach the result: for a name in which
    [.pdf] does not occur, the file [name.pdf] is parsed as [name] is. *)
Theorem parseFilename_extension (base : string) :
  includes ".pdf" base = false ->
  parseFilename (base +:+ ".pdf") = parseFilename base.
Proof. intros H. unfold parseFilename. now rewrite nameWithoutExt_pdf. Qed.

Lemma parseFilename_extension_witness :
  parseFilename ("FBNWSTX123456 John Smith" +:+ ".pdf")
  = parseFilename "FBNWSTX123456 John Smith".
Proof. apply parseFilename_extension. reflexivity. Defined.

Lemma all_chars_app (p : ascii -> bool) (a b : string) :
  Synthesis.all_chars p (a +:+ b)
  = Synthesis.all_chars p a && Synthesis.all_chars p b.
Proof.
  induction a as [|c a IH]; [reflexivity|]. rewrite append_cons. simpl.
  now rewrite IH, andb_assoc.
Qed.

Lemma all_chars_weaken (p q : ascii -> bool) (s : string) :
  (forall c, p c = true -> q c = true) ->
  Synthesis.all_chars p s = true -> Synthesis.all_chars q s = true.
Proof.
  intros Hpq. induction s as [|c s IH]; simpl; [reflexivity|].
  intros H. apply andb_prop in H as [H1 H2]. now rewrite (Hpq c H1), IH.
Qed.

(** The text that the account pattern matches. *)
Lemma account_match_shape (name acc : string) :
  match_text re_account_search name = Some acc ->
  4 <= String.length acc <= 14 /\
  Synthesis.all_chars is_upper (take 2 acc) = true /\
  Synthesis.all_chars is_upper_or_digit acc = true /\
  exists i, acc = take (String.length acc) (drop i name).
Proof.
  unfold match_text. destruct (search re_account_search name) as [[i n]|] eqn:E; [|discriminate].
  intros H. injection H as <-.
  apply search_sound in E as [Hi Hm].
  change (atoms re_account_search) with account_shape in Hm.
  apply match_here_sound in Hm as (Hn & Hc & _).
  set (acc := take n (drop i name)) in *.
  assert (String.length acc = n) as Hlen by (unfold acc; rewrite length_take; lia).
  simpl in Hc. destruct Hc as (k1 & [Hk1 Hk1'] & Hl1 & A1 & k2 & [Hk2 Hk2'] & Hl2 & A2 & Hend).
  simpl in Hk1, Hk1', Hk2, Hk2'. rewrite length_drop in Hl2.
  assert (drop k1 acc = take k2 (drop k1 acc)) as Hrest.
  { rewrite <- (take_drop k2 (drop k1 acc)) at 1. rewrite Hend. apply append_empty_r. }
  assert (String.length acc = k1 + k2) as Hsum.
  { pose proof (length_drop k1 acc) as L. rewrite Hrest, length_take, length_drop in L. lia. }
  split; [lia|]. split; [|split].
  - rewrite <- (take_take 2 k1) by lia. now apply all_chars_take.
  - rewrite <- (take_drop k1 acc), all_chars_app, Hrest, A2, andb_true_r.
    apply (all_chars_weaken is_upper); [|exact A1].
    intros c Hc. unfold is_upper_or_digit. now rewrite Hc.
  - exists i. rewrite Hlen. reflexivity.
Qed.

Lemma trim_or_else_trimmed (s d : string) :
  trim d = d -> trim (or_else (trim s) d) = or_else (trim s) d.
Proof.
  intros Hd. unfold or_else. destruct (is_empty (trim s)); [exact Hd|apply trim_idem].
Qed.

(** X16. When the name holds an account-shaped token, the account number
    returned is that token: 4 to 14 characters of the name in a row, all
    upper-case letters or digits, the first two of them letters; and the
    customer name returned has no white space around it. *)
Theorem parseFilename_account_token (filename : string) :
  test re_account_search (nameWithoutExt filename) = true ->
  let r := parseFilename filename in
  4 <= String.length (accountNumber r) <= 14 /\
  Synthesis.all_chars is_upper (take 2 (accountNumber r)) = true /\
  Synthesis.all_chars is_upper_or_digit (accountNumber r) = true /\
  (exists i, accountNumber r
             = take (String.length (accountNumber r)) (drop i (nameWithoutExt filename))) /\
  trim (customerName r) = customerName r.
Proof.
  unfold test, parseFilename, strategies.
  destruct (match_text re_account_search (nameWithoutExt filename)) as [acc|] eqn:E.
  - intros _. cbv zeta. cbn [accountNumber customerName].
    destruct (account_match_shape _ _ E) as (H1 & H2 & H3 & H4).
    assert (or_else acc "Unknown" = acc) as -> by (apply or_else_keep; intros ->; simpl in H1; lia).
    repeat split; try lia; try assumption.
    assert (forall a, or_else (or_else a "Unknown") "Unknown" = or_else a "Unknown") as ->
      by (intros a; unfold or_else; destruct (is_empty a) eqn:Ea; cbv beta iota;
          rewrite ?Ea; reflexivity).
    apply trim_or_else_trimmed. reflexivity.
  - unfold match_text in E.
    destruct (search re_account_search (nameWithoutExt filename)) as [[i n]|]; discriminate.
Qed.

Lemma parseFilename_account_token_witness :
  accountNumber (parseFilename "Smith, John - SMNWSTX77 - 3/14.pdf") = "SMNWSTX77" /\
  trim (customerName (parseFilename "Smith, John - SMNWSTX77 - 3/14.pdf"))
  = customerName (parseFilename "Smith, John - SMNWSTX77 - 3/14.pdf").
Proof.
  split; [vm_compute; reflexivity|].
  refine (proj2 (proj2 (proj2 (proj2
            (parseFilename_account_token "Smith, John - SMNWSTX77 - 3/14.pdf" _))))).
  vm_compute. reflexivity.
Defined.

End FilenameMore.

(** ** parseFilename: what is left when no account token is found *)

Section FilenameFallbacks.
Import JsString Re ReSpec Filename.

Lemma run_length_ge (p : ascii -> bool) : forall (k : nat) (s : string) (lim : option nat),
  Synthesis.all_chars p (take k s) = true -> k <= String.length s ->
  match lim with Some l => k <= l | None => True end ->
  k <= run_length p lim s.
Proof.
  induction k as [|k IH]; intros s lim Hall Hlen Hlim; [lia|].
  destruct s as [|c s]; [simpl in Hlen; lia|].
  simpl in Hall. apply andb_prop in Hall as [Hc Hall]. simpl in Hlen.
  destruct lim as [[|l]|]; simpl; try lia; rewrite Hc.
  - specialize (IH s (Some l) Hall). simpl in IH. lia.
  - specialize (IH s None Hall). simpl in IH. lia.
Qed.

Lemma try_down_complete (cont : nat -> option nat) (lo j : nat) : forall k,
  lo <= j -> j <= k -> cont j <> None -> try_down cont lo k <> None.
Proof.
  induction k as [|k IH]; intros Hlo Hj Hc.
  - assert (j = 0) as -> by lia. assert (lo = 0) as -> by lia. simpl.
    destruct (cont 0); [discriminate|contradiction].
  - cbn [try_down]. assert ((S k <? lo) = false) as -> by (apply Nat.ltb_ge; lia).
    destruct (cont (S k)) eqn:E; [discriminate|].
    destruct (Nat.eq_dec j (S k)) as [->|Hne]; [congruence|]. apply IH; [lia|lia|exact Hc].
Qed.

Lemma take_app_le (k : nat) (a b : string) :
  k <= String.length a -> take k (a +:+ b) = take k a.
Proof.
  revert a. induction k as [|k IH]; intros a H; [reflexivity|].
  destruct a as [|c a]; [simpl in H; lia|]. rewrite append_cons. simpl.
  rewrite IH by (simpl in H; lia). reflexivity.
Qed.

Lemma drop_app_le (k : nat) (a b : string) :
  k <= String.length a -> drop k (a +:+ b) = drop k a +:+ b.
Proof.
  revert a. induction k as [|k IH]; intros a H; [reflexivity|].
  destruct a as [|c a]; [simpl in H; lia|]. rewrite append_cons. simpl.
  apply IH. simpl in H. lia.
Qed.

(** A string that has the whole account shape starts a match of the
    account pattern wherever it stands. *)
Lemma strict_shape_matches (p post : string) :
  test re_account_strict p = true ->
  match_here account_shape false (p +:+ post) <> None.
Proof.
  unfold test, search. change (anchor_start re_account_strict) with true.
  change (atoms re_account_strict) with account_shape.
  change (anchor_end re_account_strict) with true. cbv beta iota.
  destruct (match_here account_shape true p) as [n|] eqn:E; [|discriminate]. intros _.
  apply match_here_sound in E as (_ & Hc & Hn).
  rewrite (Hn eq_refl), take_all in Hc by lia. clear Hn n.
  simpl in Hc.
  destruct Hc as (k1 & [Hk1 Hk1'] & Hl1 & A1 & k2 & [Hk2 Hk2'] & Hl2 & A2 & _).
  simpl in Hk1, Hk1', Hk2, Hk2'.
  unfold account_shape, rep. cbn [match_here cls rmin rmax].
  apply (try_down_complete _ 2 k1); [exact Hk1| |].
  - apply run_length_ge; [now rewrite take_app_le|rewrite length_append; lia|exact Hk1'].
  - apply (try_down_complete _ 2 k2); [exact Hk2| |discriminate].
    rewrite drop_app_le by lia.
    apply run_length_ge; [now rewrite take_app_le|rewrite length_append; lia|exact Hk2'].
Qed.

Lemma search_from_none (l : list atom) (at_end : bool) : forall (s : string) (i : nat),
  search_from l at_end s = None -> i <= String.length s ->
  match_here l at_end (drop i s) = None.
Proof.
  induction s as [|c s IH]; intros i H Hi; cbn [search_from] in H.
  - assert (i = 0) as -> by (simpl in Hi; lia). simpl.
    destruct (match_here l at_end ""); [discriminate|reflexivity].
  - destruct (match_here l at_end (String c s)) eqn:E; [discriminate|].
    destruct i as [|i]; [exact E|]. simpl. apply IH; [|simpl in Hi; lia].
    destruct (search_from l at_end s) as [[? ?]|]; [discriminate|reflexivity].
Qed.

Lemma split_nonempty (sep : ascii) (s : string) : split sep s <> [].
Proof.
  destruct s as [|c s]; [discriminate|]. cbn [split].
  destruct (Ascii.eqb c sep); [discriminate|]. destruct (split sep s); discriminate.
Qed.

Lemma join_cons2 (sep x y : string) (l : list string) :
  join sep (x :: y :: l) = x +:+ sep +:+ join sep (y :: l).
Proof. reflexivity. Qed.

(** Joining the parts with the separator gives the string back. *)
Lemma join_split (sep : ascii) (s : string) :
  join (String sep "") (split sep s) = s.
Proof.
  induction s as [|c s IH]; [reflexivity|]. cbn [split].
  pose proof (split_nonempty sep s) as Hne.
  destruct (Ascii.eqb c sep) eqn:E.
  - apply Ascii.eqb_eq in E. subst c.
    destruct (split sep s) as [|h r]; [congruence|].
    rewrite join_cons2, IH. reflexivity.
  - destruct (split sep s) as [|h r]; [congruence|].
    destruct r as [|h' r].
    + change (join (String sep "") [h]) with h in IH.
      change (join (String sep "") [String c h]) with (String c h). now rewrite IH.
    + rewrite join_cons2 in *. rewrite append_cons. now rewrite IH.
Qed.

Lemma append_assoc (a b c : string) : (a +:+ b) +:+ c = a +:+ (b +:+ c).
Proof. induction a as [|x a IH]; [reflexivity|]. rewrite !append_cons. now rewrite IH. Qed.

Lemma join_part_inside (sep : string) (l : list string) (p : string) :
  In p l -> exists pre post, join sep l = pre +:+ p +:+ post.
Proof.
  induction l as [|x l IH]; intros Hp; [destruct Hp|].
  destruct l as [|y l].
  - destruct Hp as [<-|[]]. exists "", "". cbn [join]. now rewrite append_empty_r.
  - rewrite join_cons2. destruct Hp as [<-|Hp].
    + exists "", (sep +:+ join sep (y :: l)). reflexivity.
    + destruct (IH Hp) as (pre & post & ->).
      exists (x +:+ sep +:+ pre), post. now rewrite !append_assoc.
Qed.

(** Every part of a split stands somewhere in the string. *)
Lemma split_part_inside (sep : ascii) (s p : string) :
  In p (split sep s) -> exists pre post, s = pre +:+ p +:+ post.
Proof.
  intros Hp. destruct (join_part_inside (String sep "") _ p Hp) as (pre & post & H).
  rewrite join_split in H. eauto.
Qed.

Lemma drop_app_exact (a b : string) : drop (String.length a) (a +:+ b) = b.
Proof. induction a as [|c a IH]; [reflexivity|]. rewrite append_cons. exact IH. Qed.

(** When the account pattern finds nothing in the name, no part of the
    name has the account shape. *)
Lemma no_token_no_part (sep : ascii) (name p : string) :
  test re_account_search name = false ->
  In p (split sep name) -> test re_account_strict p = false.
Proof.
  intros Hs Hp. destruct (test re_account_strict p) eqn:E; [|reflexivity]. exfalso.
  destruct (split_part_inside sep name p Hp) as (pre & post & Hn).
  pose proof (strict_shape_matches p post E) as Hm. apply Hm.
  rewrite <- (drop_app_exact pre (p +:+ post)), <- Hn.
  apply search_from_none.
  - unfold test, search in Hs. change (anchor_start re_account_search) with false in Hs.
    change (atoms re_account_search) with account_shape in Hs.
    change (anchor_end re_account_search) with false in Hs. cbv beta iota in Hs.
    destruct (search_from account_shape false name); [discriminate|reflexivity].
  - rewrite Hn, length_append. lia.
Qed.

Lemma find_account_part_none (parts : list string) : forall i,
  Forall (fun p => test re_account_strict p = false) parts ->
  find_account_part parts i = None.
Proof.
  induction parts as [|p parts IH]; intros i H; [reflexivity|].
  inversion H; subst. cbn [find_account_part]. rewrite H2. now apply IH.
Qed.

Lemma split_includes (sep : ascii) (s : string) :
  includes (String sep "") s = true -> 2 <= List.length (split sep s).
Proof.
  induction s as [|c s IH]; [discriminate|].
  rewrite includes_cons. cbn [split starts_with].
  destruct (Ascii.eqb sep c) eqn:E.
  - intros _. apply Ascii.eqb_eq in E. subst c. rewrite Ascii.eqb_refl.
    pose proof (split_nonempty sep s). destruct (split sep s); [congruence|simpl; lia].
  - simpl. intros H. specialize (IH H).
    rewrite Ascii.eqb_sym, E. destruct (split sep s); simpl in *; lia.
Qed.

Lemma match_text_none (r : regex) (s : string) :
  test r s = false -> match_text r s = None.
Proof. unfold test, match_text. destruct (search r s) as [[? ?]|]; [discriminate|reflexivity]. Qed.

Lemma part_In (parts : list string) (i : nat) :
  i < List.length parts -> In (part parts i) parts.
Proof. intros H. unfold part. now apply nth_In. Qed.

Lemma split_strategy_fallback (sep : ascii) (name : string) :
  test re_account_search name = false ->
  includes (String sep "") name = true ->
  split_strategy sep name = (part (split sep name) 0, part (split sep name) 1).
Proof.
  intros Hs Hi. unfold split_strategy.
  rewrite find_account_part_none.
  - cbv zeta beta iota. simpl is_empty. pose proof (split_includes sep name Hi) as Hl.
    apply Nat.leb_le in Hl. now rewrite Hl.
  - apply List.Forall_forall. intros p Hp. now apply (no_token_no_part sep name).
Qed.

(** X17. When the name holds no account-shaped token, no segment of it
    has the account shape either, so the tests of strategies 2 to 4 never
    succeed: with an underscore the second segment is returned as the
    account number and the first as the customer name; otherwise, with a
    space or else with a dash, the first segment is the account number
    and the second the customer name.  An empty segment gives
    ["Unknown"]. *)
Theorem parseFilename_without_token (filename : string) :
  test re_account_search (nameWithoutExt filename) = false ->
  let name := nameWithoutExt filename in
  (includes "_" name = true ->
   parseFilename filename
   = {| accountNumber := or_else (part (split "_" name) 1) "Unknown";
        customerName := or_else (part (split "_" name) 0) "Unknown" |}) /\
  (includes "_" name = false -> includes " " name = true ->
   parseFilename filename
   = {| accountNumber := or_else (part (split " " name) 0) "Unknown";
        customerName := or_else (part (split " " name) 1) "Unknown" |}) /\
  (includes "_" name = false -> includes " " name = false -> includes "-" name = true ->
   parseFilename filename
   = {| accountNumber := or_else (part (split "-" name) 0) "Unknown";
        customerName := or_else (part (split "-" name) 1) "Unknown" |}).
Proof.
  intros Hs name. subst name. unfold parseFilename, strategies.
  rewrite (match_text_none _ _ Hs). set (name := nameWithoutExt filename) in *.
  split; [|split].
  - intros H1. rewrite H1.
    pose proof (split_includes "_" name H1) as Hl.
    assert ((2 <=? List.length (split "_" name)) = true) as -> by now apply Nat.leb_le.
    rewrite (no_token_no_part "_" name (part (split "_" name) 0) Hs); [reflexivity|].
    apply part_In. lia.
  - intros H1 H2. rewrite H1, H2. now rewrite split_strategy_fallback.
  - intros H1 H2 H3. rewrite H1, H2, H3. now rewrite split_strategy_fallback.
Qed.

Lemma parseFilename_without_token_witness :
  parseFilename "12345678_John Smith_May 2025.pdf"
  = {| accountNumber :=
         or_else (part (split "_" (nameWithoutExt "12345678_John Smith_May 2025.pdf")) 1)
                 "Unknown";
       customerName :=
         or_else (part (split "_" (nameWithoutExt "12345678_John Smith_May 2025.pdf")) 0)
                 "Unknown" |}.
Proof.
  apply (proj1 (parseFilename_without_token "12345678_John Smith_May 2025.pdf" eq_refl)).
  reflexivity.
Defined.

(** On the documented layout with a numeric account number the two
    fields come out exchanged. *)
Example parseFilename_numeric_account_swapped :
  parseFilename "12345678_John Smith_May 2025.pdf"
  = {| accountNumber := "John Smith"; customerName := "12345678" |}.
Proof. vm_compute. reflexivity. Qed.

End FilenameFallbacks.



(** ** The general matcher *)

Section RxFacts.
Import JsString Rx RxSpec.

Implicit Types (r : rx) (k : cont) (s x y z : st).

Lemma rep_count_step lo hi (n : nat) :
  hi <> Some 0 ->
  rep_count lo hi * n <= (if lo =? 0 then 0 else n) + rep_count (Nat.pred lo) (option_map Nat.pred hi) * n.
Proof.
  intros Hhi. destruct lo as [|lo]; simpl.
  - destruct hi as [[|h]|]; simpl; lia.
  - destruct hi as [[|h]|]; simpl; [congruence| |lia].
    destruct (Nat.min_spec lo h) as [[_ ->]|[_ ->]]; lia.
Qed.

Lemma rep_loop_progresses (body : cont -> cont) (n : nat) :
  progresses body n ->
  forall fuel lo hi k x z,
    rep_loop body k fuel lo hi x = Some z ->
    exists y, k y = Some z /\ pos x + rep_count lo hi * n <= pos y /\
              pos y + String.length (rest y) = pos x + String.length (rest x).
Proof.
  intros Hb. induction fuel as [|fuel IH]; intros lo hi k x z H.
  - destruct hi as [[|h]|]; simpl in H; try discriminate.
    exists x. unfold rep_count. rewrite Nat.min_0_r. repeat split; [exact H|lia..].
  - assert (hi = Some 0 \/ hi <> Some 0) as [->|Hhi]
      by (destruct hi as [[|h]|]; [now left|right; congruence|right; congruence]).
    { simpl in H. exists x. unfold rep_count. rewrite Nat.min_0_r.
      repeat split; [exact H|lia..]. }
    assert (rep_loop body k (S fuel) lo hi x =
            let d := fun y =>
              if (lo =? 0) && (pos y =? pos x) then None
              else rep_loop body k fuel (Nat.pred lo) (option_map Nat.pred hi) y in
            if lo =? 0
            then match body d x with Some z => Some z | None => k x end
            else body d x) as E
      by (destruct hi as [[|h]|]; [congruence|reflexivity|reflexivity]).
    rewrite E in H. clear E. cbv zeta in H.
    pose proof (rep_count_step lo hi n Hhi) as Hc.
    destruct (lo =? 0) eqn:El.
    + apply Nat.eqb_eq in El. subst lo.
      destruct (body _ x) as [z'|] eqn:Eb.
      * injection H as ->. apply Hb in Eb as (y & Hd & Hp & Hl).
        destruct (_ && _); [discriminate|].
        apply IH in Hd as (y' & Hk & Hp' & Hl'). exists y'.
        repeat split; [exact Hk| |lia].
        destruct hi as [h|]; simpl; lia.
      * exists x. repeat split; [exact H|].
        destruct hi as [h|]; simpl; lia.
    + apply Hb in H as (y & Hd & Hp & Hl). simpl in Hd.
      apply IH in Hd as (y' & Hk & Hp' & Hl'). exists y'.
      repeat split; [exact Hk|lia..].
Qed.

(** A match of [r] consumes at least [min_len r] characters, and the
    matcher moves along the text. *)
Lemma m_progresses r : progresses (m r) (min_len r).
Proof.
  induction r as [|p|a IHa b IHb|a IHa b IHb|lo hi r IH| | | |r IH];
    intros k s z H; simpl in H |- *.
  - exists s. repeat split; [exact H|lia..].
  - destruct (rest s) as [|c t] eqn:Er; [discriminate|].
    destruct (p c); [|discriminate].
    eexists. split; [exact H|]. simpl. lia.
  - apply IHa in H as (y & H & Hp & Hl). apply IHb in H as (y' & H & Hp' & Hl').
    exists y'. repeat split; [exact H|lia..].
  - destruct (m a k s) as [z'|] eqn:Ea.
    + injection H as ->. apply IHa in Ea as (y & H & Hp & Hl).
      exists y. repeat split; [exact H|lia..].
    + apply IHb in H as (y & H & Hp & Hl).
      exists y. repeat split; [exact H|lia..].
  - eapply rep_loop_progresses in H; [|exact IH]. exact H.
  - destruct (xorb _ _); [|discriminate]. exists s. repeat split; [exact H|lia..].
  - destruct (prev s); [discriminate|]. exists s. repeat split; [exact H|lia..].
  - destruct (rest s) eqn:Er; [|discriminate]. exists s. rewrite Er.
    repeat split; [exact H|lia..].
  - apply IH in H as (y & H & Hp & Hl). eexists. split; [exact H|]. simpl. lia.
Qed.

(** A match found from index [i] on starts at or after [i], is at least
    [min_len r] long and ends inside the text. *)
Lemma rx_search_at_sound r : forall (s : string) before i j z,
  search_at r before s i = Some (j, z) ->
  i <= j /\ j + min_len r <= pos z /\ pos z <= i + String.length s.
Proof.
  induction s as [|c t IH]; intros before i j z H; simpl in H.
  - destruct (m r Some _) as [z'|] eqn:E; [|discriminate].
    injection H as <- <-. apply m_progresses in E as (y & Hy & Hp & Hl).
    injection Hy as ->. simpl in *.
    generalize dependent (String.length (rest z')). intros; lia.
  - destruct (m r Some _) as [z'|] eqn:E.
    + injection H as <- <-. apply m_progresses in E as (y & Hy & Hp & Hl).
      injection Hy as ->. simpl in *.
      generalize dependent (String.length (rest z')). intros; lia.
    + apply IH in H. simpl. lia.
Qed.

Lemma rx_search_sound r text start j z :
  search r text start = Some (j, z) ->
  start <= j /\ j + min_len r <= pos z /\ pos z <= String.length text.
Proof.
  unfold search. destruct (String.length text <? start) eqn:E; [discriminate|].
  apply Nat.ltb_ge in E. intros H. apply rx_search_at_sound in H.
  rewrite length_drop in H. lia.
Qed.

(** A pattern that cannot match the empty string is advancing in every
    text. *)
Lemma regexp_advancing (g : bool) r text :
  1 <= min_len r -> DetectionSpec.advancing text (regexp g r).
Proof.
  intros Hmin i mo. unfold regexp. simpl.
  destruct (search r text i) as [[j z]|] eqn:E; [|discriminate].
  intros H. injection H as <-. simpl.
  apply rx_search_sound in E. unfold slice.
  rewrite length_take, length_drop. lia.
Qed.


Lemma ahead_refl x : ahead x x.
Proof. split; lia. Qed.

Lemma ahead_trans x y z : ahead x y -> ahead y z -> ahead x z.
Proof. intros [H1 H2] [H3 H4]. split; lia. Qed.

Lemma rep_loop_forward (body : cont -> cont) :
  forward body ->
  forall fuel lo hi k1 k2 x,
    (forall y, ahead x y -> k1 y = k2 y) ->
    rep_loop body k1 fuel lo hi x = rep_loop body k2 fuel lo hi x.
Proof.
  intros Hb. induction fuel as [|fuel IH]; intros lo hi k1 k2 x Hk.
  - destruct hi as [[|h]|]; simpl; try reflexivity. apply Hk, ahead_refl.
  - assert (forall y, ahead x y ->
              (if (lo =? 0) && (pos y =? pos x) then None
               else rep_loop body k1 fuel (Nat.pred lo) (option_map Nat.pred hi) y) =
              (if (lo =? 0) && (pos y =? pos x) then None
               else rep_loop body k2 fuel (Nat.pred lo) (option_map Nat.pred hi) y)) as Hd.
    { intros y Hy. destruct (_ && _); [reflexivity|].
      apply IH. intros y' Hy'. apply Hk. eapply ahead_trans; eauto. }
    apply Hb in Hd.
    destruct hi as [[|h]|]; simpl in *.
    + apply Hk, ahead_refl.
    + rewrite Hd, (Hk x (ahead_refl x)). reflexivity.
    + rewrite Hd, (Hk x (ahead_refl x)). reflexivity.
Qed.

Lemma m_forward r : forward (m r).
Proof.
  induction r as [|p|a IHa b IHb|a IHa b IHb|lo hi r IH| | | |r IH];
    intros k1 k2 s Hk; simpl.
  - apply Hk, ahead_refl.
  - destruct (rest s) as [|c t] eqn:Er; [reflexivity|].
    destruct (p c); [|reflexivity]. apply Hk. split; simpl; [lia|rewrite Er; simpl; lia].
  - apply IHa. intros y Hy. apply IHb. intros y' Hy'. apply Hk. eapply ahead_trans; eauto.
  - rewrite (IHa k1 k2 s Hk), (IHb k1 k2 s Hk). reflexivity.
  - apply rep_loop_forward; assumption.
  - destruct (xorb _ _); [|reflexivity]. apply Hk, ahead_refl.
  - destruct (prev s); [reflexivity|]. apply Hk, ahead_refl.
  - destruct (rest s); [|reflexivity]. apply Hk, ahead_refl.
  - apply IH. intros y Hy. apply Hk. exact Hy.
Qed.

(** The fuel of [rep_loop] is never used up: from [lo + length rest + 1]
    on, more fuel changes nothing. *)
Lemma rep_loop_fuel (body : cont -> cont) (k : cont) :
  forward body ->
  forall f1 f2 lo hi x,
    lo + String.length (rest x) + 1 <= f1 ->
    lo + String.length (rest x) + 1 <= f2 ->
    rep_loop body k f1 lo hi x = rep_loop body k f2 lo hi x.
Proof.
  intros Hb. induction f1 as [|f1 IH]; intros f2 lo hi x H1 H2; [lia|].
  destruct f2 as [|f2]; [lia|].
  assert (forall y, ahead x y ->
            (if (lo =? 0) && (pos y =? pos x) then None
             else rep_loop body k f1 (Nat.pred lo) (option_map Nat.pred hi) y) =
            (if (lo =? 0) && (pos y =? pos x) then None
             else rep_loop body k f2 (Nat.pred lo) (option_map Nat.pred hi) y)) as Hd.
  { intros y [Hy1 Hy2]. destruct (lo =? 0) eqn:El; simpl.
    - apply Nat.eqb_eq in El. subst lo.
      destruct (pos y =? pos x) eqn:Ep; [reflexivity|].
      apply Nat.eqb_neq in Ep. apply IH; simpl; lia.
    - apply Nat.eqb_neq in El. apply IH; lia. }
  apply Hb in Hd.
  destruct hi as [[|h]|]; simpl in *; [reflexivity| |]; rewrite Hd; reflexivity.
Qed.

Lemma m_rep_fuel r lo hi k s fuel :
  lo + String.length (rest s) + 1 <= fuel ->
  rep_loop (m r) k fuel lo hi s = m (Rep lo hi r) k s.
Proof.
  intros H. simpl. apply rep_loop_fuel; [apply m_forward|exact H|lia].
Qed.

End RxFacts.


(** ** detectPatterns with rules of distinct names *)

Section DistinctNames.
Import JsString Number Detection DetectionSpec CatalogSpec Sample.

Lemma map_set_fresh (results : Results) key v :
  ~ In key (map fst results) -> map_set results key v = results ++ [(key, v)].
Proof.
  induction results as [|[k w] results IH]; simpl; [reflexivity|].
  intros H. destruct (String.eqb k key) eqn:E.
  - apply String.eqb_eq in E. tauto.
  - rewrite IH; [reflexivity|tauto].
Qed.

Lemma detect_rules_distinct fuel text : forall (rules : list PatternRule.t) results0 results,
  NoDup (map PatternRule.name rules) ->
  (forall rule, In rule rules -> ~ In (PatternRule.name rule) (map fst results0)) ->
  detect_rules fuel text rules results0 = Some results ->
  results = results0 ++ entries fuel text rules.
Proof.
  induction rules as [|rule rules IH]; intros results0 results Hnd Hfresh H; simpl in H.
  - injection H as <-. unfold entries. simpl. now rewrite app_nil_r.
  - apply NoDup_cons in Hnd as [Hhd Hnd].
    unfold entries. cbn [omap list_omap]. fold (entries fuel text rules).
    unfold apply_rule in H. unfold entry_of, survivors.
    destruct (exec_loop fuel text rule 0 []) as [[|m0 found]|]; [| |discriminate].
    + apply IH; [exact Hnd| |exact H]. intros r Hr. apply Hfresh. now right.
    + rewrite map_set_fresh in H by (apply Hfresh; now left).
      apply IH in H; [rewrite H, <- app_assoc; reflexivity|exact Hnd|].
      intros r Hr. rewrite map_app, in_app_iff. simpl. intros [Hin|[Heq|[]]].
      * eapply Hfresh; [right; exact Hr|exact Hin].
      * apply Hhd. rewrite Heq. apply list_elem_of_In, in_map. exact Hr.
Qed.


End DistinctNames.

(** ** detectPatterns with the rules of the catalogue *)

Section CatalogFacts.
Import JsString Number Detection DetectionSpec Rx RxSpec Catalog CatalogSpec Sample.

Variable ToNumber : string -> number.
Variable parseFloat : string -> number.

Lemma PATTERN_RULES_names :
  map PatternRule.name (PATTERN_RULES ToNumber parseFloat) =
  ["labeled_account_numbers"; "alphanumeric_codes"; "numeric_accounts";
   "labeled_customer_names"; "couple_names"; "formal_names"; "all_caps_names";
   "slash_dates"; "dash_dates"; "written_dates"; "dollar_amounts"; "decimal_amounts";
   "street_addresses"; "zip_codes"; "phone_numbers"; "email_addresses"].
Proof. reflexivity. Qed.

Lemma PATTERN_RULES_distinct : NoDup (map PatternRule.name (PATTERN_RULES ToNumber parseFloat)).
Proof.
  rewrite PATTERN_RULES_names. apply (bool_decide_unpack _). vm_compute. reflexivity.
Qed.

(** Every pattern of the catalogue has the [g] flag and needs at least one
    character, so that it is advancing in every text. *)
Lemma PATTERN_RULES_advancing text :
  Forall (fun rule => RegExp.global (PatternRule.regex rule) = true /\
                      advancing text (PatternRule.regex rule))
         (PATTERN_RULES ToNumber parseFloat).
Proof.
  unfold PATTERN_RULES.
  repeat constructor; apply regexp_advancing; vm_compute; lia.
Qed.

(** X19. With the rules of the catalogue, whatever [Number] and
    [parseFloat] return, the loop of every rule is left after at most
    [length text + 2] evaluations of its condition, and [detectPatterns]
    returns one entry for each rule that is left with a match, in the
    order of the catalogue. *)
Theorem detectPatterns_default_rules text :
  let rules := PATTERN_RULES ToNumber parseFloat in
  let fuel := String.length text + 2 in
  Forall (fun rule => exists ms, survivors fuel text rule = Some ms) rules /\
  detectPatterns fuel text rules = Some (entries fuel text rules).
Proof.
  intros rules fuel. pose proof (PATTERN_RULES_advancing text) as Hadv. fold rules in Hadv.
  split.
  - eapply Forall_impl; [exact Hadv|]. intros rule [Hg Ha]. unfold survivors.
    apply (exec_loop_advancing text rule Hg Ha). unfold fuel. lia.
  - assert (exists results, detectPatterns fuel text rules = Some results) as [results H].
    { unfold detectPatterns. generalize (@nil (string * list PatternMatch.t)).
      induction Hadv as [|rule rest [Hg Ha] _ IH]; intros results; simpl; [eauto|].
      destruct (apply_rule_returns text rule results Hg Ha) as [r1 E].
      fold fuel in E. rewrite E. apply IH. }
    rewrite H. f_equal.
    apply (detect_rules_distinct fuel text rules [] results); [|intros ? _ []|exact H].
    apply PATTERN_RULES_distinct.
Qed.

End CatalogFacts.


(** ** The validators of the catalogue *)

Section DateValidator.
Import JsString Number Rx Catalog CatalogSpec.

Lemma split_by_not_nil (p : ascii -> bool) (s : string) : split_by p s <> [].
Proof.
  induction s as [|c s IH]; simpl; [discriminate|].
  destruct (p c); [discriminate|]. destruct (split_by p s); discriminate.
Qed.

Lemma split_by_solid (p : ascii -> bool) (s : string) :
  Synthesis.all_chars (fun c => negb (p c)) s = true -> split_by p s = [s].
Proof.
  induction s as [|c s IH]; simpl; [reflexivity|].
  intros H. apply andb_prop in H as [Hc H]. apply negb_true_iff in Hc.
  rewrite Hc, IH by exact H. reflexivity.
Qed.

Lemma split_by_app (p : ascii -> bool) (a : string) (c : ascii) (b : string) :
  Synthesis.all_chars (fun c => negb (p c)) a = true -> p c = true ->
  split_by p (a +:+ String c b) = a :: split_by p b.
Proof.
  intros Ha Hc. induction a as [|x a IH].
  - rewrite append_empty. simpl. now rewrite Hc.
  - rewrite append_cons. simpl in Ha |- *.
    apply andb_prop in Ha as [Hx Ha]. apply negb_true_iff in Hx.
    rewrite Hx, IH by exact Ha. reflexivity.
Qed.

Lemma digit_not_separator (c : ascii) :
  is_digit c = true -> negb (any_of "-/" c) = true.
Proof.
  destruct c as [[] [] [] [] [] [] [] []]; vm_compute; congruence.
Qed.

Lemma digit_value_range (c : ascii) :
  is_digit c = true -> (0 <= digit_value c <= 9)%Z.
Proof.
  destruct c as [[] [] [] [] [] [] [] []]; vm_compute; intuition congruence.
Qed.

Lemma digits_value_from_split (s : string) : forall acc : Z,
  Synthesis.all_chars is_digit s = true ->
  (digits_value_from acc s
   = acc * 10 ^ Z.of_nat (String.length s) + digits_value_from 0 s /\
   0 <= digits_value_from 0 s < 10 ^ Z.of_nat (String.length s))%Z.
Proof.
  induction s as [|c s IH]; intros acc H.
  - simpl. lia.
  - simpl in H. apply andb_prop in H as [Hc H].
    pose proof (digit_value_range c Hc) as Hd.
    cbn [digits_value_from String.length].
    destruct (IH (10 * acc + digit_value c)%Z H) as [E1 _].
    destruct (IH (10 * 0 + digit_value c)%Z H) as [E2 Hb].
    rewrite E1, E2. rewrite Nat2Z.inj_succ, Z.pow_succ_r by lia.
    split; [ring|]. nia.
Qed.

Lemma digits_value_small (s : string) :
  Synthesis.all_chars is_digit s = true -> String.length s <= 4 ->
  (0 <= digits_value s < 10000)%Z.
Proof.
  intros H Hl. destruct (digits_value_from_split s 0%Z H) as [_ Hb].
  unfold digits_value.
  assert (10 ^ Z.of_nat (String.length s) <= 10 ^ 4)%Z
    by (apply Z.pow_le_mono_r; lia).
  lia.
Qed.

(** The comparisons of [isValidDate] on the numbers below 10000. *)
Lemma compare_small (n c : Z) :
  (0 <= n < 10000)%Z -> In c [1; 12; 31; 1900; 2100]%Z ->
  ltb (of_Z n) (of_Z c) = (n <? c)%Z /\ ltb (of_Z c) (of_Z n) = (c <? n)%Z.
Proof.
  intros Hn Hc.
  assert (forallb (fun n =>
            forallb (fun c =>
              Bool.eqb (ltb (of_Z n) (of_Z c)) (n <? c)%Z &&
              Bool.eqb (ltb (of_Z c) (of_Z n)) (c <? n)%Z)
            [1; 12; 31; 1900; 2100]%Z)
          (map Z.of_nat (seq 0 (100 * 100))) = true) as Hall
    by (vm_compute; reflexivity).
  rewrite forallb_forall in Hall.
  assert (In n (map Z.of_nat (seq 0 (100 * 100)))) as Hin.
  { apply in_map_iff. exists (Z.to_nat n). split; [lia|]. apply in_seq. lia. }
  apply Hall in Hin. rewrite forallb_forall in Hin. apply Hin in Hc.
  apply andb_prop in Hc as [H1 H2].
  apply Bool.eqb_prop in H1, H2. auto.
Qed.

(** X20. For the texts that the two date patterns match -- three runs of
    at most four digits between [/] or [-] -- and a [Number] that reads a
    run of digits as its decimal value, [isValidDate] accepts the text
    exactly when the month is in 1..12, the day in 1..31 and the year in
    1900..2100.  A year of two or three digits, which the patterns match,
    is never accepted. *)
Theorem isValidDate_digits (ToNumber : string -> number) (sep1 sep2 : ascii)
    (mo d y : string) :
  reads_digits ToNumber ->
  any_of "-/" sep1 = true -> any_of "-/" sep2 = true ->
  Synthesis.all_chars is_digit mo = true ->
  Synthesis.all_chars is_digit d = true ->
  Synthesis.all_chars is_digit y = true ->
  String.length mo <= 4 -> String.length d <= 4 -> String.length y <= 4 ->
  let text := mo +:+ String sep1 (d +:+ String sep2 y) in
  isValidDate ToNumber text
  = in_Z_range 1 12 (digits_value mo) && in_Z_range 1 31 (digits_value d) &&
    in_Z_range 1900 2100 (digits_value y) /\
  (String.length y <= 3 -> isValidDate ToNumber text = false).
Proof.
  intros Hnum Hs1 Hs2 Hmo Hd Hy Lmo Ld Ly text.
  assert (forall s, Synthesis.all_chars is_digit s = true ->
            Synthesis.all_chars (fun c => negb (any_of "-/" c)) s = true) as Hsolid.
  { intros s. apply all_chars_weaken. exact digit_not_separator. }
  assert (split_by (any_of "-/") text = [mo; d; y]) as Hparts.
  { unfold text. rewrite split_by_app by auto. rewrite split_by_app by auto.
    rewrite split_by_solid by auto. reflexivity. }
  assert (isValidDate ToNumber text
          = in_Z_range 1 12 (digits_value mo) && in_Z_range 1 31 (digits_value d) &&
            in_Z_range 1900 2100 (digits_value y)) as E.
  { unfold isValidDate. rewrite Hparts. cbn [List.length Nat.eqb negb nth].
    rewrite !Hnum by assumption.
    pose proof (digits_value_small mo Hmo Lmo) as Bmo.
    pose proof (digits_value_small d Hd Ld) as Bd.
    pose proof (digits_value_small y Hy Ly) as By.
    destruct (compare_small (digits_value mo) 1 Bmo) as [-> _]; [simpl; auto|].
    destruct (compare_small (digits_value mo) 12 Bmo) as [_ ->]; [simpl; auto|].
    destruct (compare_small (digits_value d) 1 Bd) as [-> _]; [simpl; auto|].
    destruct (compare_small (digits_value d) 31 Bd) as [_ ->]; [simpl; auto|].
    destruct (compare_small (digits_value y) 1900 By) as [-> _]; [simpl; auto 6|].
    destruct (compare_small (digits_value y) 2100 By) as [_ ->]; [simpl; auto 6|].
    unfold in_Z_range.
    repeat match goal with
           | |- context [(?a <? ?b)%Z] => destruct (Z.ltb_spec a b)
           | |- context [(?a <=? ?b)%Z] => destruct (Z.leb_spec a b)
           end; simpl; try reflexivity; lia. }
  split; [exact E|].
  intros Ly3. rewrite E.
  destruct (digits_value_from_split y 0%Z Hy) as [_ Hb]. fold (digits_value y) in Hb.
  assert (10 ^ Z.of_nat (String.length y) <= 10 ^ 3)%Z
    by (apply Z.pow_le_mono_r; lia).
  assert (in_Z_range 1900 2100 (digits_value y) = false) as ->.
  { unfold in_Z_range. apply andb_false_iff. left. apply Z.leb_gt. lia. }
  apply andb_false_r.
Qed.

Lemma isValidDate_digits_witness :
  let ToNumber := fun s => of_Z (digits_value s) in
  (isValidDate ToNumber "01/15/24"
   = in_Z_range 1 12 (digits_value "01") && in_Z_range 1 31 (digits_value "15") &&
     in_Z_range 1900 2100 (digits_value "24")) /\
  (String.length "24" <= 3 -> isValidDate ToNumber "01/15/24" = false).
Proof.
  intros ToNumber.
  apply (isValidDate_digits ToNumber "/" "/" "01" "15" "24");
    try reflexivity; try (simpl; lia).
  intros s _. reflexivity.
Defined.

End DateValidator.


(** *** Anchored patterns and the number filter *)

Section NumberValidator.
Import JsString Number Rx RxSpec Catalog CatalogSpec.

Implicit Types (r : rx) (k : cont) (s x y z : st).

Lemma rep_loop_bounded (body : cont -> cont) (n : nat) :
  bounded body n ->
  forall fuel lo h k x z,
    rep_loop body k fuel lo (Some h) x = Some z ->
    exists y, k y = Some z /\ ahead x y /\ pos y <= pos x + h * n.
Proof.
  intros Hb. induction fuel as [|fuel IH]; intros lo h k x z H.
  - destruct h as [|h]; simpl in H; [|discriminate].
    exists x. split; [exact H|]. split; [apply ahead_refl|lia].
  - destruct h as [|h]; simpl in H.
    + exists x. split; [exact H|]. split; [apply ahead_refl|lia].
    + assert (forall y, ahead x y ->
                rep_loop body k fuel (Nat.pred lo) (Some h) y = Some z ->
                exists y', k y' = Some z /\ ahead x y' /\ pos y' <= pos y + h * n) as Hd.
      { intros y Hy Hr. apply IH in Hr as (y' & Hk & Ha & Hp).
        exists y'. split; [exact Hk|]. split; [eapply ahead_trans; eauto|exact Hp]. }
      destruct (lo =? 0).
      * destruct (body _ x) as [z'|] eqn:Eb.
        -- injection H as ->. apply Hb in Eb as (y & Hy & Ha & Hp).
           destruct (_ && _); [discriminate|].
           apply (Hd y Ha) in Hy as (y' & Hk & Ha' & Hp').
           exists y'. split; [exact Hk|]. split; [exact Ha'|lia].
        -- exists x. split; [exact H|]. split; [apply ahead_refl|lia].
      * apply Hb in H as (y & Hy & Ha & Hp). simpl in Hy.
        apply (Hd y Ha) in Hy as (y' & Hk & Ha' & Hp').
        exists y'. split; [exact Hk|]. split; [exact Ha'|lia].
Qed.

(** A match of [r] consumes at most [max_len r] characters. *)
Lemma m_bounded r : forall n, max_len r = Some n -> bounded (m r) n.
Proof.
  induction r as [|p|a IHa b IHb|a IHa b IHb|lo hi r IH| | | |r IH];
    intros n Hn k s z H; simpl in Hn, H.
  - exists s. split; [exact H|]. split; [apply ahead_refl|lia].
  - injection Hn as <-. destruct (rest s) as [|c t] eqn:Er; [discriminate|].
    destruct (p c); [|discriminate].
    eexists. split; [exact H|]. unfold ahead. simpl. rewrite Er. simpl. lia.
  - destruct (max_len a) as [na|]; [|discriminate].
    destruct (max_len b) as [nb|]; [|discriminate]. injection Hn as <-.
    apply (IHa na eq_refl) in H as (y & H & Ha & Hp).
    apply (IHb nb eq_refl) in H as (y' & H & Ha' & Hp').
    exists y'. split; [exact H|]. split; [eapply ahead_trans; eauto|lia].
  - destruct (max_len a) as [na|]; [|discriminate].
    destruct (max_len b) as [nb|]; [|discriminate]. injection Hn as <-.
    destruct (m a k s) as [z'|] eqn:Ea.
    + injection H as ->. apply (IHa na eq_refl) in Ea as (y & H & Ha & Hp).
      exists y. split; [exact H|]. split; [exact Ha|lia].
    + apply (IHb nb eq_refl) in H as (y & H & Ha & Hp).
      exists y. split; [exact H|]. split; [exact Ha|lia].
  - destruct hi as [h|]; [|discriminate].
    destruct (max_len r) as [nr|]; [|discriminate]. injection Hn as <-.
    eapply rep_loop_bounded in H; [exact H|]. now apply IH.
  - injection Hn as <-. destruct (xorb _ _); [|discriminate].
    exists s. split; [exact H|]. split; [apply ahead_refl|lia].
  - injection Hn as <-. destruct (prev s); [discriminate|].
    exists s. split; [exact H|]. split; [apply ahead_refl|lia].
  - injection Hn as <-. destruct (rest s); [|discriminate].
    exists s. split; [exact H|]. split; [apply ahead_refl|lia].
  - apply (IH n Hn) in H as (y & H & Ha & Hp).
    eexists. split; [exact H|]. unfold ahead in *. simpl. lia.
Qed.

Lemma search_at_bol r : forall (t : string) c i, search_at (Seq Bol r) (Some c) t i = None.
Proof. induction t as [|c' t IH]; intros c i; simpl; [reflexivity|apply IH]. Qed.

(** A pattern that starts with [^] is tried at index 0 only. *)
Lemma test_anchored r (text : string) :
  test (Seq Bol r) text
  = match m r Some (start_of text) with Some _ => true | None => false end.
Proof.
  unfold test, search. simpl. unfold start_of.
  destruct text as [|c t]; simpl.
  - now destruct (m r Some _).
  - destruct (m r Some _); [reflexivity|]. now rewrite search_at_bol.
Qed.

(** The text that [^AB$] accepts is as long as a match of [A] and a match
    of [B]. *)
Lemma test_anchored_length (a b : rx) (text : string) :
  test (seqs [Bol; a; b; Eol]) text = true ->
  min_len a + min_len b <= String.length text /\
  forall na nb, max_len a = Some na -> max_len b = Some nb ->
                String.length text <= na + nb.
Proof.
  unfold seqs. cbn [foldr]. rewrite test_anchored.
  change (m (Seq a (Seq b (Seq Eol Eps))) Some (start_of text))
    with (m a (m (Seq b (Seq Eol Eps)) Some) (start_of text)).
  destruct (m a (m (Seq b (Seq Eol Eps)) Some) (start_of text)) as [z|] eqn:E;
    [intros _|intros; discriminate].
  pose proof E as E'.
  apply m_progresses in E as (y1 & E & Hp1 & Hl1).
  change (m b (m (Seq Eol Eps) Some) y1 = Some z) in E.
  apply m_progresses in E as (y2 & E & Hp2 & Hl2).
  simpl in E. destruct (rest y2) eqn:Er; [|discriminate]. simpl in *.
  split; [lia|]. intros na nb Ha Hb.
  destruct (m_bounded a na Ha _ _ _ E') as (x1 & E1 & Hx1 & Hq1).
  change (m b (m (Seq Eol Eps) Some) x1 = Some z) in E1.
  destruct (m_bounded b nb Hb _ _ _ E1) as (x2 & E2 & Hx2 & Hq2).
  simpl in E2. destruct (rest x2) eqn:Er'; [|discriminate].
  destruct Hx1 as [_ Hx1]. destruct Hx2 as [_ Hx2]. rewrite Er' in Hx2. simpl in *. lia.
Qed.

(** Only a text of four or of ten characters is a common number. *)
Lemma isCommonNumber_length (num : string) :
  isCommonNumber num = true -> String.length num = 4 \/ String.length num = 10.
Proof.
  unfold isCommonNumber, commonPatterns. cbn [existsb].
  rewrite !orb_true_iff. intros [H|[H|[H|[H|H]]]]; [| | | |discriminate];
    apply test_anchored_length in H as [H1 H2];
    specialize (H2 _ _ eq_refl eq_refl); cbn in H1, H2; lia.
Qed.

Lemma feed_rest (n : nat) : forall s,
  n <= String.length (rest s) ->
  rest (feed s n) = drop n (rest s) /\ pos (feed s n) = pos s + n.
Proof.
  induction n as [|n IH]; intros s H; simpl.
  - split; [now destruct (rest s)|lia].
  - destruct (rest s) as [|c t] eqn:Er; simpl in H; [lia|].
    destruct (IH {| pos := S (pos s); prev := Some c; rest := t; cap := cap s |}) as [E1 E2];
      [simpl; lia|].
    rewrite E1, E2. simpl. split; [reflexivity|lia].
Qed.

(** A literal matches when the text goes on with it. *)
Lemma m_lit (w : string) k : forall s,
  m (lit false w) k s
  = if starts_with w (rest s) then k (feed s (String.length w)) else None.
Proof.
  induction w as [|c w IH]; intros s.
  - simpl. now destruct (rest s).
  - cbn [lit m String.length feed]. destruct (rest s) as [|x t]; [reflexivity|].
    cbn [starts_with]. destruct (Ascii.eqb c x); [|reflexivity]. rewrite IH. reflexivity.
Qed.

(** Alternatives that are literals of one length. *)
Lemma m_alts_lits (n : nat) k s : forall ws : list string,
  ws <> [] -> Forall (fun w => String.length w = n) ws ->
  m (alts (map (lit false) ws)) k s
  = if existsb (fun w => starts_with w (rest s)) ws then k (feed s n) else None.
Proof.
  induction ws as [|w ws IH]; intros Hne Hlen; [congruence|].
  apply Forall_cons in Hlen as [Hw Hlen].
  destruct ws as [|w' ws].
  - cbn [map alts existsb]. rewrite m_lit, Hw, orb_false_r. reflexivity.
  - change (alts (map (lit false) (w :: w' :: ws)))
      with (Alt (lit false w) (alts (map (lit false) (w' :: ws)))).
    cbn [m]. rewrite m_lit, Hw, IH by (congruence || assumption).
    change (existsb (fun w0 => starts_with w0 (rest s)) (w :: w' :: ws))
      with (starts_with w (rest s) || existsb (fun w0 => starts_with w0 (rest s)) (w' :: ws)).
    destruct (starts_with w (rest s)); [|reflexivity].
    cbn [orb]. destruct (k (feed s n)) eqn:Ek; [reflexivity|].
    destruct (existsb _ (w' :: ws)); reflexivity.
Qed.

(** Exactly [n] characters of a class. *)
Lemma rep_loop_exact (p : ascii -> bool) k (n : nat) : forall fuel s,
  n < fuel -> n <= String.length (rest s) ->
  Synthesis.all_chars p (take n (rest s)) = true ->
  rep_loop (m (Chr p)) k fuel n (Some n) s = k (feed s n).
Proof.
  induction n as [|n IH]; intros fuel s Hf Hl Hp.
  - destruct fuel; reflexivity.
  - destruct fuel as [|fuel]; [lia|]. cbn [rep_loop Nat.eqb m feed].
    destruct (rest s) as [|c t] eqn:Er; simpl in Hl; [lia|].
    simpl in Hp. apply andb_prop in Hp as [-> Hp].
    cbn [andb Nat.pred option_map]. apply IH; simpl; [lia|lia|exact Hp].
Qed.

Lemma digits_only (s : string) :
  Synthesis.all_chars is_digit
    (Synthesis.replace_chars (fun c => negb (is_digit c)) "" s) = true.
Proof.
  induction s as [|c s IH]; simpl; [reflexivity|].
  destruct (is_digit c) eqn:E; simpl; [now rewrite E|exact IH].
Qed.

Lemma all_chars_drop (p : ascii -> bool) (k : nat) : forall w : string,
  Synthesis.all_chars p w = true -> Synthesis.all_chars p (drop k w) = true.
Proof.
  induction k as [|k IH]; intros [|c w] H; simpl in *; try reflexivity; [exact H|].
  apply andb_prop in H as [_ H]. now apply IH.
Qed.

Lemma drop_whole (k : nat) : forall w : string, String.length w <= k -> drop k w = "".
Proof.
  induction k as [|k IH]; intros [|c w] H; simpl in *; try reflexivity; [lia|].
  apply IH. lia.
Qed.

(** A number of ten digits is common when it starts with one of the nine
    prefixes. *)
Lemma isCommonNumber_ten (num : string) :
  String.length num = 10 -> Synthesis.all_chars is_digit num = true ->
  isCommonNumber num = existsb (fun w => starts_with w num) phone_prefixes.
Proof.
  intros Hl Hd. unfold isCommonNumber, commonPatterns. cbn [existsb].
  repeat match goal with
  | |- context [test (seqs [Bol; ?a; ?b; Eol]) num] =>
      let Ht := fresh "Ht" in
      destruct (test (seqs [Bol; a; b; Eol]) num) eqn:Ht;
      [apply test_anchored_length in Ht as [_ Ht];
       specialize (Ht _ _ eq_refl eq_refl); cbn in Ht; lia|];
      clear Ht
  end.
  cbn [orb]. rewrite orb_false_r.
  unfold seqs. cbn [foldr]. rewrite test_anchored.
  match goal with
  | |- context [m (Seq ?a ?b) Some ?s] =>
      change (m (Seq a b) Some s) with (m a (m b Some) s)
  end.
  rewrite (m_alts_lits 3) by (try discriminate; repeat constructor).
  change (rest (start_of num)) with num. fold phone_prefixes.
  destruct (existsb (fun w => starts_with w num) phone_prefixes); [|reflexivity].
  destruct (feed_rest 3 (start_of num)) as [E1 E2]; [simpl; lia|].
  change (rest (start_of num)) with num in E1.
  match goal with
  | |- context [m (Seq (rng 7 7 digit) ?b) Some ?s] =>
      change (m (Seq (rng 7 7 digit) b) Some s)
        with (rep_loop (m (Chr is_digit)) (m b Some) (7 + String.length (rest s) + 1) 7 (Some 7) s)
  end.
  rewrite rep_loop_exact; rewrite ?E1, ?length_drop, ?Hl; try lia.
  - destruct (feed_rest 7 (feed (start_of num) 3)) as [E3 E4];
      [rewrite E1, length_drop; lia|].
    rewrite E1, drop_drop, drop_whole in E3 by lia.
    cbn [m]. rewrite E3. reflexivity.
  - apply all_chars_take, all_chars_drop, Hd.
Qed.

(** X21. The validator of [numeric_accounts] keeps a match with 6 to 15
    digits unless it has exactly ten digits and starts with one of the
    nine prefixes of [isCommonNumber]: the filters for years, dates and
    times of day need four digits and never reject a match. *)
Theorem valid_numeric_rejects_prefixes_only (match_ : string) :
  let num := Synthesis.replace_chars (fun c => negb (is_digit c)) "" match_ in
  valid_numeric match_
  = (6 <=? String.length num) && (String.length num <=? 15) &&
    negb ((String.length num =? 10) && existsb (fun w => starts_with w num) phone_prefixes).
Proof.
  intros num. unfold valid_numeric. fold num.
  destruct (6 <=? String.length num) eqn:E6; [|reflexivity].
  destruct (String.length num <=? 15) eqn:E15; [|reflexivity].
  apply Nat.leb_le in E6, E15. cbn [andb]. f_equal.
  destruct (String.length num =? 10) eqn:E10.
  - apply Nat.eqb_eq in E10. cbn [andb].
    apply isCommonNumber_ten; [exact E10|apply digits_only].
  - apply Nat.eqb_neq in E10. cbn [andb].
    destruct (isCommonNumber num) eqn:E; [|reflexivity].
    apply isCommonNumber_length in E. lia.
Qed.

End NumberValidator.


(** ** detectPatterns: what is kept passed the validator *)

Section Validated.
Import JsString Number Detection DetectionSpec Sample.

Lemma exec_Some (r : RegExp.t) lastIndex text mo li :
  RegExp.exec r lastIndex text = (Some mo, li) ->
  exists start, start <= String.length text /\ RegExp.match_from r text start = Some mo.
Proof.
  unfold RegExp.exec. set (start := if RegExp.global r then lastIndex else 0).
  destruct (String.length text <? start) eqn:E; [discriminate|].
  apply Nat.ltb_ge in E.
  destruct (RegExp.match_from r text start) as [mo'|] eqn:Em; [|discriminate].
  intros H. injection H as <- _. eauto.
Qed.

Lemma exec_loop_accepted fuel text rule : forall lastIndex ms res,
  Forall (accepted_by text rule) ms ->
  exec_loop fuel text rule lastIndex ms = Some res ->
  Forall (accepted_by text rule) res.
Proof.
  induction fuel as [|fuel IH]; intros lastIndex ms res Hms H; simpl in H; [discriminate|].
  destruct (RegExp.exec (PatternRule.regex rule) lastIndex text) as [[mo|] li] eqn:Ex.
  - destruct (rejected rule (RegExp.value_of mo)) eqn:Er; [eapply IH; eauto|].
    assert (Forall (accepted_by text rule) (ms ++ [make_match text rule mo])) as Hms'.
    { apply Forall_app. split; [exact Hms|]. constructor; [|constructor].
      apply exec_Some in Ex as (start & Hs & Hm).
      exists mo, start. repeat split; try assumption.
      intros v Hv. unfold rejected in Er. rewrite Hv in Er.
      simpl. now apply negb_false_iff in Er. }
    destruct (negb (RegExp.global (PatternRule.regex rule))).
    + now injection H as <-.
    + eapply IH; eauto.
  - now injection H as <-.
Qed.

(** X22. Every match in the result of [detectPatterns] stands under the
    name of a rule of the list, was made from a match of that rule's
    pattern in the text, and has a value that the rule's validator, when
    the rule has one, accepted. *)
Theorem detectPatterns_matches_accepted fuel text (rules : list PatternRule.t) results
    k ms m :
  detectPatterns fuel text rules = Some results ->
  In (k, ms) results -> In m ms ->
  exists rule, In rule rules /\ PatternRule.name rule = k /\ accepted_by text rule m.
Proof.
  unfold detectPatterns. intros H.
  assert (forall results0 : Results,
            (forall k ms m, In (k, ms) results0 -> In m ms ->
               exists rule, In rule rules /\ PatternRule.name rule = k /\
                            accepted_by text rule m) ->
            forall sub results,
              incl sub rules ->
              detect_rules fuel text sub results0 = Some results ->
              forall k ms m, In (k, ms) results -> In m ms ->
                exists rule, In rule rules /\ PatternRule.name rule = k /\
                             accepted_by text rule m) as Hgen.
  { intros results0 Hinv sub. revert results0 Hinv.
    induction sub as [|rule sub IH]; intros results0 Hinv res Hincl Hres; simpl in Hres.
    - injection Hres as <-. exact Hinv.
    - destruct (apply_rule fuel text results0 rule) as [r1|] eqn:E; [|discriminate].
      apply (IH r1); [|intros x Hx; apply Hincl; now right|exact Hres].
      unfold apply_rule in E.
      destruct (exec_loop fuel text rule 0 []) as [found|] eqn:El; [|discriminate].
      apply exec_loop_accepted in El; [|constructor].
      destruct found as [|m0 found]; injection E as <-; [exact Hinv|].
      intros k' ms' m' Hk Hm.
      apply map_set_In in Hk as [Hk|[-> ->]]; [eapply Hinv; eauto|].
      exists rule. split; [apply Hincl; now left|]. split; [reflexivity|].
      assert (Forall (accepted_by text rule)
                (sort_by_confidence (removeDuplicates (m0 :: found)))) as Hall
        by now apply sort_by_confidence_Forall, removeDuplicates_from_Forall.
      rewrite List.Forall_forall in Hall. now apply Hall. }
  intros Hk Hm.
  eapply (Hgen [] (fun _ _ _ F => match F with end) rules results); eauto.
  intros x Hx; exact Hx.
Qed.

Lemma detectPatterns_matches_accepted_witness :
  exists rule, In rule [codes_rule] /\
               PatternRule.name rule = "alphanumeric_codes" /\
               accepted_by sample_text rule sample_match.
Proof.
  apply (detectPatterns_matches_accepted 5 sample_text [codes_rule]
           [("alphanumeric_codes", [sample_match])] "alphanumeric_codes" [sample_match]).
  - vm_compute. reflexivity.
  - now left.
  - now left.
Defined.

End Validated.


(** ** discoverPatterns and generateSuggestions *)

Section DiscoveryFacts.
Import JsString Number Rx RxSpec Discovery.

Implicit Types (r : rx) (k : cont) (s x y z : st).

(** The fuel of [matchAll_from] is never used up. *)
Lemma matchAll_from_fuel r text : forall fuel1 fuel2 i,
  String.length text + 2 <= fuel1 + i ->
  String.length text + 2 <= fuel2 + i ->
  matchAll_from fuel1 r text i = matchAll_from fuel2 r text i.
Proof.
  assert (forall fuel i, String.length text < i -> matchAll_from fuel r text i = []) as Hout.
  { intros [|fuel] i Hi; [reflexivity|]. simpl. unfold search.
    apply Nat.ltb_lt in Hi. now rewrite Hi. }
  induction fuel1 as [|fuel1 IH]; intros fuel2 i H1 H2.
  - rewrite !Hout by lia. reflexivity.
  - destruct fuel2 as [|fuel2]; [rewrite !Hout by lia; reflexivity|].
    simpl. destruct (search r text i) as [[j z]|] eqn:E; [|reflexivity].
    apply rx_search_sound in E as (Hj & Hz & _). f_equal.
    destruct (pos z =? j) eqn:Ep.
    + apply Nat.eqb_eq in Ep. apply IH; lia.
    + apply Nat.eqb_neq in Ep. apply IH; lia.
Qed.

Lemma search_at_m r : forall (t : string) before i j z,
  search_at r before t i = Some (j, z) ->
  exists x, m r Some x = Some z /\ pos x = j /\ i <= j /\
            pos x + String.length (rest x) = i + String.length t.
Proof.
  induction t as [|c t IH]; intros before i j z H; simpl in H.
  - destruct (m r Some _) as [z'|] eqn:E; [|discriminate].
    injection H as <- <-. eexists. split; [exact E|]. simpl. lia.
  - destruct (m r Some _) as [z'|] eqn:E.
    + injection H as <- <-. eexists. split; [exact E|]. simpl. lia.
    + apply IH in H as (x & Hm & Hp & Hi & Hl). exists x. simpl. repeat split; [exact Hm|lia..].
Qed.

(** A pattern that ends with its group leaves the group set, holding at
    least one character that lies inside the match. *)
Lemma ends_in_group_cap r : ends_in_group r = true ->
  forall k s z, m r k s = Some z ->
  exists y a b, k y = Some z /\ cap y = Some (a, b) /\
                pos s <= a /\ a + 1 <= b /\ b <= pos y /\ ahead s y.
Proof.
  induction r as [|p|a IHa b IHb|a IHa b IHb|lo hi r IH| | | |g IH];
    intros Hr k s z H; try discriminate.
  - assert (ends_in_group b = true \/ (b = Eps /\ ends_in_group a = true)) as [Hb|[-> Ha]]
      by (simpl in Hr; destruct b; auto).
    + change (m a (m b k) s = Some z) in H.
      apply m_progresses in H as (y1 & H & Hp & Hl).
      apply (IHb Hb) in H as (y & a' & b' & Hk & Hc & H1 & H2 & H3 & H4).
      exists y, a', b'. destruct H4 as [H4 H5].
      repeat split; try assumption; lia.
    + change (m a (m Eps k) s = Some z) in H.
      apply (IHa Ha) in H as (y & a' & b' & Hk & Hc & H1 & H2 & H3 & H4).
      exists y, a', b'. repeat split; try assumption; apply H4.
  - change ((1 <=? min_len g) = true) in Hr. apply Nat.leb_le in Hr. simpl in H.
    apply m_progresses in H as (y & H & Hp & Hl).
    eexists _, (pos s), (pos y). split; [exact H|]. unfold ahead. simpl.
    repeat split; try reflexivity; lia.
Qed.

Lemma matchAll_from_captured r text : ends_in_group r = true ->
  forall fuel i, Forall (fun mo => captured (RegExp.group1 mo)) (matchAll_from fuel r text i).
Proof.
  intros Hr. induction fuel as [|fuel IH]; intros i; simpl; [constructor|].
  destruct (search r text i) as [[j z]|] eqn:E; [|constructor].
  constructor; [|apply IH].
  unfold search in E. destruct (String.length text <? i) eqn:Ei; [discriminate|].
  apply Nat.ltb_ge in Ei.
  apply search_at_m in E as (x & Hm & Hp & Hi & Hl). rewrite length_drop in Hl.
  apply (ends_in_group_cap r Hr) in Hm as (y & a & b & Hy & Hc & H1 & H2 & H3 & [H4 H5]).
  injection Hy as ->. simpl. rewrite Hc.
  exists (slice text a b). split; [reflexivity|].
  intros Hs. apply (f_equal String.length) in Hs.
  unfold slice in Hs. rewrite length_take, length_drop in Hs. simpl in Hs. lia.
Qed.

Lemma examples_unique_facts (l : list (option string)) : forall seen,
  NoDup (unique_from seen l) /\
  (forall e, In e (unique_from seen l) -> In e l /\ e ∉ seen) /\
  (l <> [] -> (forall e, In e l -> e ∉ seen) -> unique_from seen l <> []).
Proof.
  induction l as [|e l IH]; intros seen; simpl.
  - split; [apply NoDup_nil_2|]. split; [intros ? []|congruence].
  - destruct (decide (e ∈ seen)) as [Hin|Hout].
    + destruct (IH seen) as (H1 & H2 & H3). split; [exact H1|]. split.
      * intros e' He'. apply H2 in He' as [? ?]. auto.
      * intros _ Hall. exfalso. apply (Hall e); [now left|exact Hin].
    + destruct (IH ({[e]} ∪ seen)) as (H1 & H2 & H3). split; [|split].
      * apply NoDup_cons_2; [|exact H1]. intros He.
        apply list_elem_of_In, H2 in He as [_ He]. apply He.
        apply elem_of_union_l, elem_of_singleton. reflexivity.
      * intros e' [<-|He']; [auto|].
        apply H2 in He' as [? Hn]. split; [auto|].
        intros Hs. apply Hn. now apply elem_of_union_r.
      * discriminate.
Qed.

Lemma firstn_In_whole {A : Type} (e : A) : forall n (l : list A),
  In e (firstn n l) -> In e l.
Proof.
  induction n as [|n IH]; intros [|x l] H; simpl in *; try contradiction.
  destruct H as [H|H]; [now left|right; now apply IH].
Qed.

Lemma examples_of_facts (mo : RegExp.MatchArray) (l : list RegExp.MatchArray) :
  Forall (fun mo => captured (RegExp.group1 mo)) (mo :: l) ->
  let ex := examples_of (mo :: l) in
  1 <= List.length ex <= 5 /\ NoDup ex /\ Forall captured ex.
Proof.
  intros Hcap ex. unfold ex, examples_of, unique.
  destruct (examples_unique_facts (map RegExp.group1 (mo :: l)) ∅) as (H1 & H2 & H3).
  split; [|split].
  - rewrite List.length_firstn.
    assert (unique_from ∅ (map RegExp.group1 (mo :: l)) <> []) as Hne
      by (apply H3; [discriminate|intros; apply not_elem_of_empty]).
    destruct (unique_from ∅ (map RegExp.group1 (mo :: l))); [congruence|].
    cbn [List.length]. lia.
  - exact (sublist_NoDup _ _ H1 (sublist_take _ 5)).
  - apply List.Forall_forall. intros e He. apply firstn_In_whole in He.
    apply H2 in He as [He _]. apply in_map_iff in He as (mo' & <- & Hmo).
    rewrite List.Forall_forall in Hcap. now apply Hcap.
Qed.

Lemma sort_descending (l : list DiscoveredPattern) : descending l = true -> sort l = l.
Proof.
  induction l as [|x l IH]; [reflexivity|].
  intros H. unfold sort in *. cbn [foldr].
  destruct l as [|y l]; [reflexivity|].
  cbn [descending] in H. apply andb_prop in H as [Hxy H].
  rewrite IH by exact H. cbn [insert_sorted].
  apply negb_true_iff in Hxy. now rewrite Hxy.
Qed.

Lemma accountMatches_captured text :
  Forall (fun mo => captured (RegExp.group1 mo)) (accountMatches text).
Proof. repeat apply Forall_app_2; now apply matchAll_from_captured. Qed.

Lemma nameMatches_captured text :
  Forall (fun mo => captured (RegExp.group1 mo)) (nameMatches text).
Proof. repeat apply Forall_app_2; now apply matchAll_from_captured. Qed.

Lemma dateMatches_captured text :
  Forall (fun mo => captured (RegExp.group1 mo)) (dateMatches text).
Proof. repeat apply Forall_app_2; now apply matchAll_from_captured. Qed.

Lemma amountMatches_captured text :
  Forall (fun mo => captured (RegExp.group1 mo)) (amountMatches text).
Proof. repeat apply Forall_app_2; now apply matchAll_from_captured. Qed.

Lemma discoverPatterns_unsorted (text : string) :
  discoverPatterns text = found_patterns text.
Proof.
  unfold discoverPatterns. apply sort_descending. unfold found_patterns.
  destruct (accountMatches text), (nameMatches text), (dateMatches text),
    (amountMatches text); reflexivity.
Qed.

(** X23. For every text, the sort at the end of [discoverPatterns] moves
    nothing: the result lists the kinds for which a match was found in the
    order account, name, date, amount.  Each pattern returned has between
    one and five examples, pairwise distinct, and each example is a
    captured text of at least one character. *)
Theorem discoverPatterns_result (text : string) :
  discoverPatterns text = found_patterns text /\
  map type (discoverPatterns text)
  = map fst (filter (fun e => found (snd e)) (searched text)) /\
  Forall (fun p => 1 <= List.length (examples p) <= 5 /\ NoDup (examples p) /\
                   Forall captured (examples p))
         (discoverPatterns text).
Proof.
  rewrite discoverPatterns_unsorted. split; [reflexivity|]. split.
  - unfold found_patterns, searched.
    destruct (accountMatches text), (nameMatches text), (dateMatches text),
      (amountMatches text); reflexivity.
  - pose proof (accountMatches_captured text) as Ha.
    pose proof (nameMatches_captured text) as Hn.
    pose proof (dateMatches_captured text) as Hd.
    pose proof (amountMatches_captured text) as Hm.
    unfold found_patterns.
    destruct (accountMatches text), (nameMatches text), (dateMatches text),
      (amountMatches text); cbn [push_if_found app];
      repeat (constructor; [cbn [examples]; now apply examples_of_facts|]);
      constructor.
Qed.

(** X24. [generateSuggestions] applied to the result of [discoverPatterns]
    returns nothing exactly when a date or an amount was found but neither
    an account number nor a name; the advice to try another document is
    given exactly when nothing at all was found. *)
Theorem generateSuggestions_of_discovered (text : string) :
  let suggestions := generateSuggestions (discoverPatterns text) in
  (suggestions = [] <->
   accountMatches text = [] /\ nameMatches text = [] /\
   (dateMatches text <> [] \/ amountMatches text <> [])) /\
  (In "No clear patterns detected. Try a different document or adjust the analysis"
      suggestions <->
   accountMatches text = [] /\ nameMatches text = [] /\
   dateMatches text = [] /\ amountMatches text = []).
Proof.
  intros suggestions. unfold suggestions.
  rewrite discoverPatterns_unsorted. unfold found_patterns.
  destruct (accountMatches text), (nameMatches text), (dateMatches text),
    (amountMatches text); simpl;
    (split; split; intros H; intuition (discriminate || congruence)).
Qed.

End DiscoveryFacts.


(** ** togglePatternSelection *)

Section SelectionFacts.
Import Selection.

Lemma has_In (s : JsSet) (x : nat) : has s x = true <-> In x s.
Proof.
  unfold has. rewrite existsb_exists. split.
  - intros (y & Hy & E). apply Nat.eqb_eq in E. now subst.
  - intros H. exists x. split; [exact H|apply Nat.eqb_refl].
Qed.

Lemma delete_In (s : JsSet) (x y : nat) : In y (delete s x) <-> In y s /\ y <> x.
Proof.
  unfold delete. rewrite filter_In, negb_true_iff, Nat.eqb_neq. tauto.
Qed.

Lemma delete_absent (s : JsSet) (x : nat) : ~ In x s -> delete s x = s.
Proof.
  unfold delete. induction s as [|y s IH]; intros H; [reflexivity|].
  simpl. destruct (y =? x) eqn:E.
  - apply Nat.eqb_eq in E. subst. exfalso. apply H. now left.
  - simpl. f_equal. apply IH. intros Hs. apply H. now right.
Qed.

Lemma delete_app (s t : JsSet) (x : nat) : delete (s ++ t) x = delete s x ++ delete t x.
Proof. unfold delete. apply List.filter_app. Qed.

Lemma delete_NoDup (s : JsSet) (x : nat) : NoDup s -> NoDup (delete s x).
Proof.
  intros H. apply (sublist_NoDup _ s); [exact H|].
  unfold delete. induction s as [|y s IH]; simpl; [constructor|].
  apply NoDup_cons in H as [_ H].
  destruct (negb (y =? x)); [apply sublist_skip|apply sublist_cons]; now apply IH.
Qed.

(** X25. Toggling an index flips its membership in the selection and
    leaves every other index as it was, without duplicating an element.
    Toggling the same index twice gives the selection back as a set, but an
    index that was selected moves to the end of the iteration order. *)
Theorem togglePatternSelection_twice (s : JsSet) (index : nat) :
  NoDup s ->
  let once := togglePatternSelection s index in
  let twice := togglePatternSelection once index in
  NoDup once /\
  (forall j, In j once <-> if j =? index then ~ In j s else In j s) /\
  (forall j, In j twice <-> In j s) /\
  twice = if has s index then delete s index ++ [index] else s.
Proof.
  intros Hnd once twice. unfold twice, once, togglePatternSelection.
  destruct (has s index) eqn:Eh.
  - apply has_In in Eh.
    assert (has (delete s index) index = false) as Eh'.
    { destruct (has (delete s index) index) eqn:E; [|reflexivity].
      apply has_In, delete_In in E. tauto. }
    rewrite Eh'. unfold add. rewrite Eh'. repeat split.
    + now apply delete_NoDup.
    + intros H. apply delete_In in H. destruct (j =? index) eqn:Ej.
      * apply Nat.eqb_eq in Ej. tauto.
      * tauto.
    + intros H. apply delete_In. destruct (j =? index) eqn:Ej.
      * apply Nat.eqb_eq in Ej. subst. tauto.
      * apply Nat.eqb_neq in Ej. tauto.
    + rewrite in_app_iff, delete_In. simpl. intros [[H _]|[<-|[]]]; assumption.
    + rewrite in_app_iff, delete_In. simpl. intros H.
      destruct (Nat.eq_dec j index); [right; left; congruence|left; tauto].
  - assert (~ In index s) as Hout by (rewrite <- has_In; congruence).
    unfold add. rewrite Eh.
    assert (has (s ++ [index]) index = true) as Eh'
      by (apply has_In, in_app_iff; right; now left).
    rewrite Eh'. repeat split.
    + apply NoDup_app. split; [exact Hnd|]. split; [|apply NoDup_singleton].
      intros x Hx Hx'. apply list_elem_of_singleton in Hx'. subst.
      apply Hout. now apply list_elem_of_In.
    + rewrite in_app_iff. simpl. destruct (j =? index) eqn:Ej.
      * apply Nat.eqb_eq in Ej. subst. tauto.
      * apply Nat.eqb_neq in Ej. intros [H|[H|[]]]; [exact H|congruence].
    + rewrite in_app_iff. simpl. destruct (j =? index) eqn:Ej.
      * apply Nat.eqb_eq in Ej. subst. tauto.
      * tauto.
    + rewrite delete_In, in_app_iff. simpl. intros [[H|[H|[]]] Hne]; [exact H|congruence].
    + intros H. apply delete_In. split; [apply in_app_iff; now left|congruence].
    + rewrite delete_app, delete_absent by exact Hout.
      unfold delete. simpl. rewrite Nat.eqb_refl. simpl. apply app_nil_r.
Qed.

Lemma togglePatternSelection_twice_witness :
  NoDup (togglePatternSelection [2; 0; 1] 0) /\
  (forall j, In j (togglePatternSelection [2; 0; 1] 0)
             <-> if j =? 0 then ~ In j [2; 0; 1] else In j [2; 0; 1]) /\
  (forall j, In j (togglePatternSelection (togglePatternSelection [2; 0; 1] 0) 0)
             <-> In j [2; 0; 1]) /\
  togglePatternSelection (togglePatternSelection [2; 0; 1] 0) 0
  = if has [2; 0; 1] 0 then delete [2; 0; 1] 0 ++ [0] else [2; 0; 1].
Proof.
  apply (togglePatternSelection_twice [2; 0; 1] 0).
  apply (bool_decide_unpack _). vm_compute. reflexivity.
Defined.

End SelectionFacts.


(** ** cleanCustomerName *)

Section CleanNameFacts.
Import JsString Re Filename CleanName.

Lemma match_here_plus (p : ascii -> bool) (s : string) :
  match_here [plus p] false s
  = if run_length p None s =? 0 then None else Some (run_length p None s).
Proof.
  cbn [match_here plus cls rmin rmax].
  destruct (run_length p None s) as [|k]; [reflexivity|].
  cbn [try_down]. simpl. f_equal. lia.
Qed.

Lemma run_length_stop (p : ascii -> bool) : forall s : string,
  match drop (run_length p None s) s with
  | EmptyString => True
  | String c _ => p c = false
  end.
Proof.
  induction s as [|c s IH]; simpl; [exact I|].
  destruct (p c) eqn:E; simpl; [exact IH|exact E].
Qed.

Lemma search_from_plus (p : ascii -> bool) : forall s : string,
  match search_from [plus p] false s with
  | None => Synthesis.all_chars (fun c => negb (p c)) s = true
  | Some (i, n) =>
      Synthesis.all_chars (fun c => negb (p c)) (take i s) = true /\
      1 <= n /\ i + n <= String.length s /\ n = run_length p None (drop i s)
  end.
Proof.
  induction s as [|c s IH].
  - cbn [search_from]. rewrite match_here_plus. reflexivity.
  - cbn [search_from]. rewrite match_here_plus.
    destruct (run_length p None (String c s) =? 0) eqn:E0.
    + assert (p c = false) as Hc.
      { simpl in E0. destruct (p c); [discriminate|reflexivity]. }
      destruct (search_from [plus p] false s) as [[i n]|].
      * destruct IH as (H1 & H2 & H3 & H4). simpl. rewrite Hc. simpl.
        repeat split; try assumption; lia.
      * simpl. rewrite Hc. exact IH.
    + apply Nat.eqb_neq in E0.
      pose proof (run_length_le p (String c s) None).
      repeat split; try reflexivity; try lia.
Qed.

Lemma spaced_solid (s : string) :
  Synthesis.all_chars (fun c => negb (is_separator c)) s = true -> spaced s = true.
Proof.
  induction s as [|c s IH]; [reflexivity|]. simpl.
  intros H. apply andb_prop in H as [Hc H]. apply negb_true_iff in Hc.
  rewrite Hc. now apply IH.
Qed.

Lemma spaced_app_solid (a b : string) :
  Synthesis.all_chars (fun c => negb (is_separator c)) a = true ->
  spaced (a +:+ b) = spaced b.
Proof.
  induction a as [|c a IH]; [reflexivity|]. rewrite append_cons. simpl.
  intros H. apply andb_prop in H as [Hc H]. apply negb_true_iff in Hc.
  rewrite Hc. now apply IH.
Qed.

Lemma replace_separators_empty (fuel : nat) :
  replace_all_fuel fuel re_separators " " "" = "".
Proof. destruct fuel; reflexivity. Qed.

(** With enough fuel, the text in which every run of separators was
    replaced by a space is spaced, and starts as the text did. *)
Lemma replace_separators_spaced : forall (fuel : nat) (s : string),
  String.length s < fuel ->
  let out := replace_all_fuel fuel re_separators " " s in
  spaced out = true /\
  match s with
  | String c _ => is_separator c = false -> exists t, out = String c t
  | EmptyString => True
  end.
Proof.
  induction fuel as [|fuel IH]; intros s Hlen; [lia|].
  cbn zeta. cbn [replace_all_fuel]. unfold re_separators.
  pose proof (search_from_plus is_separator s) as Hs.
  destruct (search_from [plus is_separator] false s) as [[i n]|].
  - destruct Hs as (H1 & H2 & H3 & H4).
    assert ((n =? 0) = false) as -> by (apply Nat.eqb_neq; lia).
    assert (String.length (drop (i + n) s) < fuel) as Hl
      by (rewrite length_drop; lia).
    destruct (IH (drop (i + n) s) Hl) as [Hsp Hhd]. cbn zeta in Hsp, Hhd.
    fold re_separators.
    set (out := replace_all_fuel fuel re_separators " " (drop (i + n) s)) in *.
    split.
    + rewrite spaced_app_solid by exact H1.
      change (" " +:+ out) with (String " " out). cbn [spaced].
      change (is_separator " ") with true. cbv beta iota. rewrite Hsp, andb_true_r.
      pose proof (run_length_stop is_separator (drop i s)) as Hstop.
      rewrite <- H4, drop_drop in Hstop.
      destruct (drop (i + n) s) as [|c t] eqn:Ed.
      * unfold out. rewrite replace_separators_empty. reflexivity.
      * destruct (Hhd Hstop) as [t' ->]. simpl. now rewrite Hstop.
    + destruct s as [|c t]; [exact I|]. intros Hc.
      destruct i as [|i].
      * simpl in H4. rewrite Hc in H4. lia.
      * simpl. rewrite append_cons. eauto.
  - split; [now apply spaced_solid|]. destruct s; eauto.
Qed.

Lemma spaced_tail (c : ascii) (t : string) : spaced (String c t) = true -> spaced t = true.
Proof. simpl. intros H. now apply andb_prop in H as [_ H]. Qed.

Lemma spaced_trimStart (s : string) : spaced s = true -> spaced (trimStart s) = true.
Proof.
  induction s as [|c s IH]; [reflexivity|]. intros H. cbn [trimStart].
  destruct (is_space c); [|exact H]. apply IH. eapply spaced_tail, H.
Qed.

Lemma trimEnd_head (c : ascii) (t : string) :
  trimEnd (String c t) = "" \/ exists r, trimEnd (String c t) = String c r.
Proof.
  cbn [trimEnd]. destruct (trimEnd t); [|eauto].
  destruct (is_space c); eauto.
Qed.

Lemma spaced_trimEnd (s : string) : spaced s = true -> spaced (trimEnd s) = true.
Proof.
  induction s as [|c s IH]; [reflexivity|]. intros H.
  pose proof (spaced_tail _ _ H) as Ht. specialize (IH Ht).
  cbn [trimEnd]. destruct (trimEnd s) as [|b r] eqn:E.
  - destruct (is_space c); [reflexivity|]. cbn [spaced] in H |- *.
    apply andb_prop in H as [H _]. rewrite andb_true_r.
    destruct (is_separator c); [|reflexivity].
    apply andb_prop in H as [-> _]. reflexivity.
  - cbn [spaced] in H. apply andb_prop in H as [H _].
    change (spaced (String c (String b r)))
      with ((if is_separator c then Ascii.eqb c " " && negb (is_separator b) else true)
            && spaced (String b r)).
    rewrite IH, andb_true_r. destruct (is_separator c); [|reflexivity].
    apply andb_prop in H as [-> H]. simpl.
    destruct s as [|b' s']; [discriminate|].
    destruct (trimEnd_head b' s') as [E'|[r' E']]; rewrite E' in E; [discriminate|].
    injection E as <- _. exact H.
Qed.

(** X26. The name that [cleanCustomerName] returns is never empty, has no
    white space around it, and holds no underscore, dash, tab or line
    break: each of its separators is a single space between two other
    characters. *)
Theorem cleanCustomerName_tidy (name : string) :
  let r := cleanCustomerName name in
  r <> "" /\ trim r = r /\ spaced r = true.
Proof.
  intros r. unfold r, cleanCustomerName. cbv zeta.
  set (s := replace (re_month month_short) "" _).
  assert (spaced (trim (replace_all re_separators " " s)) = true) as Hsp.
  { unfold trim. apply spaced_trimEnd, spaced_trimStart.
    apply (replace_separators_spaced (S (String.length s)) s). lia. }
  unfold or_else in *.
  destruct (is_empty (trim (replace_all re_separators " " s))) eqn:E.
  - split; [discriminate|]. split; vm_compute; reflexivity.
  - apply is_empty_false in E. repeat split; [exact E|apply trim_idem|exact Hsp].
Qed.

End CleanNameFacts.

(* ===================================================================== *)
(** * The code against the words of the specification *)
(* ===================================================================== *)

(** ** Case folding and trimming *)

Section WordFacts.
Import JsString SpecWords.

Lemma ascii_in_range (a : ascii) : In (nat_of_ascii a) (seq 0 256).
Proof. apply in_seq. pose proof (nat_ascii_bounded a). lia. Qed.

(** Two characters have the same lower case exactly when they are the
    same letter. *)
Lemma lower_char_same_letter (a b : ascii) :
  Ascii.eqb (lower_char a) (lower_char b) = same_letter a b.
Proof.
  assert (forallb (fun i =>
            forallb (fun j =>
              Bool.eqb (Ascii.eqb (lower_char (ascii_of_nat i)) (lower_char (ascii_of_nat j)))
                       (same_letter (ascii_of_nat i) (ascii_of_nat j)))
              (seq 0 256))
            (seq 0 256) = true) as Hall by (vm_compute; reflexivity).
  rewrite forallb_forall in Hall. specialize (Hall _ (ascii_in_range a)).
  rewrite forallb_forall in Hall. specialize (Hall _ (ascii_in_range b)).
  rewrite !ascii_nat_embedding in Hall. now apply Bool.eqb_prop in Hall.
Qed.

Lemma toLowerCase_same_text (a : string) : forall b,
  toLowerCase a = toLowerCase b <-> same_text a b = true.
Proof.
  induction a as [|x a IH]; intros [|y b]; simpl; try (split; intros; discriminate).
  - split; reflexivity.
  - rewrite andb_true_iff, <- lower_char_same_letter, Ascii.eqb_eq, <- IH.
    split; [intros H; injection H; auto|intros [-> ->]; reflexivity].
Qed.

Lemma toLowerCase_app (a b : string) :
  toLowerCase (a +:+ b) = toLowerCase a +:+ toLowerCase b.
Proof.
  induction a as [|c a IH]; [reflexivity|].
  rewrite append_cons. simpl. rewrite append_cons. now rewrite IH.
Qed.

Lemma toLowerCase_split (s : string) : forall a b,
  toLowerCase s = a +:+ b ->
  exists a' b', s = a' +:+ b' /\ toLowerCase a' = a /\ toLowerCase b' = b.
Proof.
  induction s as [|c s IH]; intros a b H.
  - destruct a as [|x a]; [|rewrite append_cons in H; discriminate].
    rewrite append_empty in H. exists "", "". repeat split. exact H.
  - destruct a as [|x a].
    + rewrite append_empty in H. exists "", (String c s). repeat split. exact H.
    + rewrite append_cons in H. simpl in H. injection H as Hx H.
      apply IH in H as (a' & b' & -> & <- & <-).
      exists (String c a'), b'. rewrite append_cons. simpl. rewrite Hx. auto.
Qed.

Lemma trimStart_spaces (s : string) :
  Synthesis.all_chars is_space s = true -> trimStart s = "".
Proof.
  induction s as [|c s IH]; [reflexivity|]. simpl.
  intros H. apply andb_prop in H as [-> H]. now apply IH.
Qed.

Lemma trimEnd_spaces (s : string) :
  Synthesis.all_chars is_space s = true -> trimEnd s = "".
Proof.
  induction s as [|c s IH]; [reflexivity|]. simpl.
  intros H. apply andb_prop in H as [-> H]. now rewrite IH.
Qed.

Lemma trimStart_app_spaces (l x : string) :
  Synthesis.all_chars is_space l = true -> trimStart (l +:+ x) = trimStart x.
Proof.
  induction l as [|c l IH]; [reflexivity|]. rewrite append_cons. simpl.
  intros H. apply andb_prop in H as [-> H]. now apply IH.
Qed.

Lemma trimEnd_app_spaces (x r : string) :
  Synthesis.all_chars is_space r = true -> trimEnd (x +:+ r) = trimEnd x.
Proof.
  intros Hr. induction x as [|c x IH].
  - rewrite append_empty. now apply trimEnd_spaces.
  - rewrite append_cons. cbn [trimEnd]. now rewrite IH.
Qed.

Lemma trimStart_solid (w : string) : starts_solid w = true -> trimStart w = w.
Proof.
  destruct w as [|c w]; [discriminate|]. simpl.
  intros H. apply negb_true_iff in H. now rewrite H.
Qed.

Lemma trimEnd_solid (w : string) : ends_solid w = true -> trimEnd w = w.
Proof.
  induction w as [|a w IH]; [discriminate|].
  destruct w as [|b w].
  - simpl. intros H. apply negb_true_iff in H. now rewrite H.
  - intros H. change (ends_solid (String a (String b w))) with (ends_solid (String b w)) in H.
    cbn [trimEnd] in IH |- *. specialize (IH H).
    cbn [trimEnd] in IH. rewrite IH. reflexivity.
Qed.

Lemma trimStart_decompose (s : string) :
  exists l, s = l +:+ trimStart s /\ Synthesis.all_chars is_space l = true /\
            (trimStart s = "" \/ starts_solid (trimStart s) = true).
Proof.
  induction s as [|c s IH].
  - exists "". repeat split. now left.
  - cbn [trimStart]. destruct (is_space c) eqn:E.
    + destruct IH as (l & H1 & H2 & H3). exists (String c l).
      rewrite append_cons, <- H1. simpl. rewrite E. auto.
    + exists "". repeat split. right. simpl. now rewrite E.
Qed.

Lemma trimEnd_decompose (s : string) :
  exists r, s = trimEnd s +:+ r /\ Synthesis.all_chars is_space r = true /\
            (trimEnd s = "" \/ ends_solid (trimEnd s) = true).
Proof.
  induction s as [|c s IH].
  - exists "". repeat split. now left.
  - destruct IH as (r & H1 & H2 & H3). cbn [trimEnd].
    destruct (trimEnd s) as [|b t] eqn:E.
    + rewrite append_empty in H1. subst r.
      destruct (is_space c) eqn:Ec.
      * exists (String c s). rewrite append_empty. simpl. rewrite Ec. auto.
      * exists s. rewrite append_cons, append_empty. repeat split; [exact H2|].
        right. simpl. now rewrite Ec.
    + exists r. rewrite append_cons, <- H1. repeat split; [exact H2|].
      right. destruct H3 as [H3|H3]; [discriminate|exact H3].
Qed.

Lemma trimEnd_keeps_start (s : string) :
  starts_solid s = true -> starts_solid (trimEnd s) = true.
Proof.
  destruct s as [|c s]; [discriminate|]. simpl. intros H.
  destruct (trimEnd s); [|exact H].
  apply negb_true_iff in H. rewrite H. simpl. now rewrite H.
Qed.

(** [trim] gives the text without the white space around it, and nothing
    else does. *)
Lemma trim_stripped (s core : string) : stripped s core <-> trim s = core.
Proof.
  split.
  - intros (l & r & -> & Hl & Hr & Hc). unfold trim.
    rewrite trimStart_app_spaces by exact Hl.
    destruct Hc as [->|[H1 H2]].
    + rewrite append_empty, trimStart_spaces by exact Hr. reflexivity.
    + rewrite trimStart_solid.
      * rewrite trimEnd_app_spaces by exact Hr. now apply trimEnd_solid.
      * destruct core as [|c core]; [discriminate|]. rewrite append_cons. exact H1.
  - intros <-. unfold trim.
    destruct (trimStart_decompose s) as (l & H1 & H2 & H3).
    destruct (trimEnd_decompose (trimStart s)) as (r & H4 & H5 & H6).
    exists l, r. split; [rewrite <- H4; exact H1|]. repeat split; try assumption.
    destruct H3 as [H3|H3]; [left; now rewrite H3|].
    right. pose proof (trimEnd_keeps_start _ H3) as H7. split; [exact H7|].
    destruct H6 as [H6|H6]; [rewrite H6 in H7; discriminate|exact H6].
Qed.

End WordFacts.

(** ** performMatching: the join on the account number *)

Section JoinFacts.
Import JsString Matching SpecWords Sample.

(** Two account numbers get the same key exactly when they are the same
    up to case and surrounding white space. *)
Lemma normalize_same_account (a b : string) :
  normalize a = normalize b <-> same_account a b.
Proof.
  unfold normalize. rewrite <- !toLowerCase_trim, toLowerCase_same_text. split.
  - intros H. exists (trim a), (trim b). repeat split; try apply trim_stripped; auto.
  - intros (ca & cb & Ha & Hb & H). apply trim_stripped in Ha, Hb. now subst.
Qed.

(** C4. A record of the result is matched exactly when its customer is a
    record of the customer list whose account number is the segment's up
    to case and surrounding white space, and exactly when the list holds
    such a record at all; a matched customer is the one that the lookup
    holds for the segment.  When every customer record has a non-empty
    email, as have the records that the row validation of the CSV import
    lets through, a record is matched exactly when its customer has a
    non-empty email and is such a record of the list.  An unmatched
    record carries the segment's own account number and name with an
    empty email, and no customer of the list has the segment's account
    number. *)
Theorem matched_iff_join_hit pdfs cs (r : MatchedData.t) :
  In r (performMatching pdfs cs) ->
  (MatchedData.matched r = true <->
     In (MatchedData.customer r) cs /\
     same_account (CustomerData.accountNumber (MatchedData.customer r))
                  (PDFFile.accountNumber (MatchedData.pdf r))) /\
  (MatchedData.matched r = true <->
     exists c, In c cs /\
               same_account (CustomerData.accountNumber c)
                            (PDFFile.accountNumber (MatchedData.pdf r))) /\
  (Forall (fun c => CustomerData.email c <> "") cs ->
     (MatchedData.matched r = true <->
        CustomerData.email (MatchedData.customer r) <> "" /\
        In (MatchedData.customer r) cs /\
        same_account (CustomerData.accountNumber (MatchedData.customer r))
                     (PDFFile.accountNumber (MatchedData.pdf r)))) /\
  (forall rows, cs = Csv.parsedCustomers rows ->
     (MatchedData.matched r = true <->
        CustomerData.email (MatchedData.customer r) <> "" /\
        In (MatchedData.customer r) cs /\
        same_account (CustomerData.accountNumber (MatchedData.customer r))
                     (PDFFile.accountNumber (MatchedData.pdf r)))) /\
  (MatchedData.matched r = true ->
     customer_lookup cs !! normalize (PDFFile.accountNumber (MatchedData.pdf r))
       = Some (MatchedData.customer r)) /\
  (MatchedData.matched r = false ->
     CustomerData.accountNumber (MatchedData.customer r)
       = PDFFile.accountNumber (MatchedData.pdf r) /\
     CustomerData.email (MatchedData.customer r) = "" /\
     CustomerData.customerName (MatchedData.customer r)
       = PDFFile.customerName (MatchedData.pdf r) /\
     forall c, In c cs ->
       ~ same_account (CustomerData.accountNumber c)
                      (PDFFile.accountNumber (MatchedData.pdf r))).
Proof.
  intros Hin. rewrite performMatching_map in Hin.
  apply in_map_iff in Hin as (p & <- & _).
  assert (forall P : Prop,
             Forall (fun c => CustomerData.email c <> "") cs ->
             (MatchedData.matched (match_pdf (customer_lookup cs) p) = true <-> P) ->
             (MatchedData.matched (match_pdf (customer_lookup cs) p) = true <->
              CustomerData.email (MatchedData.customer (match_pdf (customer_lookup cs) p))
                <> "" /\ P)) as Hwith.
  { intros P Hemail HP. rewrite <- HP. split; [|tauto]. intros Hm. split; [|exact Hm].
    unfold match_pdf in *. simpl in *.
    destruct (customer_lookup cs !! normalize (PDFFile.accountNumber p)) as [c|] eqn:E;
      simpl in *; [|discriminate].
    apply customer_lookup_some in E as [Hc _].
    rewrite List.Forall_forall in Hemail. now apply Hemail. }
  assert (MatchedData.matched (match_pdf (customer_lookup cs) p) = true <->
          In (MatchedData.customer (match_pdf (customer_lookup cs) p)) cs /\
          same_account
            (CustomerData.accountNumber
               (MatchedData.customer (match_pdf (customer_lookup cs) p)))
            (PDFFile.accountNumber (MatchedData.pdf (match_pdf (customer_lookup cs) p))))
    as Hjoin.
  { unfold match_pdf. simpl.
    destruct (customer_lookup cs !! normalize (PDFFile.accountNumber p)) as [c|] eqn:E;
      simpl.
    - apply customer_lookup_some in E as [Hc Hk].
      split; [intros _|reflexivity]. split; [exact Hc|].
      apply normalize_same_account. exact Hk.
    - apply customer_lookup_none in E. rewrite List.Forall_forall in E.
      split; [discriminate|]. intros [Hc Hs]. exfalso.
      apply normalize_same_account in Hs. exact (E _ Hc Hs). }
  split; [exact Hjoin|].
  split.
  { unfold match_pdf. simpl.
    destruct (customer_lookup cs !! normalize (PDFFile.accountNumber p)) as [c|] eqn:E;
      simpl.
    - apply customer_lookup_some in E as [Hc Hk].
      split; [intros _|reflexivity]. exists c. split; [exact Hc|].
      apply normalize_same_account. exact Hk.
    - apply customer_lookup_none in E. rewrite List.Forall_forall in E.
      split; [discriminate|]. intros (c & Hc & Hs). exfalso.
      apply normalize_same_account in Hs. exact (E _ Hc Hs). }
  split; [intros Hemail; apply Hwith; [exact Hemail|exact Hjoin]|].
  split.
  { intros rows ->. apply Hwith; [apply parsedCustomers_emails|exact Hjoin]. }
  clear Hwith Hjoin. unfold match_pdf. simpl.
  destruct (customer_lookup cs !! normalize (PDFFile.accountNumber p)) as [c|] eqn:E; simpl.
  - split; [reflexivity|discriminate].
  - apply customer_lookup_none in E. rewrite List.Forall_forall in E.
    split; [discriminate|]. intros _. repeat split. intros c Hc Hs.
    apply normalize_same_account in Hs. exact (E c Hc Hs).
Qed.

Lemma matched_iff_join_hit_witness :
  let pdfs := [sample_pdf "may.pdf" "abc123 "; sample_pdf "other.pdf" "ZZZ999"] in
  let hit := {| MatchedData.pdf := sample_pdf "may.pdf" "abc123 ";
                MatchedData.customer :=
                  {| CustomerData.accountNumber := "ABC123";
                     CustomerData.email := "a@x.com";
                     CustomerData.customerName := "A" |};
                MatchedData.matched := true |} in
  let miss := {| MatchedData.pdf := sample_pdf "other.pdf" "ZZZ999";
                 MatchedData.customer :=
                   {| CustomerData.accountNumber := "ZZZ999";
                      CustomerData.email := "";
                      CustomerData.customerName := "Unknown" |};
                 MatchedData.matched := false |} in
  Forall (fun c => CustomerData.email c <> "") [sample_customer] /\
  performMatching pdfs [sample_customer] = [hit; miss] /\
  (CustomerData.email (MatchedData.customer hit) <> "" /\
   In (MatchedData.customer hit) [sample_customer] /\
   same_account "ABC123" "abc123 ") /\
  (forall c, In c [sample_customer] ->
     ~ same_account (CustomerData.accountNumber c) "ZZZ999") /\
  ~ (exists c, In c [sample_customer] /\
               same_account (CustomerData.accountNumber c) "ZZZ999").
Proof.
  intros pdfs hit miss.
  assert (Forall (fun c => CustomerData.email c <> "") [sample_customer]) as Hemail
    by (repeat constructor; discriminate).
  assert (performMatching pdfs [sample_customer] = [hit; miss]) as Hrun.
  { rewrite performMatching_map, customer_lookup_fold. simpl.
    unfold match_pdf, insert_customer, key_of. simpl.
    replace (normalize "abc123 ") with "abc123" by (vm_compute; reflexivity).
    replace (normalize "ABC123") with "abc123" by (vm_compute; reflexivity).
    replace (normalize "ZZZ999") with "zzz999" by (vm_compute; reflexivity).
    rewrite lookup_insert_eq, lookup_insert_ne by discriminate.
    rewrite lookup_empty. reflexivity. }
  assert (In hit (performMatching pdfs [sample_customer])) as Hhit
    by (rewrite Hrun; now left).
  assert (In miss (performMatching pdfs [sample_customer])) as Hmiss
    by (rewrite Hrun; right; now left).
  destruct (matched_iff_join_hit pdfs [sample_customer] hit Hhit)
    as (_ & _ & Hh & _).
  destruct (matched_iff_join_hit pdfs [sample_customer] miss Hmiss)
    as (_ & Hm & _ & _ & _ & Hp).
  split; [exact Hemail|]. split; [exact Hrun|].
  split; [exact (proj1 (Hh Hemail) eq_refl)|].
  split; [exact (proj2 (proj2 (proj2 (Hp eq_refl))))|].
  intros Hex. apply Hm in Hex. discriminate Hex.
Defined.

End JoinFacts.

(** ** calculateConfidence: the score in the words of the specification *)

Section ScoreFacts.
Import JsString Number Detection DetectionSpec SpecWords Scenario.

Lemma starts_with_iff (p : string) : forall s,
  starts_with p s = true <-> exists post, s = p +:+ post.
Proof.
  induction p as [|a p IH]; intros s.
  - simpl. split; [intros _; exists s; reflexivity|reflexivity].
  - destruct s as [|b s]; simpl.
    + split; [discriminate|]. intros [post H]. rewrite append_cons in H. discriminate.
    + rewrite andb_true_iff, Ascii.eqb_eq, IH. split.
      * intros [-> [post ->]]. exists post. now rewrite append_cons.
      * intros [post H]. rewrite append_cons in H. injection H as -> ->. eauto.
Qed.

(** [includes] finds the text at some place. *)
Lemma includes_iff (p : string) : forall s,
  includes p s = true <-> exists pre post, s = pre +:+ p +:+ post.
Proof.
  induction s as [|c s IH].
  - rewrite includes_empty, starts_with_iff. split.
    + intros [post H]. exists "", post. exact H.
    + intros (pre & post & H). destruct pre as [|x pre]; [|rewrite append_cons in H; discriminate].
      rewrite append_empty in H. eauto.
  - rewrite includes_cons, orb_true_iff, starts_with_iff, IH. split.
    + intros [[post H]|(pre & post & H)].
      * exists "", post. exact H.
      * exists (String c pre), post. rewrite append_cons. now rewrite H.
    + intros (pre & post & H). destruct pre as [|x pre].
      * left. exists post. exact H.
      * right. rewrite append_cons in H. injection H as _ H. eauto.
Qed.

(** The label test of the code is the one of the specification: a word of
    the vocabulary stands in the context, in any case. *)
Lemma hasLabel_iff (context : string) :
  hasLabel context = true <-> has_label_word context.
Proof.
  unfold hasLabel, has_label_word. rewrite existsb_exists.
  change labelWords with label_vocabulary.
  split; intros (word & Hword & H); exists word; (split; [exact Hword|]).
  - apply includes_iff in H as (pre & post & H).
    apply toLowerCase_split in H as (pre' & rest & -> & _ & H).
    apply toLowerCase_split in H as (w & post' & -> & H & _).
    exists pre', w, post'. split; [reflexivity|]. now apply toLowerCase_same_text.
  - destruct H as (pre & w & post & -> & H). apply toLowerCase_same_text in H.
    apply includes_iff. exists (toLowerCase pre), (toLowerCase post).
    now rewrite !toLowerCase_app, H.
Qed.

(** The substring that the code takes is the window of the
    specification. *)
Lemma context_window_window (text : string) (mo : RegExp.MatchArray) :
  context_window text mo
  = window text (RegExp.index mo) (String.length (RegExp.whole mo)).
Proof.
  unfold context_window, window, substring. cbv zeta.
  set (a := RegExp.index mo - 50).
  set (b := Nat.min (String.length text)
              (RegExp.index mo + String.length (RegExp.whole mo) + 50)).
  destruct (le_lt_dec a (String.length text)) as [Ha|Ha].
  - assert (a <= b) by (unfold a, b in *; lia).
    replace (Nat.min a (String.length text)) with a by lia.
    replace (Nat.min b (String.length text)) with b by (unfold b; lia).
    replace (Nat.max a b) with b by lia. replace (Nat.min a b) with a by lia.
    reflexivity.
  - assert (b = String.length text) as Hb by (unfold a, b in *; lia).
    replace (Nat.min a (String.length text)) with (String.length text) by lia.
    replace (Nat.min b (String.length text)) with (String.length text) by lia.
    rewrite Nat.max_id, Nat.min_id, Nat.sub_diag.
    replace (b - a) with 0 by lia. reflexivity.
Qed.

(** The shape test of the code is the strict shape of the specification. *)
Lemma letters_digits_iff (value : string) :
  Re.test re_letters_digits value = true <-> capitals_then_digits value.
Proof.
  unfold Re.test, Re.search, re_letters_digits. cbn [Re.anchor_start Re.atoms Re.anchor_end].
  split.
  - destruct (Re.match_here _ true value) as [n|] eqn:E; [intros _|discriminate].
    apply match_here_sound in E as (_ & Hc & Hn).
    rewrite (Hn eq_refl), take_all in Hc by lia.
    destruct Hc as (k1 & [Hk1 _] & Hl1 & A1 & k2 & [Hk2 _] & Hl2 & A2 & Hend).
    simpl in Hk1, Hk2, A1, A2, Hend.
    exists (take k1 value), (drop k1 value).
    rewrite take_drop. split; [reflexivity|].
    assert (take k2 (drop k1 value) = drop k1 value) as Ed.
    { rewrite <- (take_drop k2 (drop k1 value)) at 2. rewrite Hend. now rewrite append_empty_r. }
    rewrite Ed in A2. repeat split; try assumption.
    + intros H. apply (f_equal String.length) in H. rewrite length_take in H. simpl in H. lia.
    + intros H. rewrite H in Hl2. simpl in Hl2. lia.
  - intros (l & d & -> & Hl & Hd & Al & Ad).
    assert (Re.match_here [Re.plus is_upper; Re.plus is_digit] true (l +:+ d) <> None) as H;
      [|destruct (Re.match_here _ true (l +:+ d)); [reflexivity|congruence]].
    cbn [Re.match_here Re.plus Re.cls Re.rmin Re.rmax].
    apply (try_down_complete _ 1 (String.length l)).
    + destruct l; [congruence|simpl; lia].
    + apply run_length_ge; [|rewrite length_append; lia|exact I].
      rewrite take_app_length. exact Al.
    + cbv beta. rewrite drop_app_exact. cbn [Re.match_here Re.cls Re.rmin Re.rmax].
      apply (try_down_complete _ 1 (String.length d)).
      * destruct d; [congruence|simpl; lia].
      * apply run_length_ge; [|lia|exact I]. rewrite take_all by lia. exact Ad.
      * cbv beta. rewrite drop_all. simpl. discriminate.
Qed.

Lemma bad_length_iff (value : string) : bad_length value = true <-> outside_3_50 value.
Proof.
  unfold bad_length, outside_3_50. rewrite orb_true_iff, !Nat.ltb_lt. reflexivity.
Qed.

Lemma is_account_iff (ty : ValueType) : is_account ty = true <-> ty = account.
Proof. destruct ty; simpl; split; congruence. Qed.

(** The confidence that the code computes is the score of the
    specification. *)
Lemma calculateConfidence_scored (text : string) rule (mo : RegExp.MatchArray) :
  scored (PatternRule.priority rule) (PatternRule.type rule) (RegExp.value_of mo)
    (window text (RegExp.index mo) (String.length (RegExp.whole mo)))
    (calculateConfidence (RegExp.value_of mo) (context_window text mo) rule).
Proof.
  rewrite calculateConfidence_spec, context_window_window.
  eexists _, _, _. split; [apply hasLabel_iff|]. split; [|split; [apply bad_length_iff|reflexivity]].
  rewrite andb_true_iff, is_account_iff, letters_digits_iff. reflexivity.
Qed.

Lemma detect_rules_accepted fuel text (all : list PatternRule.t) :
  forall rules (results results' : Results),
  incl rules all ->
  (forall k ms m, In (k, ms) results -> In m ms ->
     exists rule, In rule all /\ PatternRule.name rule = k /\ accepted_by text rule m) ->
  detect_rules fuel text rules results = Some results' ->
  forall k ms m, In (k, ms) results' -> In m ms ->
    exists rule, In rule all /\ PatternRule.name rule = k /\ accepted_by text rule m.
Proof.
  induction rules as [|rule rules IH]; intros results results' Hincl Hinv H; simpl in H.
  - now injection H as <-.
  - destruct (apply_rule fuel text results rule) as [r1|] eqn:E; [|discriminate].
    apply (IH r1 results'); [intros x Hx; apply Hincl; now right| |exact H].
    unfold apply_rule in E.
    destruct (exec_loop fuel text rule 0 []) as [found|] eqn:El; [|discriminate].
    apply exec_loop_accepted in El; [|constructor].
    destruct found as [|m0 found]; injection E as <-; [exact Hinv|].
    intros k ms m Hk Hm.
    apply map_set_In in Hk as [Hk|[-> ->]]; [eapply Hinv; eauto|].
    exists rule. split; [apply Hincl; now left|]. split; [reflexivity|].
    assert (Forall (accepted_by text rule)
              (sort_by_confidence (removeDuplicates (m0 :: found)))) as Hall
      by now apply sort_by_confidence_Forall, removeDuplicates_from_Forall.
    rewrite List.Forall_forall in Hall. now apply Hall.
Qed.

(** C3. Every match in the result of [detectPatterns] stands under the
    name of a rule of the list and was made from a match of that rule's
    pattern in the text: its value is the candidate of that match and its
    position the index of the match.  Its confidence is the clamp to
    [0, 1] of 0.5, plus priority/10 times 0.3, plus 0.2 when the context
    window holds a word of the label vocabulary in any case, plus 0.1 when
    the rule's type is account and the value is capital letters followed
    by digits, minus 0.2 when the value is shorter than 3 or longer than
    50; and it lies between 0 and 1.  The context window is the text from
    50 characters before the match to 50 characters after its end,
    clipped to the text; the match stores it trimmed, which holds a label
    word exactly when the window does.  The priority of a rule is a
    number that is not NaN. *)
Theorem detected_confidence fuel text (rules : list PatternRule.t) results key ms m :
  Forall (fun rule => is_nan (PatternRule.priority rule) = false) rules ->
  detectPatterns fuel text rules = Some results ->
  In (key, ms) results ->
  In m ms ->
  (exists rule mo start,
      In rule rules /\ PatternRule.name rule = key /\
      start <= String.length text /\
      RegExp.match_from (PatternRule.regex rule) text start = Some mo /\
      PatternMatch.value m = RegExp.value_of mo /\
      PatternMatch.position m = RegExp.index mo /\
      let context := window text (RegExp.index mo) (String.length (RegExp.whole mo)) in
      PatternMatch.context m = trim context /\
      (has_label_word (PatternMatch.context m) <-> has_label_word context) /\
      scored (PatternRule.priority rule) (PatternRule.type rule) (PatternMatch.value m)
             context (PatternMatch.confidence m)) /\
  leb zero (PatternMatch.confidence m) = true /\
  leb (PatternMatch.confidence m) one = true.
Proof.
  intros Hprio Hrun Hentry Hm. unfold detectPatterns in Hrun.
  destruct (detect_rules_accepted fuel text rules rules [] results (incl_refl _)
              (fun _ _ _ F => match F with end) Hrun key ms m Hentry Hm)
    as (rule & Hrule & Hname & mo & start & Hstart & Hmatch & -> & _).
  rewrite List.Forall_forall in Hprio. specialize (Hprio rule Hrule).
  assert (has_label_word (trim (context_window text mo))
          <-> has_label_word (context_window text mo)) as Htrim
    by (rewrite <- !hasLabel_iff, hasLabel_trim; reflexivity).
  split.
  - exists rule, mo, start.
    do 6 (split; [assumption || reflexivity|]).
    cbv zeta. rewrite <- context_window_window.
    split; [reflexivity|]. split; [exact Htrim|].
    rewrite context_window_window. apply calculateConfidence_scored.
  - simpl. rewrite calculateConfidence_spec. now apply spec_confidence_bounds.
Qed.

Lemma detected_confidence_witness :
  Forall (fun rule => is_nan (PatternRule.priority rule) = false) [reference_rule] /\
  detectPatterns 3 reference_text [reference_rule]
    = Some [("references", [reference_match])] /\
  (exists rule mo start,
      In rule [reference_rule] /\ PatternRule.name rule = "references" /\
      start <= String.length reference_text /\
      RegExp.match_from (PatternRule.regex rule) reference_text start = Some mo /\
      PatternMatch.value reference_match = RegExp.value_of mo /\
      PatternMatch.position reference_match = RegExp.index mo /\
      let context := window reference_text (RegExp.index mo)
                       (String.length (RegExp.whole mo)) in
      PatternMatch.context reference_match = trim context /\
      (has_label_word (PatternMatch.context reference_match) <-> has_label_word context) /\
      scored (PatternRule.priority rule) (PatternRule.type rule)
             (PatternMatch.value reference_match) context
             (PatternMatch.confidence reference_match)) /\
  leb zero (PatternMatch.confidence reference_match) = true /\
  leb (PatternMatch.confidence reference_match) one = true.
Proof.
  assert (Forall (fun rule => is_nan (PatternRule.priority rule) = false) [reference_rule])
    as Hprio by (repeat constructor).
  assert (detectPatterns 3 reference_text [reference_rule]
          = Some [("references", [reference_match])]) as Hrun
    by (vm_compute; reflexivity).
  split; [exact Hprio|]. split; [exact Hrun|].
  apply (detected_confidence 3 reference_text [reference_rule] _
           "references" [reference_match] reference_match Hprio Hrun); now left.
Defined.

(** In the document of the witness the label word lies in the window of
    the match and beyond the window that the length of the value alone
    would give: the score with the label is 1, without it 0.84. *)
Example window_spans_the_match :
  has_label_word (window reference_text 0 15) /\
  ~ has_label_word (window reference_text 0 6) /\
  spec_confidence (of_Z 8) true true false = of_Z 1 /\
  spec_confidence (of_Z 8) false true false = decimal 84 100.
Proof.
  split; [|split; [|split; vm_compute; reflexivity]].
  - apply hasLabel_iff. vm_compute. reflexivity.
  - rewrite <- hasLabel_iff. vm_compute. discriminate.
Qed.

End ScoreFacts.

(** ** The order inside an entry *)

Section RankingFacts.
Import JsString Number Detection DetectionSpec CatalogSpec SpecWords Sample Scenario.

Lemma same_number_eq (x y : number) : same_number x y = true <-> x = y.
Proof.
  destruct x as [a|a| |a m e], y as [b|b| |b m' e']; simpl;
    try (split; intros; discriminate); try (split; reflexivity).
  - rewrite Bool.eqb_true_iff. split; congruence.
  - rewrite Bool.eqb_true_iff. split; congruence.
  - rewrite !andb_true_iff, Bool.eqb_true_iff, Pos.eqb_eq, Z.eqb_eq.
    split; [intros [[-> ->] ->]; reflexivity|intros H; injection H; auto].
Qed.

(** The difference of a number with itself is not positive. *)
Lemma sub_self_not_positive (c : number) : ltb zero (sub c c) = false.
Proof.
  destruct c as [[]|[]| |s m e]; try reflexivity.
  unfold sub, SFsub. cbv zeta. rewrite Z.min_id.
  unfold shl_align.
  assert (forall x : Z, BinIntDef.Z.sub x x = 0%Z) as D by (intros; apply Z.sub_diag).
  rewrite (D e). cbn [fst]. rewrite D. reflexivity.
Qed.

Lemma goes_after_differ (x y : PatternMatch.t) :
  goes_after x y = true -> PatternMatch.confidence y <> PatternMatch.confidence x.
Proof.
  unfold goes_after. intros H E. rewrite E, sub_self_not_positive in H. discriminate.
Qed.

Lemma with_confidence_insert c x : forall l,
  with_confidence c (insert_by_confidence x l) = with_confidence c (x :: l).
Proof.
  induction l as [|y l IH]; [reflexivity|].
  cbn [insert_by_confidence]. destruct (goes_after x y) eqn:E; [|reflexivity].
  apply goes_after_differ in E.
  unfold with_confidence in *. cbn [List.filter] in IH |- *. rewrite IH.
  destruct (same_number (PatternMatch.confidence y) c) eqn:Ey;
    destruct (same_number (PatternMatch.confidence x) c) eqn:Ex; try reflexivity.
  apply same_number_eq in Ex, Ey. congruence.
Qed.

(** The sort is stable: matches of one confidence keep their order. *)
Lemma sort_by_confidence_stable (l : list PatternMatch.t) :
  ties_keep_order (sort_by_confidence l) l.
Proof.
  intros c. unfold sort_by_confidence. induction l as [|x l IH]; [reflexivity|].
  cbn [foldr]. rewrite with_confidence_insert.
  unfold with_confidence in *. cbn [List.filter]. now rewrite IH.
Qed.

(** The eight scores that a rule of priority [p] can give. *)
Lemma scores_on_scale (p : Z) (label shape out : bool) :
  In (spec_confidence (of_Z p) label shape out)
     (map (fun b => spec_confidence (of_Z p) (fst (fst b)) (snd (fst b)) (snd b))
          [(false, false, false); (false, false, true); (false, true, false);
           (false, true, true); (true, false, false); (true, false, true);
           (true, true, false); (true, true, true)]).
Proof. destruct label, shape, out; simpl; auto 10. Qed.

(** On the scores of a priority from 0 to 10 the comparison function of
    the sort is the order of the numbers, and that order is asymmetric
    and transitive. *)
Lemma order_on_scale (p : Z) (c1 c2 c3 : number) :
  (0 <= p <= 10)%Z ->
  let scores :=
    map (fun b => spec_confidence (of_Z p) (fst (fst b)) (snd (fst b)) (snd b))
        [(false, false, false); (false, false, true); (false, true, false);
         (false, true, true); (true, false, false); (true, false, true);
         (true, true, false); (true, true, true)] in
  In c1 scores -> In c2 scores -> In c3 scores ->
  ltb zero (sub c2 c1) = ltb c1 c2 /\
  (ltb c1 c2 = true -> ltb c2 c1 = false) /\
  (ltb c1 c2 = false -> ltb c2 c3 = false -> ltb c1 c3 = false).
Proof.
  intros Hp scores H1 H2 H3.
  assert (forallb (fun p =>
            let scores :=
              map (fun b => spec_confidence (of_Z p) (fst (fst b)) (snd (fst b)) (snd b))
                  [(false, false, false); (false, false, true); (false, true, false);
                   (false, true, true); (true, false, false); (true, false, true);
                   (true, true, false); (true, true, true)] in
            forallb (fun c1 => forallb (fun c2 => forallb (fun c3 =>
              Bool.eqb (ltb zero (sub c2 c1)) (ltb c1 c2) &&
              implb (ltb c1 c2) (negb (ltb c2 c1)) &&
              implb (negb (ltb c1 c2) && negb (ltb c2 c3)) (negb (ltb c1 c3)))
              scores) scores) scores)
          (map Z.of_nat (seq 0 11)) = true) as Hall by (vm_compute; reflexivity).
  rewrite forallb_forall in Hall.
  assert (In p (map Z.of_nat (seq 0 11))) as Hin.
  { apply in_map_iff. exists (Z.to_nat p). split; [lia|]. apply in_seq. lia. }
  specialize (Hall p Hin). cbv zeta in Hall. fold scores in Hall.
  rewrite forallb_forall in Hall. specialize (Hall c1 H1).
  rewrite forallb_forall in Hall. specialize (Hall c2 H2).
  rewrite forallb_forall in Hall. specialize (Hall c3 H3).
  apply andb_prop in Hall as [Hall F3]. apply andb_prop in Hall as [F1 F2].
  apply Bool.eqb_prop in F1. split; [exact F1|]. split.
  - intros H. rewrite H in F2. simpl in F2. now apply negb_true_iff in F2.
  - intros Ha Hb. rewrite Ha, Hb in F3. simpl in F3. now apply negb_true_iff in F3.
Qed.

(** The score of a match made for a rule whose priority is on the scale. *)
Lemma made_by_on_scale text rule (p : Z) m :
  PatternRule.priority rule = of_Z p -> made_by text rule m ->
  exists label shape out,
    PatternMatch.confidence m = spec_confidence (of_Z p) label shape out.
Proof.
  intros Hp [mo ->]. cbn [make_match PatternMatch.confidence].
  rewrite calculateConfidence_spec, Hp. eauto.
Qed.

Lemma insert_descending (p : Z) (x : PatternMatch.t) :
  (0 <= p <= 10)%Z ->
  let scored_p := fun m : PatternMatch.t =>
    exists label shape out,
      PatternMatch.confidence m = spec_confidence (of_Z p) label shape out in
  scored_p x ->
  forall l, Forall scored_p l -> descending l -> descending (insert_by_confidence x l).
Proof.
  intros Hp scored_p (lx & sx & ox & Hx).
  induction l as [|y l IH]; intros Hl Hd.
  - repeat constructor.
  - apply Forall_cons in Hl as [(ly & sy & oy & Hy) Hl].
    apply StronglySorted_inv in Hd as [Hd Hy_l].
    cbn [insert_by_confidence]. unfold goes_after. rewrite Hx, Hy.
    destruct (order_on_scale p _ _ (spec_confidence (of_Z p) lx sx ox) Hp
                (scores_on_scale p lx sx ox) (scores_on_scale p ly sy oy)
                (scores_on_scale p lx sx ox)) as (F1 & F2 & _).
    rewrite F1.
    destruct (ltb (spec_confidence (of_Z p) lx sx ox) (spec_confidence (of_Z p) ly sy oy))
      eqn:E.
    + constructor; [now apply IH|].
      apply insert_by_confidence_Forall; [|exact Hy_l].
      rewrite Hx, Hy. now apply F2.
    + constructor; [now constructor|].
      constructor; [now rewrite Hx, Hy|].
      rewrite List.Forall_forall in Hl, Hy_l |- *. intros z Hz.
      destruct (Hl z Hz) as (lz & sz & oz & Hzc). specialize (Hy_l z Hz).
      rewrite Hx, Hzc. rewrite Hy, Hzc in Hy_l.
      destruct (order_on_scale p _ _ (spec_confidence (of_Z p) lz sz oz) Hp
                  (scores_on_scale p lx sx ox) (scores_on_scale p ly sy oy)
                  (scores_on_scale p lz sz oz)) as (_ & _ & F3).
      now apply F3.
Qed.

(** The sort ranks the matches of a rule whose priority is on the scale
    by descending confidence. *)
Lemma sort_by_confidence_descending text rule (l : list PatternMatch.t) :
  on_scale rule -> Forall (made_by text rule) l -> descending (sort_by_confidence l).
Proof.
  intros (p & Hp & Hprio) Hl. unfold sort_by_confidence.
  assert (Forall (fun m => exists label shape out,
                    PatternMatch.confidence m = spec_confidence (of_Z p) label shape out)
                 l) as Hs.
  { eapply Forall_impl; [exact Hl|]. intros m. now apply made_by_on_scale. }
  clear Hl. induction Hs as [|x l Hx Hs IH]; [constructor|].
  cbn [foldr]. apply (insert_descending p x Hp Hx); [|exact IH].
  now apply (sort_by_confidence_Forall _ l).
Qed.


(** X18. When no two rules have the same name, the result of
    [detectPatterns] holds, in the order of the rules, one entry for each
    rule that is left with a match.  The matches of an entry are those
    that the loop of its rule is left with, one for each value up to case,
    the first of each: the entry is a permutation of these first
    occurrences in which matches of one confidence keep the order of the
    text, and, when the priority of the rule is a whole number from 0 to
    10, no match comes before one of greater confidence. *)
Theorem detectPatterns_distinct_names fuel text (rules : list PatternRule.t) results :
  NoDup (map PatternRule.name rules) ->
  detectPatterns fuel text rules = Some results ->
  results = entries fuel text rules /\
  forall k ranked, In (k, ranked) results ->
    exists rule found kept,
      In rule rules /\ PatternRule.name rule = k /\
      survivors fuel text rule = Some found /\ found <> [] /\
      sublist kept found /\
      NoDup (map match_key kept) /\
      (forall m, In m found -> In (match_key m) (map match_key kept)) /\
      (forall l1 m l2, found = l1 ++ m :: l2 ->
                       ~ In (match_key m) (map match_key l1) -> In m kept) /\
      Permutation ranked kept /\
      ties_keep_order ranked kept /\
      (on_scale rule -> descending ranked).
Proof.
  intros Hnd H.
  assert (results = entries fuel text rules) as ->.
  { apply (detect_rules_distinct fuel text rules [] results Hnd); [intros ? _ []|exact H]. }
  split; [reflexivity|]. intros k ranked Hin.
  apply list_elem_of_In, list_elem_of_omap in Hin as (rule & Hrule & He).
  apply list_elem_of_In in Hrule. unfold entry_of in He.
  destruct (survivors fuel text rule) as [[|m0 found]|] eqn:Hs; try discriminate.
  injection He as <- <-.
  exists rule, (m0 :: found), (removeDuplicates (m0 :: found)).
  destruct (removeDuplicates_from_keys (m0 :: found) ∅) as (H1 & _ & H3).
  split; [exact Hrule|]. split; [reflexivity|]. split; [exact Hs|].
  split; [discriminate|].
  split; [apply removeDuplicates_from_sublist|]. split; [exact H1|].
  split; [intros m Hm; destruct (H3 m Hm) as [Hn|Hk]; [set_solver|exact Hk]|].
  split.
  { intros l1 m l2 E Hl1. unfold removeDuplicates. rewrite E.
    apply removeDuplicates_from_first; [set_solver|exact Hl1]. }
  split; [apply sort_by_confidence_perm|].
  split; [apply sort_by_confidence_stable|].
  intros Hscale. apply (sort_by_confidence_descending text rule); [exact Hscale|].
  apply removeDuplicates_from_Forall.
  apply (exec_loop_made fuel text rule 0 [] (m0 :: found)); [constructor|exact Hs].
Qed.

Lemma detectPatterns_distinct_names_witness :
  let rules := [codes_rule; reference_rule] in
  NoDup (map PatternRule.name rules) /\
  detectPatterns 6 ranking_text rules = Some [("alphanumeric_codes", ranking_entry)] /\
  survivors 6 ranking_text codes_rule = Some ranking_found /\
  survivors 6 ranking_text reference_rule = Some [] /\
  [("alphanumeric_codes", ranking_entry)] = entries 6 ranking_text rules /\
  (exists kept,
      sublist kept ranking_found /\
      NoDup (map match_key kept) /\
      (forall m, In m ranking_found -> In (match_key m) (map match_key kept)) /\
      (forall l1 m l2, ranking_found = l1 ++ m :: l2 ->
                       ~ In (match_key m) (map match_key l1) -> In m kept) /\
      Permutation ranking_entry kept /\
      ties_keep_order ranking_entry kept) /\
  descending ranking_entry.
Proof.
  intros rules.
  assert (NoDup (map PatternRule.name rules)) as Hnd
    by (apply (bool_decide_unpack _); vm_compute; reflexivity).
  assert (detectPatterns 6 ranking_text rules = Some [("alphanumeric_codes", ranking_entry)])
    as Hdet by (vm_compute; reflexivity).
  assert (survivors 6 ranking_text codes_rule = Some ranking_found) as Hfound
    by (vm_compute; reflexivity).
  destruct (detectPatterns_distinct_names 6 ranking_text rules _ Hnd Hdet) as [He Hall].
  destruct (Hall "alphanumeric_codes" ranking_entry (or_introl eq_refl))
    as (rule & found & kept & Hrule & Hname & Hs & _ & H1 & H2 & H3 & H4 & H5 & H6 & H7).
  assert (rule = codes_rule) as ->.
  { destruct Hrule as [<-|[<-|[]]]; [reflexivity|discriminate Hname]. }
  rewrite Hfound in Hs. injection Hs as <-.
  split; [exact Hnd|]. split; [exact Hdet|]. split; [exact Hfound|].
  split; [vm_compute; reflexivity|]. split; [exact He|].
  split; [exists kept; tauto|].
  apply H7. exists 8%Z. split; [lia|reflexivity].
Defined.

End RankingFacts.
